(** * Dual-source convergence layer of the CRM services

    A shallow embedding of the service layer (company, event-log,
    announcement, opportunity and contact services) and of the reads,
    writes and normalisations its specification talks about.

    - JavaScript values are an inductive type of primitives; records
      (rows, DTOs, payloads) are finite maps from property names to
      primitives; arrays of rows are lists.
    - JavaScript strings are sequences of UTF-16 code units.
    - Readers and writers are external adapters: a call to one of them
      is an event appended to a trace, answered by an environment that
      may consult and change the state of the stores.
    - [async] functions are computations in a state-and-exception
      monad; [try]/[catch] is a handler on that monad. *)

From Stdlib Require Import ZArith NArith Ascii String List Bool Lia.
From stdpp Require Import gmap strings list fin_maps pretty.

Open Scope string_scope.
Open Scope list_scope.

(** ** JavaScript strings *)

Module JsString.

(** A string is a sequence of UTF-16 code units. *)
Abbreviation t := (list N).

(** Reading of a source literal: the UTF-8 bytes of a Rocq string are
    decoded into code points, and code points above the basic plane
    are split in surrogate pairs. *)
Fixpoint utf8 (bs : list N) : list N :=
  match bs with
  | [] => []
  | b1 :: r1 =>
    if (b1 <? 128)%N then b1 :: utf8 r1
    else if (b1 <? 224)%N then
      match r1 with
      | b2 :: r2 => (N.land b1 31 * 64 + N.land b2 63)%N :: utf8 r2
      | [] => []
      end
    else if (b1 <? 240)%N then
      match r1 with
      | b2 :: b3 :: r3 =>
        (N.land b1 15 * 4096 + N.land b2 63 * 64 + N.land b3 63)%N :: utf8 r3
      | _ => []
      end
    else
      match r1 with
      | b2 :: b3 :: b4 :: r4 =>
        let cp := (N.land b1 7 * 262144 + N.land b2 63 * 4096
                   + N.land b3 63 * 64 + N.land b4 63)%N in
        let v := (cp - 65536)%N in
        (55296 + N.shiftr v 10)%N :: (56320 + N.land v 1023)%N :: utf8 r4
      | _ => []
      end
  end.

Definition lit (s : string) : t :=
  utf8 (List.map (fun a => N_of_ascii a) (list_ascii_of_string s)).

(** [String.prototype.toLowerCase], one code unit at a time: the Basic
    Latin and Latin-1 capitals move to their small letters; every
    other code unit (digits, punctuation, CJK ideographs) is kept.
    The host works on code points and knows the case pairs of every
    script: this table is its behaviour on the [plain] strings below,
    and on no others. *)
Definition lower_unit (c : N) : N :=
  if ((65 <=? c) && (c <=? 90))%N then (c + 32)%N
  else if ((192 <=? c) && (c <=? 222) && negb (c =? 215))%N then (c + 32)%N
  else c.

Definition toLowerCase (s : t) : t := List.map lower_unit s.

(** The strings on which this table is the whole of
    [String.prototype.toLowerCase]: every code unit is of Basic Latin
    or Latin-1 (below U+0100), of the CJK blocks from the radicals to
    the unified ideographs (U+2E80 to U+9FFF: punctuation, kana,
    bopomofo, ideographs), or a fullwidth digit or punctuation mark
    (U+FF00 to U+FF20).  Such a string has no surrogate, no letter
    whose small form takes two code units, and no letter whose small
    form depends on its neighbours; outside Latin its code units have
    no case, and the host lowers it code unit by code unit.  The
    statements that depend on the letters of a name are about plain
    names. *)
Definition plain_unit (c : N) : bool :=
  ((c <? 256)
   || ((11904 <=? c) && (c <=? 40959))
   || ((65280 <=? c) && (c <=? 65312)))%N.

Definition plain (s : t) : bool := forallb plain_unit s.

(** WhiteSpace and LineTerminator code units, the ones [trim] strips. *)
Definition is_line_terminator (c : N) : bool :=
  ((c =? 10) || (c =? 13) || (c =? 8232) || (c =? 8233))%N.

Definition is_space (c : N) : bool :=
  ((c =? 9) || (c =? 11) || (c =? 12) || (c =? 32) || (c =? 160)
   || (c =? 5760) || ((8192 <=? c) && (c <=? 8202))
   || (c =? 8239) || (c =? 8287) || (c =? 12288) || (c =? 65279))%N
  || is_line_terminator c.

Fixpoint trimStart (s : t) : t :=
  match s with
  | [] => []
  | c :: r => if is_space c then trimStart r else s
  end.

Fixpoint trimEnd (s : t) : t :=
  match s with
  | [] => []
  | c :: r =>
    match trimEnd r with
    | [] => if is_space c then [] else [c]
    | r' => c :: r'
    end
  end.

Definition trim (s : t) : t := trimEnd (trimStart s).

(** A trimmed string starts with a code unit that is not a blank. *)
Definition head_ok (s : t) : Prop :=
  match s with
  | [] => True
  | c :: _ => is_space c = false
  end.

Fixpoint starts_with (p s : t) : bool :=
  match p, s with
  | [], _ => true
  | _ :: _, [] => false
  | a :: p', b :: s' => (a =? b)%N && starts_with p' s'
  end.

(** The three alternatives of [/股份有限公司|有限公司|公司/], in order. *)
Definition suffix_long : t := [32929; 20221; 26377; 38480; 20844; 21496]%N.
Definition suffix_mid : t := [26377; 38480; 20844; 21496]%N.
Definition suffix_short : t := [20844; 21496]%N.

(** Length of the match of the alternation at the head of [s]. *)
Definition suffix_match (s : t) : option nat :=
  if starts_with suffix_long s then Some (length suffix_long)
  else if starts_with suffix_mid s then Some (length suffix_mid)
  else if starts_with suffix_short s then Some (length suffix_short)
  else None.

(** [s.replace(/股份有限公司|有限公司|公司/g, '')]: a left-to-right scan;
    [skip] counts the code units of the current match still to drop. *)
Fixpoint removeSuffixes_from (skip : nat) (s : t) : t :=
  match s with
  | [] => []
  | c :: r =>
    match skip with
    | S k => removeSuffixes_from k r
    | O =>
      match suffix_match (c :: r) with
      | Some n => removeSuffixes_from (pred n) r
      | None => c :: removeSuffixes_from 0 r
      end
    end
  end.

Definition removeSuffixes (s : t) : t := removeSuffixes_from 0 s.

(** The word 公司, with which each of the three alternatives ends,
    occurs in [s]. *)
Fixpoint has_suffix_word (s : t) : bool :=
  starts_with suffix_short s
  || match s with
     | [] => false
     | _ :: r => has_suffix_word r
     end.

(** After an opening parenthesis, [.*\)] is greedy and [.] stops at a
    line terminator: the match ends at the last closing parenthesis of
    the line.  [close_len s] is the number of code units of [s] it
    covers. *)
Fixpoint close_len (s : t) : option nat :=
  match s with
  | [] => None
  | c :: r =>
    if is_line_terminator c then None
    else
      match close_len r with
      | Some n => Some (S n)
      | None => if (c =? 41)%N then Some 1 else None
      end
  end.

(** [s.replace(/\(.*\)/g, '')]. *)
Fixpoint removeParens_from (skip : nat) (s : t) : t :=
  match s with
  | [] => []
  | c :: r =>
    match skip with
    | S k => removeParens_from k r
    | O =>
      if (c =? 40)%N then
        match close_len r with
        | Some n => removeParens_from n r
        | None => c :: removeParens_from 0 r
        end
      else c :: removeParens_from 0 r
    end
  end.

Definition removeParens (s : t) : t := removeParens_from 0 s.

(** [/\(.*\)/] has a match in [s]: an opening parenthesis with a
    closing one after it on the same line. *)
Fixpoint has_paren_group (s : t) : bool :=
  match s with
  | [] => false
  | c :: r =>
    ((c =? 40)%N && match close_len r with Some _ => true | None => false end)
    || has_paren_group r
  end.

(** The chain of [_normalizeCompanyName] on a string receiver. *)
Definition normalizeName (s : t) : t :=
  trim (removeParens (removeSuffixes (trim (toLowerCase s)))).

End JsString.

Abbreviation js := JsString.lit.

(** ** JavaScript values *)

Module Js.

(** Primitive values.  Numbers are the integers (row indexes, counts)
    and [NaN]; fractional numbers do not occur in the rows. *)
Inductive Val :=
| VUndef
| VNull
| VBool (b : bool)
| VNum (z : Z)
| VNaN
| VStr (s : JsString.t).

#[global] Instance Val_eq_dec : EqDecision Val.
Proof. solve_decision. Defined.

(** A record: a row of a store, a DTO, a payload. *)
Abbreviation Obj := (gmap string Val).

(** What an adapter may hand back or receive: a primitive, a record,
    or an array of records. *)
Inductive Data :=
| DVal (v : Val)
| DObj (o : Obj)
| DList (l : list Obj).

#[global] Instance Data_eq_dec : EqDecision Data.
Proof. solve_decision. Defined.

(** ToBoolean. *)
Definition truthy (v : Val) : bool :=
  match v with
  | VUndef | VNull | VNaN => false
  | VBool b => b
  | VNum z => negb (z =? 0)%Z
  | VStr s => match s with [] => false | _ => true end
  end.

Definition truthyD (d : Data) : bool :=
  match d with
  | DVal v => truthy v
  | DObj _ | DList _ => true
  end.

(** [a || b]. *)
Definition or_else (a b : Val) : Val := if truthy a then a else b.
Infix "|||" := or_else (at level 50, left associativity).

(** A value whose letters, if it is a string, are plain. *)
Definition plain_name (v : Val) : bool :=
  match v with
  | VStr s => JsString.plain s
  | _ => true
  end.

(** [a === b]: [NaN] differs from itself. *)
Definition strict_eq (a b : Val) : bool :=
  match a, b with
  | VNaN, _ | _, VNaN => false
  | _, _ => bool_decide (a = b)
  end.

(** SameValueZero, the key comparison of [Map] and [Set]. *)
Definition same_value_zero (a b : Val) : bool := bool_decide (a = b).

(** [o.k] on a record: [undefined] when the property is missing. *)
Definition get (o : Obj) (k : string) : Val := default VUndef (o !! k).

(** [o?.k] when [o] may be [null] or [undefined]. *)
Definition get_opt (o : option Obj) (k : string) : Val :=
  match o with Some r => get r k | None => VUndef end.

(** The result of [Number(v)], as far as the code inspects it:
    an integer, [NaN], or a number that is neither (a fraction, an
    infinity). *)
Inductive Num :=
| NInt (z : Z)
| NNaN
| NOther.

Definition isNaN (n : Num) : bool :=
  match n with NNaN => true | _ => false end.

Definition isInteger (n : Num) : bool :=
  match n with NInt _ => true | _ => false end.

(** [n === m] on two numbers of which one passed [Number.isInteger]. *)
Definition num_eq (n m : Num) : bool :=
  match n, m with
  | NInt a, NInt b => (a =? b)%Z
  | _, _ => false
  end.

(** [Number(v)]; the conversion of a string is the host's. *)
Definition Number (StringToNumber : JsString.t -> Num) (v : Val) : Num :=
  match v with
  | VUndef => NNaN
  | VNull => NInt 0
  | VBool b => NInt (if b then 1 else 0)
  | VNum z => NInt z
  | VNaN => NNaN
  | VStr s => StringToNumber s
  end.

(** [new Map(entries).get(k)]: a later entry overrides an earlier one
    with the same key. *)
Fixpoint map_get (entries : list (Val * Val)) (k : Val) : Val :=
  match entries with
  | [] => VUndef
  | (k', v) :: r =>
    match List.find (fun e => same_value_zero (fst e) k) r with
    | Some _ => map_get r k
    | None => if same_value_zero k' k then v else VUndef
    end
  end.

(** The value of a run of decimal digits. *)
Fixpoint digits (acc : Z) (s : JsString.t) : option Z :=
  match s with
  | [] => Some acc
  | c :: r =>
    if ((48 <=? c) && (c <=? 57))%N
    then digits (10 * acc + Z.of_N (c - 48)) r
    else None
  end.

(** A conversion of strings for concrete runs.  It agrees with the
    host's on the texts it reads: blanks around the text are dropped,
    the empty text is 0, an optional sign and decimal digits give the
    integer, and a text with no numeric reading is [NaN].  The other
    numeric forms (fractions, exponents, radix prefixes, infinities) are
    not read. *)
Definition decimal (s : JsString.t) : Num :=
  match JsString.trim s with
  | [] => NInt 0
  | c :: r =>
    let body := if ((c =? 43) || (c =? 45))%N then r else c :: r in
    match body with
    | [] => NNaN
    | _ =>
      match digits 0 body with
      | Some z => NInt (if (c =? 45)%N then - z else z)
      | None => NNaN
      end
    end
  end.

End Js.

Export Js.

(** ** Adapters, traces and the monad of [async] functions *)

Module Rt.

(** The messages of the [Error]s the services construct. *)
Inductive Msg :=
| CompanyNotFound (companyName : Val)
  (* `找不到公司: ${companyName}` *)
| CompanyRowIndexMissing
  (* '系統錯誤: 無法取得資料行號 (rowIndex missing)' *)
| CompanyHasOpportunities (count : nat) (example : Val)
  (* `無法刪除：尚有 ${n} 個關聯機會案件 (例如: ${name})。請先移除關聯案件。` *)
| CompanySqlWriterNotInjected
  (* 'CompanySqlWriter not injected' *)
| SqlInvalidStructure
  (* 'SQL returned invalid structure' *)
| SqlReaderNotInjected
  (* 'SQL Reader not injected' *)
| EventUpdateNotFound (key : Val)
  (* `Update Failed: Event ID '${rowIndex}' not found.` *)
| InvalidResolvedRowIndex
  (* 'Invalid resolved rowIndex' *)
| EventDeleteNotFound (eventId : Val)
  (* `Delete Failed: Event ID '${eventId}' not found.` *)
| AnnouncementNotFound (id : Val)
  (* `找不到公告 ID: ${id}` *)
| ForbiddenUpdate
  (* '[Forbidden] 無法更新 SQL 來源的資料 (Missing rowIndex)。請切換回 Sheet 模式或聯絡管理員。' *)
| ForbiddenDelete
  (* '[Forbidden] 無法刪除 SQL 來源的資料 (Missing rowIndex)。請切換回 Sheet 模式或聯絡管理員。' *)
| OpportunityUpdateNotFound (rowIndex : Val)
  (* `找不到要更新的機會 (Row: ${rowIndex})` *)
| OpportunityDeleteNotFound (rowIndex : Val)
  (* `找不到要刪除的機會 (Row: ${rowIndex})` *)
| OpportunityNotFound (opportunityId : Val)
  (* `找不到機會ID為 ${opportunityId} 的案件` *)
| ContactCoreReaderMissing
  (* '[ContactService] contactCoreReader not configured' *)
| ContactRawReaderMissing
  (* '[ContactService] contactRawReader not configured' *)
| ContactCoreFallbackMissing
  (* '[ContactService] contactCoreReader not configured for Sheet fallback' *)
| SqlEmpty.
  (* 'SQL returned empty data or null (Treating as sync lag)' *)

(** What can be thrown: an [Error] of a service, a [TypeError] of the
    runtime (a property of [null], a method that is not there), or
    the rejection of an adapter. *)
Inductive Exn :=
| Error (m : Msg)
| TypeError
| Rejected (reason : Val).

(** The message carries the [Forbidden] marker. *)
Definition is_forbidden (e : Exn) : bool :=
  match e with
  | Error ForbiddenUpdate | Error ForbiddenDelete => true
  | _ => false
  end.

(** The message reports a key that resolves to no record. *)
Definition is_not_found (e : Exn) : bool :=
  match e with
  | Error (CompanyNotFound _) | Error (EventUpdateNotFound _)
  | Error (EventDeleteNotFound _) | Error (AnnouncementNotFound _)
  | Error (OpportunityUpdateNotFound _) | Error (OpportunityDeleteNotFound _)
  | Error (OpportunityNotFound _) => true
  | _ => false
  end.

Inductive Res (A : Type) :=
| Ok (a : A)
| Throw (e : Exn).
Arguments Ok {A} a.
Arguments Throw {A} e.

(** [error.message], where a [catch] block logs it.  What was caught
    is whatever was thrown or whatever a promise was rejected with:
    reading a property of [null] or [undefined] is a [TypeError],
    and of every other value it succeeds. *)
Definition error_message (error : Exn) : Res unit :=
  match error with
  | Rejected VUndef | Rejected VNull => Throw TypeError
  | _ => Ok tt
  end.

(** Read methods of the adapters. *)
Inductive ReadOp :=
| companySqlReader_getCompanies
| companyReader_getCompanyList
| opportunitySqlReader_getOpportunities
| opportunityReader_getOpportunities
| eventLogSqlReader_getEventLogs
| eventReader_getEventLogs
| announcementSqlReader_getAnnouncements
| announcementReader_getAnnouncements
| contactSqlReader_getContacts
| contactCoreReader_getContactList
| contactCoreReader_getAllOppContactLinks
| contactRawReader_getContacts
| contactReader_getAllOppContactLinks
| contactReader_getContactList
| contactReader_getContacts
| interactionReader_getInteractions
| systemReader_getSystemConfig.

#[global] Instance ReadOp_eq_dec : EqDecision ReadOp.
Proof. solve_decision. Defined.

(** Create, update and delete primitives of the stores. *)
Inductive WriteOp :=
| companySqlWriter_createCompany (data : Obj) (modifier : Data)
| companyWriter_updateCompany (rowIndex : Val) (data : Obj) (modifier : Val)
| companyWriter_deleteCompany (rowIndex : Val)
| interactionWriter_createInteraction (entry : Obj)
| eventWriter_createEventLog (payload : Obj) (modifier : Val)
| eventWriter_updateEventLog (rowIndex : Val) (data : option Obj) (modifier : Val)
| eventWriter_deleteEventLog (rowIndex : Val) (eventType : Val)
| announcementWriter_updateAnnouncement (rowIndex : Val) (data : Obj) (modifierName : Val)
| announcementWriter_deleteAnnouncement (rowIndex : Val)
| opportunityWriter_updateOpportunity (rowIndex : Val) (data : Obj) (modifier : Val)
| opportunityWriter_deleteOpportunity (rowIndex : Val) (modifier : Val).

Inductive CacheOwner := companyReader | eventReader | opportunityReader.

(** Values the host supplies. *)
Inductive HostOp :=
| fresh_company_id
  (* `COMP_${Date.now()}_${Math.floor(Math.random() * 1000)}` *)
| now_iso.
  (* new Date().toISOString() *)

Inductive Call :=
| Read (r : ReadOp)
| Write (w : WriteOp)
| Invalidate (owner : CacheOwner) (key : JsString.t)
| ResetCache (owner : CacheOwner)
| Host (h : HostOp).

Definition is_write (c : Call) : bool :=
  match c with Write _ => true | _ => false end.

Definition is_read_of (r : ReadOp) (c : Call) : bool :=
  match c with
  | Read r' => bool_decide (r' = r)
  | _ => false
  end.

(** Which optional collaborators were injected, and which optional
    methods they have. *)
Record Wiring := {
  has_companySqlReader : bool;
  has_companySqlWriter : bool;
  has_interactionWriter_createInteraction : bool;
  has_companyReader_invalidateCache : bool;
  has_eventLogSqlReader : bool;
  has_eventReader_invalidateCache : bool;
  has_eventReader_cache : bool;
  has_announcementSqlReader : bool;
  has_opportunitySqlReader : bool;
  has_opportunityReader_invalidateCache : bool;
  has_contactSqlReader : bool;
  has_contactCoreReader : bool;
  has_contactRawReader : bool
}.

Section Monad.
Context {S : Type}.

(** The environment of a service: how each adapter answers in a
    given state of the stores, and what was injected. *)
Record Env := {
  respond : Call -> S -> Res Data * S;
  wiring : Wiring
}.

Record World := {
  store : S;
  trace : list Call
}.

Definition M (A : Type) : Type := World -> Res A * World.

Definition ret {A} (a : A) : M A := fun w => (Ok a, w).

Definition throw {A} (e : Exn) : M A := fun w => (Throw e, w).

Definition bind {A B} (m : M A) (k : A -> M B) : M B :=
  fun w =>
    match m w with
    | (Ok a, w') => k a w'
    | (Throw e, w') => (Throw e, w')
    end.

(** [try { m } catch (e) { h e }]. *)
Definition try_catch {A} (m : M A) (h : Exn -> M A) : M A :=
  fun w =>
    match m w with
    | (Ok a, w') => (Ok a, w')
    | (Throw e, w') => h e w'
    end.

(** A pure step that may throw. *)
Definition lift {A} (r : Res A) : M A := fun w => (r, w).

(** [catch (error) { console.warn(..., error.message); k }]: the
    handler reads the message of what it caught, then goes on. *)
Definition logged {A} (k : M A) (error : Exn) : M A :=
  bind (lift (error_message error)) (fun _ => k).

(** [await adapter.method(args)]. *)
Definition call (env : Env) (c : Call) : M Data :=
  fun w =>
    let (r, s') := respond env c (store w) in
    (r, {| store := s'; trace := trace w ++ [c] |}).

(** [await Promise.all([m1, m2])]: the members are run one after the
    other, in the order of the list; the result is the pair of
    results, or the rejection of the first member of the list that
    rejects.  The host starts every member before any of them
    resumes, and rejects with the rejection that comes first in time:
    the order of the calls that a member makes after its first
    [await], and which of two rejections is reported, are not those
    of the host. *)
Definition all2 {A B} (m1 : M A) (m2 : M B) : M (A * B) :=
  fun w =>
    let (r1, w1) := m1 w in
    let (r2, w2) := m2 w1 in
    match r1, r2 with
    | Ok a, Ok b => (Ok (a, b), w2)
    | Throw e, _ => (Throw e, w2)
    | _, Throw e => (Throw e, w2)
    end.

(** [d.map(f)], [d.find(f)], ... need an array receiver. *)
Definition as_array (d : Data) : Res (list Obj) :=
  match d with
  | DList l => Ok l
  | _ => Throw TypeError
  end.

(** [l.find(f)] for a callback that may throw. *)
Fixpoint find_res (f : Obj -> Res bool) (l : list Obj) : Res (option Obj) :=
  match l with
  | [] => Ok None
  | x :: r =>
    match f x with
    | Throw e => Throw e
    | Ok true => Ok (Some x)
    | Ok false => find_res f r
    end
  end.

(** [l.filter(f)] for a callback that may throw. *)
Fixpoint filter_res (f : Obj -> Res bool) (l : list Obj) : Res (list Obj) :=
  match l with
  | [] => Ok []
  | x :: r =>
    match f x with
    | Throw e => Throw e
    | Ok b =>
      match filter_res f r with
      | Throw e => Throw e
      | Ok r' => Ok (if b then x :: r' else r')
      end
    end
  end.

Definition run {A} (m : M A) (s : S) : Res A * World :=
  m {| store := s; trace := [] |}.

End Monad.

Arguments Env S : clear implicits.
Arguments World S : clear implicits.
Arguments M S A : clear implicits.

Declare Scope js_scope.
Delimit Scope js_scope with js.
Notation "x <- m ;; k" := (bind m (fun x => k))
  (at level 100, m at next level, right associativity) : js_scope.
Notation "m ;;; k" := (bind m (fun _ => k))
  (at level 100, right associativity) : js_scope.

End Rt.

Export Rt.
Open Scope js_scope.

(** ** services/company-service.js *)

Module CompanyService.

(** The object literal of [_toServiceDTO]: for each canonical field the
    first truthy alias, else the empty string; [rowIndex] is copied. *)
Definition dto (raw : Obj) : Obj :=
  let e := VStr [] in
  <[ "companyId" := get raw "companyId" ||| get raw "company_id" ||| e ]>
  (<[ "companyName" := get raw "companyName" ||| get raw "company_name" ||| e ]>
  (<[ "phone" := get raw "phone" ||| e ]>
  (<[ "address" := get raw "address" ||| e ]>
  (<[ "county" := get raw "county" ||| get raw "city" ||| e ]>
  (<[ "introduction" := get raw "introduction" ||| get raw "description" ||| e ]>
  (<[ "companyType" := get raw "companyType" ||| get raw "company_type" ||| e ]>
  (<[ "customerStage" := get raw "customerStage" ||| get raw "customer_stage" ||| e ]>
  (<[ "engagementRating" :=
        get raw "engagementRating" ||| get raw "interactionRating" ||| e ]>
  (<[ "createdTime" := get raw "createdTime" ||| get raw "created_time" ||| e ]>
  (<[ "lastUpdateTime" :=
        get raw "lastUpdateTime" ||| get raw "updatedTime"
        ||| get raw "updated_time" ||| e ]>
  (<[ "creator" :=
        get raw "creator" ||| get raw "createdBy" ||| get raw "created_by" ||| e ]>
  (<[ "lastModifier" :=
        get raw "lastModifier" ||| get raw "updatedBy"
        ||| get raw "updated_by" ||| e ]>
  (<[ "rowIndex" := get raw "rowIndex" ]> ∅))))))))))))).

(** [_toServiceDTO(raw)]: [null] for a missing row. *)
Definition _toServiceDTO (raw : option Obj) : option Obj :=
  match raw with
  | None => None
  | Some r => Some (dto r)
  end.

(** [_normalizeCompanyName(name)]: the empty string for a falsy name;
    a truthy value that is not a string has no [toLowerCase]. *)
Definition _normalizeCompanyName (name : Val) : Res JsString.t :=
  if negb (truthy name) then Ok []
  else
    match name with
    | VStr s => Ok (JsString.normalizeName s)
    | _ => Throw TypeError
    end.

(** The callback [c => this._normalizeCompanyName(c.companyName) === target]. *)
Definition name_matches (target : JsString.t) (c : Obj) : Res bool :=
  match _normalizeCompanyName (get c "companyName") with
  | Ok n => Ok (bool_decide (n = target))
  | Throw e => Throw e
  end.

(** [d.x] on a value that may be [null], a primitive or an object. *)
Definition prop (d : Data) (k : string) : Res Val :=
  match d with
  | DObj o => Ok (get o k)
  | DVal VUndef | DVal VNull => Throw TypeError
  | _ => Ok VUndef
  end.

(** The primitive an adapter answered, where a primitive is expected
    (an id, a time stamp). *)
Definition val_of (d : Data) : Val :=
  match d with DVal v => v | _ => VUndef end.

(** The literal returned when the company is already there. *)
Record ExistedResult := {
  success : bool;
  id : Val;
  name : Val;
  message : JsString.t;
  existed : bool;
  data : Obj
}.

Inductive CreateResult :=
| Existing (r : ExistedResult)
| FromWriter (result : Data).

Section Service.
Context {S : Type} (env : Env S).

(** [_getAllCompanies()]: SQL first, sheet as fallback. *)
Definition _getAllCompanies : M S (list Obj) :=
  companies <-
    (if has_companySqlReader (wiring env) then
       try_catch
         (sqlRaw <- call env (Read companySqlReader_getCompanies) ;;
          match sqlRaw with
          | DList (r :: l) => ret (Some (List.map dto (r :: l)))
          | _ => ret None
          end)
         (logged (ret None))
     else ret None) ;;
  match companies with
  | Some l => ret l
  | None =>
    try_catch
      (sheetRaw <- call env (Read companyReader_getCompanyList) ;;
       l <- lift (as_array sheetRaw) ;;
       ret (List.map dto l))
      (fun sheetError => throw sheetError)
  end.

(** [_getCompanyByName(companyName)]. *)
Definition _getCompanyByName (companyName : Val) : M S (option Obj) :=
  if negb (truthy companyName) then ret None
  else
    companies <- _getAllCompanies ;;
    normalizedTarget <- lift (_normalizeCompanyName companyName) ;;
    lift (find_res (name_matches normalizedTarget) companies).

(** [if (this.companyReader.invalidateCache) ... invalidateCache('companyList')]. *)
Definition invalidate_companyList : M S unit :=
  if has_companyReader_invalidateCache (wiring env)
  then (call env (Invalidate companyReader (js "companyList")) ;;; ret tt)
  else ret tt.

(** [_logCompanyInteraction]: the message of a failure is logged,
    and the failure is not passed on. *)
Definition _logCompanyInteraction (companyId : Val) (title summary : JsString.t)
    (modifier : Val) : M S unit :=
  try_catch
    (if has_interactionWriter_createInteraction (wiring env) then
       t <- call env (Host now_iso) ;;
       call env (Write (interactionWriter_createInteraction
         (<[ "companyId" := companyId ]>
         (<[ "eventType" := VStr (js "系統事件") ]>
         (<[ "eventTitle" := VStr title ]>
         (<[ "contentSummary" := VStr summary ]>
         (<[ "recorder" := modifier ]>
         (<[ "interactionTime" := val_of t ]> ∅)))))))) ;;;
       ret tt
     else ret tt)
    (logged (ret tt)).

(** [user.displayName || user.username || user || 'System']. *)
Definition creator_of (user : Data) : Res Data :=
  match prop user "displayName", prop user "username" with
  | Ok dn, Ok un =>
    Ok (if truthy dn then DVal dn
        else if truthy un then DVal un
        else if truthyD user then user
        else DVal (VStr (js "System")))
  | Throw e, _ | _, Throw e => Throw e
  end.

(** [createCompany(companyName, companyData, user)], version 7.8. *)
Definition createCompany (companyName : Val) (companyData : option Obj)
    (user : Data) : M S CreateResult :=
  try_catch
    (modifier <- lift (creator_of user) ;;
     existing <- _getCompanyByName companyName ;;
     match existing with
     | Some c =>
       ret (Existing {| success := true;
                        id := get c "companyId";
                        name := get c "companyName";
                        message := js "公司已存在";
                        existed := true;
                        data := c |})
     | None =>
       companyId <- call env (Host fresh_company_id) ;;
       let dataToWrite : Obj :=
         default ∅ companyData
         ∪ <[ "companyId" := val_of companyId ]>
             (<[ "companyName" := companyName ]> ∅) in
       if negb (has_companySqlWriter (wiring env))
       then throw (Error CompanySqlWriterNotInjected)
       else
         result <- call env
           (Write (companySqlWriter_createCompany dataToWrite modifier)) ;;
         invalidate_companyList ;;;
         ret (FromWriter result)
     end)
    (fun error => throw error).

End Service.

End CompanyService.

(** The row-addressed write path of version 7.7, kept in the same file:
    the reads ([_getAllCompanies], [_getCompanyByName]), the name
    normalisation and [_logCompanyInteraction] are those above, word
    for word. *)

Module CompanyService_v7_7.

Import CompanyService.

Section Service.
Context {S : Type} (env : Env S).

(** [_findCompanyRowIndex(companyName)]: reads the sheet itself. *)
Definition _findCompanyRowIndex (companyName : Val) : M S Val :=
  rawList <- call env (Read companyReader_getCompanyList) ;;
  normalizedTarget <- lift (_normalizeCompanyName companyName) ;;
  l <- lift (as_array rawList) ;;
  target <- lift (find_res (name_matches normalizedTarget) l) ;;
  match target with
  | None => throw (Error (CompanyNotFound companyName))
  | Some t =>
    if negb (truthy (get t "rowIndex"))
    then throw (Error CompanyRowIndexMissing)
    else ret (get t "rowIndex")
  end.

(** [user.displayName || user.username || 'System']. *)
Definition modifier_of (user : Data) : Res Val :=
  match prop user "displayName", prop user "username" with
  | Ok dn, Ok un => Ok (dn ||| un ||| VStr (js "System"))
  | Throw e, _ | _, Throw e => Throw e
  end.

(** [updateCompany(companyName, updateData, user)]. *)
Definition updateCompany (companyName : Val) (updateData : Obj)
    (user : Data) : M S Data :=
  try_catch
    (modifier <- lift (modifier_of user) ;;
     companyInfo <- _getCompanyByName env companyName ;;
     match companyInfo with
     | None => throw (Error (CompanyNotFound companyName))
     | Some info =>
       rowIndex <- _findCompanyRowIndex companyName ;;
       result <- call env
         (Write (companyWriter_updateCompany rowIndex updateData modifier)) ;;
       _logCompanyInteraction env (get info "companyId")
         (js "資料更新") (js "公司資料已更新。") modifier ;;;
       invalidate_companyList env ;;;
       ret result
     end)
    (fun error => throw error).

(** The callback of [opps.filter] in [deleteCompany]. *)
Definition opp_of_company (companyName : Val) (o : Obj) : Res bool :=
  match _normalizeCompanyName (get o "customerCompany"),
        _normalizeCompanyName companyName with
  | Ok a, Ok b => Ok (bool_decide (a = b))
  | Throw e, _ | _, Throw e => Throw e
  end.

(** [deleteCompany(companyName, user)]. *)
Definition deleteCompany (companyName : Val) (user : Data) : M S Data :=
  try_catch
    (opps <- call env (Read opportunityReader_getOpportunities) ;;
     l <- lift (as_array opps) ;;
     relatedOpps <- lift (filter_res (opp_of_company companyName) l) ;;
     match relatedOpps with
     | o :: _ =>
       throw (Error (CompanyHasOpportunities (length relatedOpps)
                       (get o "opportunityName")))
     | [] =>
       rowIndex <- _findCompanyRowIndex companyName ;;
       result <- call env (Write (companyWriter_deleteCompany rowIndex)) ;;
       invalidate_companyList env ;;;
       ret result
     end)
    (fun error => throw error).

End Service.

End CompanyService_v7_7.

(** ** services/event-log-service.js *)

Module EventLogService.

(** The callback of [events.map] in [getAllEvents]: a clone of the
    row with the [id] alias and the joined names. *)
Definition decorate (oppMap compMap : list (Val * Val)) (raw : Obj) : Obj :=
  let e0 := raw in
  let e1 :=
    if negb (truthy (get e0 "id")) && truthy (get e0 "eventId")
    then <[ "id" := get e0 "eventId" ]> e0 else e0 in
  let e2 :=
    if truthy (get e1 "opportunityId")
    then <[ "opportunityName" :=
              map_get oppMap (get e1 "opportunityId") ||| get e1 "opportunityId" ]> e1
    else e1 in
  if truthy (get e2 "companyId")
  then <[ "companyName" :=
            map_get compMap (get e2 "companyId") ||| get e2 "companyId" ]> e2
  else e2.

Definition entries (key value : string) (l : list Obj) : list (Val * Val) :=
  List.map (fun o => (get o key, get o value)) l.

(** What [updateEventLog] returns. *)
Inductive UpdateResult :=
| Moved (createResult : Data)
  (* { ...createResult, moved: true } when createResult is an object,
     { success: true, moved: true } otherwise *)
| Updated (result : Data).
  (* the result of updateEvent *)

(** The [moved] property of the returned value. *)
Definition moved (r : UpdateResult) : Val :=
  match r with
  | Moved _ => VBool true
  | Updated (DObj o) => get o "moved"
  | Updated _ => VUndef
  end.

(** [logs.find(f)]; the receiver is only inspected when [find] runs. *)
Definition find_in (logs : Data) (f : Obj -> bool) : Res (option Obj) :=
  match as_array logs with
  | Ok l => Ok (List.find f l)
  | Throw e => Throw e
  end.

Definition is_string (v : Val) : bool :=
  match v with VStr _ => true | _ => false end.

(** [data?.eventId || data?.id || null]. *)
Definition inputEventId (data : option Obj) : Val :=
  get_opt data "eventId" ||| get_opt data "id" ||| VNull.

(** [user?.displayName || user?.username || 'System']. *)
Definition modifier_of_user (user : option Obj) : Val :=
  get_opt user "displayName" ||| get_opt user "username" ||| VStr (js "System").

(** [{ displayName: modifier }]. *)
Definition proxy_user (modifier : Val) : Obj := <[ "displayName" := modifier ]> ∅.

(** The record built in step (B) of the move. *)
Definition move_payload (data original : Obj) : Obj :=
  let p0 := data in
  let p1 := <[ "eventId" := get original "eventId" ]> p0 in
  let p2 := <[ "id" := get original "eventId" ]> p1 in
  if negb (truthy (get p2 "createdTime")) && truthy (get original "createdTime")
  then <[ "createdTime" := get original "createdTime" ]> p2
  else p2.

Section Service.
Context {S : Type} (env : Env S).
Context (StringToNumber : JsString.t -> Num).

Abbreviation toNumber := (Number StringToNumber).

(** [_invalidateEventCacheSafe()]. *)
Definition _invalidateEventCacheSafe : M S unit :=
  try_catch
    (if has_eventReader_invalidateCache (wiring env)
     then (call env (Invalidate eventReader (js "eventLogs")) ;;; ret tt)
     else if has_eventReader_cache (wiring env)
     then (call env (ResetCache eventReader) ;;; ret tt)
     else ret tt)
    (fun _ => ret tt).

(** [getAllEvents()]. *)
Definition getAllEvents : M S (list Obj) :=
  try_catch
    (events <-
       try_catch
         (if has_eventLogSqlReader (wiring env) then
            ev <- call env (Read eventLogSqlReader_getEventLogs) ;;
            match ev with
            | DList _ => ret ev
            | _ => throw (Error SqlInvalidStructure)
            end
          else throw (Error SqlReaderNotInjected))
         (logged (call env (Read eventReader_getEventLogs))) ;;
     joined <- all2 (call env (Read opportunityReader_getOpportunities))
                    (call env (Read companyReader_getCompanyList)) ;;
     opps <- lift (as_array (fst joined)) ;;
     comps <- lift (as_array (snd joined)) ;;
     let oppMap := entries "opportunityId" "opportunityName" opps in
     let compMap := entries "companyId" "companyName" comps in
     l <- lift (as_array events) ;;
     ret (List.map (decorate oppMap compMap) l))
    (fun _ => ret []).

(** [updateEvent(rowIndex, data, user)]. *)
Definition updateEvent (rowIndex : Val) (data : option Obj)
    (user : option Obj) : M S Data :=
  try_catch
    (let modifier := modifier_of_user user in
     result <- call env (Write (eventWriter_updateEventLog rowIndex data modifier)) ;;
     _invalidateEventCacheSafe ;;;
     ret result)
    (fun error => throw error).

(** Steps 1 and 2 of [updateEventLog]: the original record. *)
Definition locate_original (logs : Data) (idOrRowIndex : Val)
    (data : option Obj) : Res (option Obj) :=
  let by_id :=
    if truthy (inputEventId data)
    then find_in logs (fun l => strict_eq (get l "eventId") (inputEventId data))
    else Ok None in
  match by_id with
  | Throw e => Throw e
  | Ok (Some o) => Ok (Some o)
  | Ok None =>
    let candidateRow := toNumber idOrRowIndex in
    if isInteger candidateRow
    then find_in logs (fun l => num_eq (toNumber (get l "rowIndex")) candidateRow)
    else Ok None
  end.

(** Step 3 of [updateEventLog]: the row index handed to the writer. *)
Definition resolve_rowIndex (logs : Data) (idOrRowIndex : Val) : Res Z :=
  let resolved :=
    if is_string idOrRowIndex && isNaN (toNumber idOrRowIndex) then
      match find_in logs (fun l => strict_eq (get l "eventId") idOrRowIndex) with
      | Throw e => Throw e
      | Ok None => Throw (Error (EventUpdateNotFound idOrRowIndex))
      | Ok (Some target) =>
        if negb (truthy (get target "rowIndex"))
        then Throw (Error (EventUpdateNotFound idOrRowIndex))
        else Ok (get target "rowIndex")
      end
    else Ok idOrRowIndex in
  match resolved with
  | Throw e => Throw e
  | Ok r =>
    match toNumber r with
    | NInt z => Ok z
    | _ => Throw (Error InvalidResolvedRowIndex)
    end
  end.

(** The test of step 4: the category changes. *)
Definition category_changes (original : option Obj) (data : option Obj) : bool :=
  match original, data with
  | Some o, Some d =>
    truthy (get d "eventType") && truthy (get o "eventType")
    && negb (strict_eq (get d "eventType") (get o "eventType"))
  | _, _ => false
  end.

(** [updateEventLog(idOrRowIndex, data, modifier)]. *)
Definition updateEventLog (idOrRowIndex : Val) (data : option Obj)
    (modifier : Val) : M S UpdateResult :=
  logs <- call env (Read eventReader_getEventLogs) ;;
  original <- lift (locate_original logs idOrRowIndex data) ;;
  rowIndex <- lift (resolve_rowIndex logs idOrRowIndex) ;;
  match original, data with
  | Some o, Some d =>
    if category_changes original data then
      try_catch
        (call env (Write (eventWriter_deleteEventLog
                            (get o "rowIndex") (get o "eventType"))) ;;;
         let payload := move_payload d o in
         createResult <- call env (Write (eventWriter_createEventLog payload modifier)) ;;
         _invalidateEventCacheSafe ;;;
         ret (Moved createResult))
        (fun moveError => throw moveError)
    else
      r <- updateEvent (VNum rowIndex) data
             (Some (proxy_user modifier)) ;;
      ret (Updated r)
  | _, _ =>
    r <- updateEvent (VNum rowIndex) data
           (Some (proxy_user modifier)) ;;
    ret (Updated r)
  end.

(** [deleteEvent(rowIndex, eventType, user)]. *)
Definition deleteEvent (rowIndex eventType : Val) (user : option Obj) : M S Data :=
  try_catch
    (result <- call env (Write (eventWriter_deleteEventLog rowIndex eventType)) ;;
     _invalidateEventCacheSafe ;;;
     ret result)
    (fun error => throw error).

(** [deleteEventLog(eventId, user)]. *)
Definition deleteEventLog (eventId : Val) (user : Val) : M S Data :=
  try_catch
    (logs <- call env (Read eventReader_getEventLogs) ;;
     target <- lift (find_in logs (fun l => strict_eq (get l "eventId") eventId)) ;;
     match target with
     | None => throw (Error (EventDeleteNotFound eventId))
     | Some t =>
       deleteEvent (get t "rowIndex") (get t "eventType")
         (Some (proxy_user user))
     end)
    (fun error => throw error).

End Service.

End EventLogService.

(** ** services/announcement-service.js *)

Module AnnouncementService.

Import CompanyService (prop).

Section Service.
Context {S : Type} (env : Env S).

(** [_fetchInternal()]: the SQL reader's answer as it is; the sheet
    when the SQL reader is missing or throws, once the message of
    what it threw is logged. *)
Definition _fetchInternal : M S Data :=
  fromSql <-
    try_catch
      (if has_announcementSqlReader (wiring env)
       then (d <- call env (Read announcementSqlReader_getAnnouncements) ;;
             ret (Some d))
       else ret None)
      (logged (ret None)) ;;
  match fromSql with
  | Some d => ret d
  | None => call env (Read announcementReader_getAnnouncements)
  end.

(** [user.displayName || user.username || user.name || 'System']. *)
Definition modifierName_of (user : Data) : Res Val :=
  match prop user "displayName", prop user "username", prop user "name" with
  | Ok dn, Ok un, Ok n => Ok (dn ||| un ||| n ||| VStr (js "System"))
  | Throw e, _, _ | _, Throw e, _ | _, _, Throw e => Throw e
  end.

(** [allAnnouncements.find(a => a.id === id)]. *)
Definition find_by_id (all : Data) (id : Val) : Res (option Obj) :=
  match as_array all with
  | Ok l => Ok (List.find (fun a => strict_eq (get a "id") id) l)
  | Throw e => Throw e
  end.

(** [updateAnnouncement(id, data, user)]. *)
Definition updateAnnouncement (id : Val) (data : Obj) (user : Data) : M S Data :=
  try_catch
    (modifierName <- lift (modifierName_of user) ;;
     allAnnouncements <- _fetchInternal ;;
     target <- lift (find_by_id allAnnouncements id) ;;
     match target with
     | None => throw (Error (AnnouncementNotFound id))
     | Some t =>
       if negb (truthy (get t "rowIndex"))
       then throw (Error ForbiddenUpdate)
       else
         let rowIndex := get t "rowIndex" in
         result <- call env
           (Write (announcementWriter_updateAnnouncement rowIndex data modifierName)) ;;
         ret result
     end)
    (fun error => throw error).

(** [deleteAnnouncement(id)]. *)
Definition deleteAnnouncement (id : Val) : M S Data :=
  try_catch
    (allAnnouncements <- _fetchInternal ;;
     target <- lift (find_by_id allAnnouncements id) ;;
     match target with
     | None => throw (Error (AnnouncementNotFound id))
     | Some t =>
       if negb (truthy (get t "rowIndex"))
       then throw (Error ForbiddenDelete)
       else
         let rowIndex := get t "rowIndex" in
         result <- call env (Write (announcementWriter_deleteAnnouncement rowIndex)) ;;
         ret result
     end)
    (fun error => throw error).

End Service.

End AnnouncementService.

(** ** services/opportunity-service.js *)

Module OpportunityService.

Import CompanyService (prop).

(** [String(v)]. *)
Definition to_String (v : Val) : JsString.t :=
  match v with
  | VUndef => js "undefined"
  | VNull => js "null"
  | VBool true => js "true"
  | VBool false => js "false"
  | VNum z => js (pretty z)
  | VNaN => js "NaN"
  | VStr s => s
  end.

(** [safeGet(obj, keys)]: the first property that is neither
    [undefined], [null] nor the empty string. *)
Fixpoint safeGet (obj : Obj) (keys : list string) : Val :=
  match keys with
  | [] => VUndef
  | k :: r =>
    match get obj k with
    | VUndef | VNull | VStr [] => safeGet obj r
    | v => v
    end
  end.

(** [normalizeStr(v)]. *)
Definition normalizeStr (v : Val) : JsString.t :=
  match v with
  | VUndef | VNull => []
  | _ => JsString.trim (to_String v)
  end.

Definition nonempty (s : JsString.t) : bool :=
  match s with [] => false | _ => true end.

(** The [filter] callback over the link table in [getOpportunityDetails]. *)
Definition link_selected (opportunityId : Val) (link : Obj) : bool :=
  let linkOppId :=
    normalizeStr (safeGet link ["opportunityId"; "oppId"; "opportunity_id"]) in
  if negb (nonempty linkOppId) then false
  else
    let statusVal :=
      JsString.toLowerCase
        (normalizeStr (safeGet link ["status"; "linkStatus"; "state"])) in
    let isActive :=
      negb (nonempty statusVal) || bool_decide (statusVal = js "active") in
    bool_decide (linkOppId = normalizeStr opportunityId) && isActive.

(** The [map] callback: the official contact of the link, with its
    [linkId], or [null]. *)
Definition link_contact (allOfficialContacts : list Obj) (link : Obj) : option Obj :=
  let linkContactId :=
    normalizeStr (safeGet link ["contactId"; "id"; "contact_id"]) in
  if negb (nonempty linkContactId) then None
  else
    match List.find
            (fun c => bool_decide (normalizeStr (get c "contactId") = linkContactId))
            allOfficialContacts with
    | None => None
    | Some contact =>
      let linkId := safeGet link ["linkId"; "id"; "rowId"; "rowIndex"] in
      Some (<[ "linkId" := linkId ]> contact)
    end.

(** [linkedContactsFromCache] of [getOpportunityDetails]:
    [allLinks.filter(...).map(...).filter(Boolean)]. *)
Definition linkedContactsFromCache (allLinks allOfficialContacts : list Obj)
    (opportunityId : Val) : list Obj :=
  omap (link_contact allOfficialContacts)
       (List.filter (link_selected opportunityId) allLinks).

Section Service.
Context {S : Type} (env : Env S).
(** [parseInt] is the host's. *)
Context (parseInt : Val -> Val).
(** The text of the audit entry of an update, from the system
    configuration, the original row and the update: [None] when
    [logs] is empty, the joined lines otherwise. *)
Context (changeLog : Data -> Obj -> Obj -> Res (option JsString.t)).
(** The text of the audit entry of a deletion. *)
Context (deletionNotice : Obj -> Val -> JsString.t).

(** [_fetchOpportunities(forceSheet = false)]. *)
Definition _fetchOpportunities (forceSheet : bool) : M S Data :=
  opportunities <-
    (if negb forceSheet && has_opportunitySqlReader (wiring env) then
       try_catch
         (sqlData <- call env (Read opportunitySqlReader_getOpportunities) ;;
          match sqlData with
          | DList (_ :: _) => ret (Some sqlData)
          | _ => ret None
          end)
         (logged (ret None))
     else ret None) ;;
  match opportunities with
  | Some d => ret d
  | None =>
    try_catch (call env (Read opportunityReader_getOpportunities))
              (fun error => throw error)
  end.

(** [_logOpportunityInteraction]: the message of a failure is logged,
    and the failure is not passed on. *)
Definition _logOpportunityInteraction (opportunityId : Val)
    (title summary : JsString.t) (modifier : Val) : M S unit :=
  try_catch
    (t <- call env (Host now_iso) ;;
     call env (Write (interactionWriter_createInteraction
       (<[ "opportunityId" := opportunityId ]>
       (<[ "eventType" := VStr (js "系統事件") ]>
       (<[ "eventTitle" := VStr title ]>
       (<[ "contentSummary" := VStr summary ]>
       (<[ "recorder" := modifier ]>
       (<[ "interactionTime" := CompanyService.val_of t ]> ∅)))))))) ;;;
     ret tt)
    (logged (ret tt)).

Definition invalidate_opportunities : M S unit :=
  if has_opportunityReader_invalidateCache (wiring env)
  then (call env (Invalidate opportunityReader (js "opportunities")) ;;; ret tt)
  else ret tt.

(** [opportunities.find(o => o.rowIndex === parseInt(rowIndex))]. *)
Definition find_row (opportunities : Data) (rowIndex : Val) : Res (option Obj) :=
  match as_array opportunities with
  | Ok l => Ok (List.find (fun o => strict_eq (get o "rowIndex") (parseInt rowIndex)) l)
  | Throw e => Throw e
  end.

(** [updateOpportunity(rowIndex, updateData, user)]. *)
Definition updateOpportunity (rowIndex : Val) (updateData : Obj)
    (user : Data) : M S Data :=
  try_catch
    (modifier <- lift (CompanyService_v7_7.modifier_of user) ;;
     opportunities <- _fetchOpportunities true ;;
     originalOpportunity <- lift (find_row opportunities rowIndex) ;;
     match originalOpportunity with
     | None => throw (Error (OpportunityUpdateNotFound rowIndex))
     | Some original =>
       let opportunityId := get original "opportunityId" in
       systemConfig <- call env (Read systemReader_getSystemConfig) ;;
       logs <- lift (changeLog systemConfig original updateData) ;;
       updateResult <- call env
         (Write (opportunityWriter_updateOpportunity rowIndex updateData modifier)) ;;
       invalidate_opportunities ;;;
       match logs with
       | Some text =>
         _logOpportunityInteraction opportunityId (js "機會資料更新") text modifier
       | None => ret tt
       end ;;;
       ret updateResult
     end)
    (fun error => throw error).

(** The callback of [allCompanies.find] in [deleteOpportunity]. *)
Definition same_company (opportunity c : Obj) : Res bool :=
  match get c "companyName", get opportunity "customerCompany" with
  | VStr a, VStr b =>
    Ok (bool_decide (JsString.trim (JsString.toLowerCase a)
                     = JsString.trim (JsString.toLowerCase b)))
  | _, _ => Throw TypeError
  end.

(** [deleteOpportunity(rowIndex, user)]. *)
Definition deleteOpportunity (rowIndex : Val) (user : Data) : M S Data :=
  try_catch
    (modifier <- lift (CompanyService_v7_7.modifier_of user) ;;
     opportunities <- _fetchOpportunities true ;;
     found <- lift (find_row opportunities rowIndex) ;;
     match found with
     | None => throw (Error (OpportunityDeleteNotFound rowIndex))
     | Some opportunity =>
       deleteResult <- call env
         (Write (opportunityWriter_deleteOpportunity rowIndex modifier)) ;;
       invalidate_opportunities ;;;
       ok <- lift (prop deleteResult "success") ;;
       (if truthy ok && truthy (get opportunity "customerCompany") then
          try_catch
            (allCompanies <- call env (Read companyReader_getCompanyList) ;;
             l <- lift (as_array allCompanies) ;;
             company <- lift (find_res (same_company opportunity) l) ;;
             match company with
             | Some c =>
               t <- call env (Host now_iso) ;;
               call env (Write (interactionWriter_createInteraction
                 (<[ "companyId" := get c "companyId" ]>
                 (<[ "eventType" := VStr (js "系統事件") ]>
                 (<[ "eventTitle" := VStr (js "刪除機會案件") ]>
                 (<[ "contentSummary" := VStr (deletionNotice opportunity modifier) ]>
                 (<[ "recorder" := modifier ]>
                 (<[ "interactionTime" := CompanyService.val_of t ]> ∅)))))))) ;;;
               ret tt
             | None => ret tt
             end)
            (logged (ret tt))
        else ret tt) ;;;
       ret deleteResult
     end)
    (fun error => throw error).

End Service.

End OpportunityService.

(** ** services/contact-service.js *)

Module ContactService.

Import OpportunityService (to_String).

(** [_normalizeKey(str = '')]. *)
Definition _normalizeKey (str : Val) : JsString.t :=
  match str with
  | VUndef => []
  | _ => JsString.trim (JsString.toLowerCase (to_String str))
  end.

(** [_mapSqlContact(contact)]. *)
Definition _mapSqlContact (contact : Obj) : Obj :=
  <[ "position" := get contact "jobTitle" ||| get contact "position" ]> contact.

(** [_mapOfficialContact(contact, companyNameMap)]. *)
Definition _mapOfficialContact (companyNameMap : list (Val * Val)) (contact : Obj) : Obj :=
  <[ "companyName" :=
       map_get companyNameMap (get contact "companyId") ||| get contact "companyId" ]>
    contact.

(** The loop over the link table in [getLinkedContacts]: the contact
    ids of the links of the opportunity whose status is ['active']. *)
Definition linkedContactIds (allLinks : list Obj) (opportunityId : Val) : list Val :=
  List.map (fun link => get link "contactId")
    (List.filter
       (fun link =>
          strict_eq (get link "opportunityId") opportunityId
          && strict_eq (get link "status") (VStr (js "active")))
       allLinks).

(** [linkedContactIds.has(id)]. *)
Definition has_id (ids : list Val) (id : Val) : bool :=
  existsb (same_value_zero id) ids.

Definition card_key (name company : Val) : JsString.t :=
  _normalizeKey name ++ js "|" ++ _normalizeKey company.

(** [potentialCardMap]: the first card of each key is kept. *)
Fixpoint card_lookup (allPotentialContacts : list Obj) (key : JsString.t) : Val :=
  match allPotentialContacts with
  | [] => VUndef
  | pc :: r =>
    if truthy (get pc "name") && truthy (get pc "company") && truthy (get pc "driveLink")
       && bool_decide (card_key (get pc "name") (get pc "company") = key)
    then get pc "driveLink"
    else card_lookup r key
  end.

(** The record returned for a linked contact. *)
Definition linked_view (allPotentialContacts : list Obj) (contact : Obj) : Obj :=
  let companyName := get contact "companyName" ||| VStr [] in
  let driveLink :=
    if truthy (get contact "name") && truthy companyName
    then card_lookup allPotentialContacts (card_key (get contact "name") companyName)
         ||| VStr []
    else VStr [] in
  <[ "contactId" := get contact "contactId" ]>
  (<[ "sourceId" := get contact "sourceId" ]>
  (<[ "name" := get contact "name" ]>
  (<[ "companyId" := get contact "companyId" ]>
  (<[ "department" := get contact "department" ]>
  (<[ "position" := get contact "position" ]>
  (<[ "mobile" := get contact "mobile" ]>
  (<[ "phone" := get contact "phone" ]>
  (<[ "email" := get contact "email" ]>
  (<[ "companyName" := companyName ]>
  (<[ "driveLink" := driveLink ]> ∅)))))))))).

Section Service.
Context {S : Type} (env : Env S).

(** [_fetchOfficialContactsWithCompanies(forceSheet = false)]. *)
Definition _fetchOfficialContactsWithCompanies (forceSheet : bool) : M S (list Obj) :=
  fromSql <-
    (if negb forceSheet && has_contactSqlReader (wiring env) then
       try_catch
         (sqlContacts <- call env (Read contactSqlReader_getContacts) ;;
          match sqlContacts with
          | DList (c :: l) => ret (Some (DList (List.map _mapSqlContact (c :: l))))
          | DList [] => throw (Error SqlEmpty)
          | DVal v => if truthy v then throw TypeError else throw (Error SqlEmpty)
          | DObj o =>
            if strict_eq (get o "length") (VNum 0)
            then throw (Error SqlEmpty) else throw TypeError
          end)
         (logged (ret None))
     else ret None) ;;
  allContacts <-
    match fromSql with
    | Some d => ret d
    | None =>
      if negb (has_contactCoreReader (wiring env))
      then throw (Error ContactCoreFallbackMissing)
      else call env (Read contactCoreReader_getContactList)
    end ;;
  allCompanies <- call env (Read companyReader_getCompanyList) ;;
  companies <- lift (as_array allCompanies) ;;
  let companyNameMap := EventLogService.entries "companyId" "companyName" companies in
  contacts <- lift (as_array allContacts) ;;
  ret (List.map (_mapOfficialContact companyNameMap) contacts).

(** [await Promise.all([m1, m2, m3])].  The calls of the three are
    recorded one computation after the other; the scheduler may
    interleave the later calls of an [async] member with the calls of
    the next members, which changes no result as long as reads leave
    the stores as they are. *)
Definition all3 {A B C} (m1 : M S A) (m2 : M S B) (m3 : M S C) : M S (A * B * C) :=
  all2 (all2 m1 m2) m3.

(** [getLinkedContacts(opportunityId)]. *)
Definition getLinkedContacts (opportunityId : Val) : M S (list Obj) :=
  try_catch
    (if negb (has_contactCoreReader (wiring env))
     then throw (Error ContactCoreReaderMissing)
     else if negb (has_contactRawReader (wiring env))
     then throw (Error ContactRawReaderMissing)
     else
       fetched <- all3 (call env (Read contactCoreReader_getAllOppContactLinks))
                       (_fetchOfficialContactsWithCompanies false)
                       (call env (Read contactRawReader_getContacts)) ;;
       let allLinks := fst (fst fetched) in
       let officialContacts := snd (fst fetched) in
       let allPotentialContacts := snd fetched in
       links <- lift (as_array allLinks) ;;
       let ids := linkedContactIds links opportunityId in
       match ids with
       | [] => ret []
       | _ =>
         cards <- lift (as_array allPotentialContacts) ;;
         ret (List.map (linked_view cards)
                (List.filter (fun contact => has_id ids (get contact "contactId"))
                   officialContacts))
       end)
    (fun _ => ret []).

End Service.

End ContactService.

(** ** Vocabulary of the statements *)

Module Spec.

Abbreviation sqlCompanies := (Read companySqlReader_getCompanies).
Abbreviation sheetCompanies := (Read companyReader_getCompanyList).
Abbreviation sqlEvents := (Read eventLogSqlReader_getEventLogs).
Abbreviation sheetEvents := (Read eventReader_getEventLogs).
Abbreviation sqlOpps := (Read opportunitySqlReader_getOpportunities).
Abbreviation sheetOpps := (Read opportunityReader_getOpportunities).
Abbreviation sqlAnnouncements := (Read announcementSqlReader_getAnnouncements).
Abbreviation sheetAnnouncements := (Read announcementReader_getAnnouncements).

Section Answers.
Context {S : Type} (env : Env S).

(** What an adapter answers to a call in a state, and the state it
    leaves. *)
Definition answer (c : Call) (s : S) : Res Data := fst (respond env c s).
Definition after (c : Call) (s : S) : S := snd (respond env c s).

(** The store after the calls of [t], made in turn from [s]. *)
Definition replay (s : S) (t : list Call) : S :=
  fold_left (fun st c => after c st) t s.

End Answers.

(** The answer of a SQL "get all" that the company, opportunity and
    contact readers do not accept: an exception, a value that is not
    an array, or an empty array. *)
Definition soft_failure (r : Res Data) : bool :=
  match r with
  | Ok (DList (_ :: _)) => false
  | _ => true
  end.

(** A rejection whose reason is [null] or [undefined]: a handler that
    logs [error.message] fails on it. *)
Definition nullish_rejection (r : Res Data) : bool :=
  match r with
  | Throw (Rejected VUndef) | Throw (Rejected VNull) => true
  | _ => false
  end.

(** The rows of an answer, mapped by [f]; the exception of the answer,
    or the [TypeError] of [.map] on something that is not an array. *)
Definition rows_mapped (f : Obj -> Obj) (r : Res Data) : Res (list Obj) :=
  match r with
  | Ok (DList l) => Ok (List.map f l)
  | Ok _ => Throw TypeError
  | Throw e => Throw e
  end.

(** What [getAllEvents] makes of the events of one source and of the
    answers of the two joined readers; every failure gives the empty
    list. *)
Definition events_view (events : Res Data) (opps comps : Res Data) : list Obj :=
  match events, opps, comps with
  | Ok (DList l), Ok (DList o), Ok (DList c) =>
    List.map (EventLogService.decorate
                (EventLogService.entries "opportunityId" "opportunityName" o)
                (EventLogService.entries "companyId" "companyName" c)) l
  | _, _, _ => []
  end.

(** No store-level create, update or delete in a trace. *)
Definition no_write (t : list Call) : Prop := Forall (fun c => is_write c = false) t.

(** A read method that a trace never calls. *)
Definition never_reads (r : ReadOp) (t : list Call) : Prop :=
  Forall (fun c => is_read_of r c = false) t.

(** Every write of the trace comes after a call of the read [r]. *)
Definition writes_follow (r : ReadOp) (t : list Call) : Prop :=
  forall pre w post, t = (pre ++ Write w :: post)%list -> In (Read r) pre.

(** The row-addressed writes of the company sheet. *)
Definition is_company_row_write (w : WriteOp) : bool :=
  match w with
  | companyWriter_updateCompany _ _ _ | companyWriter_deleteCompany _ => true
  | _ => false
  end.

(** Every write selected by [sel] has the read [r] as the call just
    before it. *)
Definition writes_right_after (r : ReadOp) (sel : WriteOp -> bool)
    (t : list Call) : Prop :=
  forall pre w post,
    t = (pre ++ Write w :: post)%list -> sel w = true ->
    exists pre', pre = (pre' ++ [Read r])%list.

(** Boolean forms of the three predicates, for traces that are known
    call by call. *)
Definition never_reads_b (r : ReadOp) (t : list Call) : bool :=
  forallb (fun c => negb (is_read_of r c)) t.

Fixpoint writes_follow_from (seen : bool) (r : ReadOp) (t : list Call) : bool :=
  match t with
  | [] => true
  | c :: t' =>
    if is_write c then seen && writes_follow_from seen r t'
    else writes_follow_from (seen || is_read_of r c) r t'
  end.

Definition writes_follow_b (r : ReadOp) (t : list Call) : bool :=
  writes_follow_from false r t.

Fixpoint writes_right_after_from (prev : bool) (r : ReadOp)
    (sel : WriteOp -> bool) (t : list Call) : bool :=
  match t with
  | [] => true
  | c :: t' =>
    match c with
    | Write w => (negb (sel w) || prev) && writes_right_after_from false r sel t'
    | _ => writes_right_after_from (is_read_of r c) r sel t'
    end
  end.

Definition writes_right_after_b (r : ReadOp) (sel : WriteOp -> bool)
    (t : list Call) : bool :=
  writes_right_after_from false r sel t.

End Spec.

Export Spec.

(** ** Sample rows and environments *)

Module Examples.

Definition wired_all : Wiring :=
  {| has_companySqlReader := true;
     has_companySqlWriter := true;
     has_interactionWriter_createInteraction := true;
     has_companyReader_invalidateCache := true;
     has_eventLogSqlReader := true;
     has_eventReader_invalidateCache := true;
     has_eventReader_cache := false;
     has_announcementSqlReader := true;
     has_opportunitySqlReader := true;
     has_opportunityReader_invalidateCache := true;
     has_contactSqlReader := true;
     has_contactCoreReader := true;
     has_contactRawReader := true |}.

(** An environment without state: each adapter answers from a table. *)
Definition env_of (table : Call -> Res Data) : Env unit :=
  {| respond := fun c _ => (table c, tt); wiring := wired_all |}.

Definition ok_undefined : Res Data := Ok (DVal VUndef).

(** The event of the move scenario. *)
Definition event_E1 : Obj :=
  <[ "eventId" := VStr (js "E1") ]>
  (<[ "eventType" := VStr (js "Meeting") ]>
  (<[ "rowIndex" := VNum 5 ]>
  (<[ "createdTime" := VStr (js "2026-01-01T00:00:00Z") ]> ∅))).

(** SQL has no event yet, the sheet has one. *)
Definition events_lag (c : Call) : Res Data :=
  match c with
  | Read eventLogSqlReader_getEventLogs => Ok (DList [])
  | Read eventReader_getEventLogs => Ok (DList [event_E1])
  | Read opportunityReader_getOpportunities => Ok (DList [])
  | Read companyReader_getCompanyList => Ok (DList [])
  | _ => ok_undefined
  end.

(** Both event sources fail. *)
Definition events_down (c : Call) : Res Data :=
  match c with
  | Read eventLogSqlReader_getEventLogs => Throw (Rejected (VStr (js "sql down")))
  | Read eventReader_getEventLogs => Throw (Rejected (VStr (js "sheet down")))
  | _ => Ok (DList [])
  end.

Definition company_A : Obj :=
  <[ "company_id" := VStr (js "COM1") ]>
  (<[ "company_name" := VStr (js "台灣科技股份有限公司") ]> ∅).

Definition company_B : Obj :=
  <[ "companyId" := VStr (js "COM2") ]>
  (<[ "companyName" := VStr (js "公司") ]>
  (<[ "rowIndex" := VNum 3 ]> ∅)).

(** SQL serves one company; the sheet another. *)
Definition companies_sql (c : Call) : Res Data :=
  match c with
  | Read companySqlReader_getCompanies => Ok (DList [company_A])
  | Read companyReader_getCompanyList => Ok (DList [company_B])
  | _ => ok_undefined
  end.

(** SQL has no company yet; the sheet has one. *)
Definition companies_lag (c : Call) : Res Data :=
  match c with
  | Read companySqlReader_getCompanies => Ok (DList [])
  | Read companyReader_getCompanyList => Ok (DList [company_B])
  | _ => ok_undefined
  end.

(** Both company sources fail. *)
Definition companies_down (c : Call) : Res Data :=
  match c with
  | Read companySqlReader_getCompanies => Throw (Rejected (VStr (js "sql down")))
  | Read companyReader_getCompanyList => Throw (Rejected (VStr (js "sheet down")))
  | _ => ok_undefined
  end.

Definition announcement_A1 : Obj :=
  <[ "id" := VStr (js "A1") ]> (<[ "status" := VStr (js "已發布") ]> ∅).

Definition announcement_A1_row7 : Obj := <[ "rowIndex" := VNum 7 ]> announcement_A1.

(** SQL serves an announcement without row index. *)
Definition announcements_sql (c : Call) : Res Data :=
  match c with
  | Read announcementSqlReader_getAnnouncements => Ok (DList [announcement_A1])
  | Read announcementReader_getAnnouncements => Ok (DList [announcement_A1_row7])
  | _ => ok_undefined
  end.

(** SQL serves an announcement whose [rowIndex] is [undefined]. *)
Definition announcement_A1_unaddressed : Obj :=
  <[ "rowIndex" := VUndef ]> announcement_A1.

Definition announcements_sql_unaddressed (c : Call) : Res Data :=
  match c with
  | Read announcementSqlReader_getAnnouncements =>
    Ok (DList [announcement_A1_unaddressed])
  | Read announcementReader_getAnnouncements => Ok (DList [announcement_A1_row7])
  | _ => ok_undefined
  end.

(** SQL serves an announcement that carries a row index. *)
Definition announcements_sql_indexed (c : Call) : Res Data :=
  match c with
  | Read announcementSqlReader_getAnnouncements => Ok (DList [announcement_A1_row7])
  | Read announcementReader_getAnnouncements => Ok (DList [])
  | _ => ok_undefined
  end.

(** SQL throws; the sheet serves the announcement. *)
Definition announcements_fallback (c : Call) : Res Data :=
  match c with
  | Read announcementSqlReader_getAnnouncements => Throw (Rejected (VStr (js "sql down")))
  | Read announcementReader_getAnnouncements => Ok (DList [announcement_A1_row7])
  | _ => ok_undefined
  end.

Definition event_E2 : Obj :=
  <[ "eventId" := VStr (js "E2") ]>
  (<[ "eventType" := VStr (js "Visit") ]>
  (<[ "rowIndex" := VNum 6 ]> ∅)).

(** The event sheet of the move scenario; the writers accept. *)
Definition events_sheet (c : Call) : Res Data :=
  match c with
  | Read eventReader_getEventLogs => Ok (DList [event_E1])
  | Write (eventWriter_createEventLog _ _) =>
    Ok (DObj (<[ "success" := VBool true ]> ∅))
  | _ => ok_undefined
  end.

(** The update of the move scenario. *)
Definition to_call : Obj := <[ "eventType" := VStr (js "Call") ]> ∅.

(** The same update, naming the event in the payload. *)
Definition to_call_E1 : Obj := <[ "eventId" := VStr (js "E1") ]> to_call.

Definition retitle : Obj := <[ "eventName" := VStr (js "Kick-off") ]> ∅.

(** A link of the legacy table, without status, and the same link
    marked active. *)
Definition link_legacy : Obj :=
  <[ "opportunityId" := VStr (js "OPP1") ]> (<[ "contactId" := VStr (js "C1") ]> ∅).

Definition link_active : Obj := <[ "status" := VStr (js "active") ]> link_legacy.

Definition contact_C1 : Obj :=
  <[ "contactId" := VStr (js "C1") ]>
  (<[ "name" := VStr (js "Amy Lin") ]>
  (<[ "companyId" := VStr (js "COM1") ]> ∅)).

Definition contacts_with (link : Obj) (c : Call) : Res Data :=
  match c with
  | Read contactCoreReader_getAllOppContactLinks => Ok (DList [link])
  | Read contactSqlReader_getContacts => Ok (DList [contact_C1])
  | Read contactCoreReader_getContactList => Ok (DList [contact_C1])
  | Read companyReader_getCompanyList => Ok (DList [])
  | Read contactRawReader_getContacts => Ok (DList [])
  | _ => ok_undefined
  end.

Definition user_amy : Data := DObj (<[ "displayName" := VStr (js "Amy") ]> ∅).

End Examples.

(** ** services/contact-service.js, the queries *)

Module ContactQueries.

Import ContactService.

(** [s.includes(t)]. *)
Fixpoint includes (s t : JsString.t) : bool :=
  JsString.starts_with t s
  || match s with
     | [] => false
     | _ :: r => includes r t
     end.

(** [l.slice(start, stop)]: a negative bound counts from the end, and
    both bounds are clamped to the array. *)
Definition slice {A} (l : list A) (start stop : Z) : list A :=
  let len := Z.of_nat (length l) in
  let k := if (start <? 0)%Z then Z.max (len + start) 0 else Z.min start len in
  let final := if (stop <? 0)%Z then Z.max (len + stop) 0 else Z.min stop len in
  firstn (Z.to_nat (final - k)) (skipn (Z.to_nat k) l).

(** The counters of [getDashboardStats]. *)
Record Stats := {
  total : nat;
  pending : nat;
  processed : nat;
  dropped : nat
}.

Definition is_pending (c : Obj) : bool :=
  negb (truthy (get c "status")) || strict_eq (get c "status") (VStr (js "Pending")).

Definition is_processed (c : Obj) : bool :=
  strict_eq (get c "status") (VStr (js "Processed")).

Definition is_dropped (c : Obj) : bool :=
  strict_eq (get c "status") (VStr (js "Dropped")).

(** [v && v.toLowerCase().includes(searchTerm)]: a falsy field does not
    match, a truthy field that is not a string has no [toLowerCase]. *)
Definition field_includes (v : Val) (searchTerm : JsString.t) : Res bool :=
  if negb (truthy v) then Ok false
  else
    match v with
    | VStr s => Ok (includes (JsString.toLowerCase s) searchTerm)
    | _ => Throw TypeError
    end.

(** The callback of the two searches, on the fields [name] and [other]. *)
Definition matches_term (other : string) (searchTerm : JsString.t) (c : Obj) : Res bool :=
  match field_includes (get c "name") searchTerm with
  | Throw e => Throw e
  | Ok true => Ok true
  | Ok false => field_includes (get c other) searchTerm
  end.

(** [if (query) { searchTerm = query.toLowerCase(); contacts = contacts.filter(...) }]. *)
Definition filter_by_query (other : string) (query : Val) (contacts : list Obj)
    : Res (list Obj) :=
  if negb (truthy query) then Ok contacts
  else
    match query with
    | VStr q => filter_res (matches_term other (JsString.toLowerCase q)) contacts
    | _ => Throw TypeError
    end.

(** What [searchOfficialContacts] returns. *)
Record Page := {
  data : list Obj;
  current : Z;
  totalPages : Z;
  totalItems : Z;
  hasNext : bool;
  hasPrev : bool
}.

(** The page of a list: [slice] and the [pagination] literal.
    [Math.ceil(n / pageSize)] on a count and a positive size is the
    integer quotient rounded up. *)
Definition paginate (contacts : list Obj) (page : Z) (pageSize : positive) : Page :=
  let size := Z.pos pageSize in
  let n := Z.of_nat (length contacts) in
  let startIndex := ((page - 1) * size)%Z in
  {| data := slice contacts startIndex (startIndex + size);
     current := page;
     totalPages := ((n + size - 1) / size)%Z;
     totalItems := n;
     hasNext := (startIndex + size <? n)%Z;
     hasPrev := (1 <? page)%Z |}.

Section Service.
Context {S : Type} (env : Env S).
(** [contacts.sort(...)] of [getPotentialContacts], the host's sort
    under the comparator on the creation dates. *)
Context (sortNewestFirst : list Obj -> list Obj).
(** The page size: [CONTACTS_PER_PAGE] of the configuration, 20
    without one; a positive integer. *)
Context (CONTACTS_PER_PAGE : positive).
(** [contactSqlReader.getContactById(contactId)], a row or [null]. *)
Context (sql_getContactById : Val -> M S (option Obj)).

(** [getAllOfficialContacts()]. *)
Definition getAllOfficialContacts : M S (list Obj) :=
  try_catch (_fetchOfficialContactsWithCompanies env false) (fun _ => ret []).

(** [getDashboardStats()]. *)
Definition getDashboardStats : M S Stats :=
  try_catch
    (if negb (has_contactRawReader (wiring env))
     then throw (Error ContactRawReaderMissing)
     else
       contacts <- call env (Read contactRawReader_getContacts) ;;
       l <- lift (as_array contacts) ;;
       ret {| total := length l;
              pending := length (List.filter is_pending l);
              processed := length (List.filter is_processed l);
              dropped := length (List.filter is_dropped l) |})
    (fun _ => ret {| total := 0; pending := 0; processed := 0; dropped := 0 |}).

(** [getPotentialContacts(limit)], for a limit that is an integer. *)
Definition getPotentialContacts (limit : Z) : M S (list Obj) :=
  if negb (has_contactRawReader (wiring env))
  then throw (Error ContactRawReaderMissing)
  else
    contacts <- call env (Read contactRawReader_getContacts) ;;
    l <- lift (as_array contacts) ;;
    let named :=
      List.filter (fun c => truthy (get c "name" ||| get c "company")) l in
    let sorted := sortNewestFirst named in
    ret (if (0 <? limit)%Z then slice sorted 0 limit else sorted).

(** [searchContacts(query)]; the result is the [data] of the literal. *)
Definition searchContacts (query : Val) : M S (list Obj) :=
  try_catch
    (contacts <- getPotentialContacts 9999 ;;
     lift (filter_by_query "company" query contacts))
    (fun error => throw error).

(** [searchOfficialContacts(query, page)], for a page number that is
    an integer. *)
Definition searchOfficialContacts (query : Val) (page : Z) : M S Page :=
  try_catch
    (contacts <- _fetchOfficialContactsWithCompanies env false ;;
     found <- lift (filter_by_query "companyName" query contacts) ;;
     ret (paginate found page CONTACTS_PER_PAGE))
    (fun error => throw error).

(** [getContactById(contactId)]. *)
Definition getContactById (contactId : Val) : M S (option Obj) :=
  fromSql <-
    (if has_contactSqlReader (wiring env) then
       try_catch
         (sqlContact <- sql_getContactById contactId ;;
          match sqlContact with
          | Some c =>
            allCompanies <- call env (Read companyReader_getCompanyList) ;;
            companies <- lift (as_array allCompanies) ;;
            let companyNameMap :=
              EventLogService.entries "companyId" "companyName" companies in
            ret (Some (_mapOfficialContact companyNameMap (_mapSqlContact c)))
          | None => ret None
          end)
         (logged (ret None))
     else ret None) ;;
  match fromSql with
  | Some c => ret (Some c)
  | None =>
    contacts <- _fetchOfficialContactsWithCompanies env true ;;
    ret (List.find (fun c => strict_eq (get c "contactId") contactId) contacts)
  end.

End Service.

End ContactQueries.

(** ** data/contact-sql-writer.js, the rows it writes *)

Module ContactSqlWriter.

(** [v !== undefined]. *)
Definition defined (v : Val) : bool := negb (bool_decide (v = VUndef)).

(** The row of [createContact]. *)
Definition create_payload (data : Obj) (user generatedId now : Val) : Obj :=
  let contactId := get data "contactId" ||| get data "id" ||| generatedId in
  <[ "contact_id" := contactId ]>
  (<[ "source_id" := get data "sourceId" ||| VStr (js "MANUAL") ]>
  (<[ "name" := get data "name" ]>
  (<[ "company_id" := get data "companyId" ||| get data "company" ||| VNull ]>
  (<[ "department" := get data "department" ||| VStr [] ]>
  (<[ "job_title" := get data "jobTitle" ||| get data "position" ||| VStr [] ]>
  (<[ "mobile" := get data "mobile" ||| VStr [] ]>
  (<[ "phone" := get data "phone" ||| get data "tel" ||| VStr [] ]>
  (<[ "email" := get data "email" ||| VStr [] ]>
  (<[ "created_by" := user ]>
  (<[ "updated_by" := user ]>
  (<[ "created_time" := now ]>
  (<[ "updated_time" := now ]> ∅)))))))))))).

(** [if (data.k !== undefined) payload.column = data.k]. *)
Definition copy_defined (data : Obj) (k column : string) (payload : Obj) : Obj :=
  if defined (get data k) then <[ column := get data k ]> payload else payload.

(** The row of [updateContact]: the two audit columns, then one
    assignment per field of the update that is defined, in the order of
    the source. *)
Definition update_payload (data : Obj) (user now : Val) : Obj :=
  let p0 : Obj := <[ "updated_time" := now ]> (<[ "updated_by" := user ]> ∅) in
  let p1 := copy_defined data "name" "name" p0 in
  let p2 := copy_defined data "companyId" "company_id" p1 in
  let p3 := copy_defined data "company" "company_id" p2 in
  let p4 := copy_defined data "department" "department" p3 in
  let p5 := copy_defined data "jobTitle" "job_title" p4 in
  let p6 := copy_defined data "position" "job_title" p5 in
  let p7 := copy_defined data "mobile" "mobile" p6 in
  let p8 := copy_defined data "phone" "phone" p7 in
  let p9 := copy_defined data "tel" "phone" p8 in
  copy_defined data "email" "email" p9.

End ContactSqlWriter.

(** ** services/company-service.js, the delete of version 7.8 *)

Module CompanyService_v7_8.

Import CompanyService.

Section Service.
Context {S : Type} (env : Env S).
(** [companySqlWriter.deleteCompany(companyId)]. *)
Context (sql_deleteCompany : Val -> M S Data).

(** [deleteCompany(companyName, user)]. *)
Definition deleteCompany (companyName : Val) (user : Data) : M S Data :=
  try_catch
    (companyInfo <- _getCompanyByName env companyName ;;
     match companyInfo with
     | None => throw (Error (CompanyNotFound companyName))
     | Some info =>
       opps <- call env (Read opportunityReader_getOpportunities) ;;
       l <- lift (as_array opps) ;;
       relatedOpps <- lift (filter_res (CompanyService_v7_7.opp_of_company companyName) l) ;;
       match relatedOpps with
       | o :: _ =>
         throw (Error (CompanyHasOpportunities (length relatedOpps)
                         (get o "opportunityName")))
       | [] =>
         if negb (has_companySqlWriter (wiring env)) then throw TypeError
         else
           result <- sql_deleteCompany (get info "companyId") ;;
           invalidate_companyList env ;;;
           ret result
       end
     end)
    (fun error => throw error).

End Service.

End CompanyService_v7_8.

(** ** services/opportunity-service.js, the job title of the main contact *)

Module OpportunityDetails.

Import OpportunityService.

(** The callback of [allPotentialContacts.filter] in
    [getOpportunityDetails]; [_normalizeCompanyName] of this service
    has the text of the company service's. *)
Definition same_company_card (normalizedOppCompany : JsString.t) (pc : Obj) : Res bool :=
  match CompanyService._normalizeCompanyName (get pc "company") with
  | Ok normalizedPcCompany =>
    Ok (nonempty normalizedPcCompany && nonempty normalizedOppCompany
        && bool_decide (normalizedPcCompany = normalizedOppCompany))
  | Throw e => Throw e
  end.

(** [c => c.name === targetName]. *)
Definition name_is (targetName : JsString.t) (c : Obj) : bool :=
  strict_eq (get c "name") (VStr targetName).

(** The callback of the last search:
    [pc.name === targetName && _normalizeCompanyName(pc.company) === normalizedOppCompany]. *)
Definition fallback_card (normalizedOppCompany targetName : JsString.t)
    (pc : Obj) : Res bool :=
  if name_is targetName pc then
    match CompanyService._normalizeCompanyName (get pc "company") with
    | Ok n => Ok (bool_decide (n = normalizedOppCompany))
    | Throw e => Throw e
    end
  else Ok false.

(** [match && match.position], as the title it gives. *)
Definition position_of (m : option Obj) : option Val :=
  match m with
  | Some c => if truthy (get c "position") then Some (get c "position") else None
  | None => None
  end.

(** [(opportunityInfo.mainContact || '').trim()]. *)
Definition targetName_of (opportunityInfo : Obj) : Res JsString.t :=
  match get opportunityInfo "mainContact" ||| VStr [] with
  | VStr s => Ok (JsString.trim s)
  | _ => Throw TypeError
  end.

(** The value assigned to [opportunityInfo.mainContactJobTitle]: the
    linked contacts first, then the potential contacts of the same
    company, then all potential contacts. *)
Definition mainContactJobTitle (opportunityInfo : Obj)
    (linkedContactsFromCache potentialContacts allPotentialContacts : list Obj)
    (normalizedOppCompany : JsString.t) : Res Val :=
  match targetName_of opportunityInfo with
  | Throw e => Throw e
  | Ok targetName =>
    if nonempty targetName then
      match position_of (List.find (name_is targetName) linkedContactsFromCache) with
      | Some title => Ok title
      | None =>
        match position_of (List.find (name_is targetName) potentialContacts) with
        | Some title => Ok title
        | None =>
          match find_res (fallback_card normalizedOppCompany targetName)
                  allPotentialContacts with
          | Throw e => Throw e
          | Ok fallbackMatch => Ok (default (VStr []) (position_of fallbackMatch))
          end
        end
      end
    else Ok (VStr [])
  end.

End OpportunityDetails.

(** ** controllers/company.controller.js, the create handler *)

Module CompanyController.

(** What the handler does with [res]. *)
Inductive Response :=
| Status400 (error : JsString.t)
  (* res.status(400).json({ success: false, error }) *)
| Json (result : CompanyService.CreateResult)
  (* res.json(result) *)
| ApiError (error : Exn).
  (* handleApiError(res, error, 'Create Company') *)

Section Handlers.
Context {S : Type} (env : Env S).

(** [createCompany(req, res)], on [req.body] and [req.user]. *)
Definition createCompany (body : Obj) (user : Data) : M S Response :=
  try_catch
    (let companyName := get body "companyName" in
     if negb (truthy companyName)
     then ret (Status400 (js "Company name is required"))
     else
       result <- CompanyService.createCompany env companyName (Some body) user ;;
       ret (Json result))
    (fun error => ret (ApiError error)).

End Handlers.

End CompanyController.

(** ** services/announcement-service.js, the list *)

Module AnnouncementQueries.

Import AnnouncementService.

(** [item => item.status === '已發布']. *)
Definition published (item : Obj) : bool :=
  strict_eq (get item "status") (VStr (js "已發布")).

Section Service.
Context {S : Type} (env : Env S).
(** [data.sort(...)], the host's sort under the comparator of the
    source: pinned first, then the later update first. *)
Context (sortPinnedFirst : list Obj -> list Obj).

(** [getAnnouncements()]. *)
Definition getAnnouncements : M S (list Obj) :=
  try_catch
    (data <- _fetchInternal env ;;
     l <- lift (as_array data) ;;
     ret (sortPinnedFirst (List.filter published l)))
    (fun error => throw error).

End Service.

End AnnouncementQueries.

(** ** services/company-service.js, the details of a company *)

Module CompanyDetails.

Import CompanyService.

(** What [getCompanyDetails] returns. *)
Record Details := {
  companyInfo : option Obj;
  contacts : list Obj;
  opportunities : list Obj;
  potentialContacts : list Obj;
  interactions : list Obj;
  eventLogs : list Obj
}.

(** The literal returned for a company that is not there. *)
Definition no_details : Details :=
  {| companyInfo := None; contacts := []; opportunities := [];
     potentialContacts := []; interactions := []; eventLogs := [] |}.

(** [x => this._normalizeCompanyName(x[field]) === normalizedTarget]. *)
Definition field_matches (field : string) (normalizedTarget : JsString.t)
    (x : Obj) : Res bool :=
  match _normalizeCompanyName (get x field) with
  | Ok n => Ok (bool_decide (n = normalizedTarget))
  | Throw e => Throw e
  end.

(** [x => x.companyId === companyId ||
          (x.opportunityId && relatedOppIds.has(x.opportunityId))]. *)
Definition related (companyId : Val) (relatedOppIds : list Val) (x : Obj) : bool :=
  strict_eq (get x "companyId") companyId
  || (truthy (get x "opportunityId")
      && ContactService.has_id relatedOppIds (get x "opportunityId")).

Section Service.
Context {S : Type} (env : Env S).
(** The two [sort] calls, the host's sort under the comparators on
    the dates of the interactions and of the event logs. *)
Context (sortInteractions sortEventLogs : list Obj -> list Obj).

(** [getCompanyDetails(companyName)]; [getContacts(3000)] is recorded
    as the call of the method. *)
Definition getCompanyDetails (companyName : Val) : M S Details :=
  try_catch
    (fetched <-
       all2 (all2 (all2 (all2 (all2 (_getAllCompanies env)
                                    (call env (Read contactReader_getContactList)))
                              (call env (Read opportunityReader_getOpportunities)))
                        (call env (Read interactionReader_getInteractions)))
                  (call env (Read eventReader_getEventLogs)))
            (call env (Read contactReader_getContacts)) ;;
     let allCompanies := fst (fst (fst (fst (fst fetched)))) in
     let allContacts := snd (fst (fst (fst (fst fetched)))) in
     let allOpportunities := snd (fst (fst (fst fetched))) in
     let allInteractions := snd (fst (fst fetched)) in
     let allEventLogs := snd (fst fetched) in
     let allPotentialContacts := snd fetched in
     normalizedTarget <- lift (_normalizeCompanyName companyName) ;;
     found <- lift (find_res (name_matches normalizedTarget) allCompanies) ;;
     match found with
     | None => ret no_details
     | Some info =>
       let companyId := get info "companyId" in
       cs <- lift (as_array allContacts) ;;
       os <- lift (as_array allOpportunities) ;;
       related_opps <- lift (filter_res (field_matches "customerCompany" normalizedTarget) os) ;;
       let relatedOppIds := List.map (fun o => get o "opportunityId") related_opps in
       its <- lift (as_array allInteractions) ;;
       es <- lift (as_array allEventLogs) ;;
       ps <- lift (as_array allPotentialContacts) ;;
       cards <- lift (filter_res (field_matches "company" normalizedTarget) ps) ;;
       ret {| companyInfo := Some info;
              contacts := List.filter (fun c => strict_eq (get c "companyId") companyId) cs;
              opportunities := related_opps;
              potentialContacts := cards;
              interactions := sortInteractions (List.filter (related companyId relatedOppIds) its);
              eventLogs := sortEventLogs (List.filter (related companyId relatedOppIds) es) |}
     end)
    (fun error => throw error).

End Service.

End CompanyDetails.

(** ** More vocabulary and samples *)

Module SpecExt.

(** The text fields of a company DTO. *)
Definition dto_text_fields : list string :=
  ["companyId"; "companyName"; "phone"; "address"; "county"; "introduction";
   "companyType"; "customerStage"; "engagementRating"; "createdTime";
   "lastUpdateTime"; "creator"; "lastModifier"].

(** A call that refreshes a cache. *)
Definition is_invalidation (c : Call) : bool :=
  match c with
  | Invalidate _ _ | ResetCache _ => true
  | _ => false
  end.

Definition no_invalidation (t : list Call) : Prop :=
  Forall (fun c => is_invalidation c = false) t.

(** The writes of a trace, in order. *)
Definition writes_of (t : list Call) : list WriteOp :=
  omap (fun c => match c with Write w => Some w | _ => None end) t.

End SpecExt.

Export SpecExt.

Module Scenarios.

Import Examples.

Definition company_COM1 : Obj :=
  <[ "companyId" := VStr (js "COM1") ]>
  (<[ "companyName" := VStr (js "台灣科技") ]> ∅).

(** SQL has no contact yet; the core sheet has one. *)
Definition contacts_lag (c : Call) : Res Data :=
  match c with
  | Read contactSqlReader_getContacts => Ok (DList [])
  | Read contactCoreReader_getContactList => Ok (DList [contact_C1])
  | Read companyReader_getCompanyList => Ok (DList [company_COM1])
  | _ => ok_undefined
  end.

Definition opportunity_O1 : Obj :=
  <[ "opportunityId" := VStr (js "OPP1") ]>
  (<[ "opportunityName" := VStr (js "導入案") ]>
  (<[ "customerCompany" := VStr (js "台灣科技") ]>
  (<[ "rowIndex" := VNum 4 ]> ∅))).

(** One company, of which one opportunity is a customer. *)
Definition company_with_opportunity (c : Call) : Res Data :=
  match c with
  | Read companySqlReader_getCompanies => Ok (DList [company_A])
  | Read companyReader_getCompanyList => Ok (DList [<[ "rowIndex" := VNum 2 ]> company_COM1])
  | Read opportunityReader_getOpportunities => Ok (DList [opportunity_O1])
  | _ => ok_undefined
  end.

(** One company, of which no opportunity is a customer. *)
Definition company_without_opportunity (c : Call) : Res Data :=
  match c with
  | Read companySqlReader_getCompanies => Ok (DList [company_A])
  | Read opportunityReader_getOpportunities => Ok (DList [])
  | _ => ok_undefined
  end.

(** Data of a create request that carries a name of its own, and the
    row written for the request of the name 新創 when the host
    answers no id. *)
Definition renamed : Obj := <[ "companyName" := VStr (js "別名") ]> ∅.

Definition row_written : Obj :=
  renamed ∪ <[ "companyId" := VUndef ]> (<[ "companyName" := VStr (js "新創") ]> ∅).

(** The wiring of a service that was given no SQL writer. *)
Definition wired_without_sql_writer : Wiring :=
  {| has_companySqlReader := true;
     has_companySqlWriter := false;
     has_interactionWriter_createInteraction := true;
     has_companyReader_invalidateCache := true;
     has_eventLogSqlReader := true;
     has_eventReader_invalidateCache := true;
     has_eventReader_cache := false;
     has_announcementSqlReader := true;
     has_opportunitySqlReader := true;
     has_opportunityReader_invalidateCache := true;
     has_contactSqlReader := true;
     has_contactCoreReader := true;
     has_contactRawReader := true |}.

Definition env_without_sql_writer (table : Call -> Res Data) : Env unit :=
  {| respond := fun c _ => (table c, tt); wiring := wired_without_sql_writer |}.

(** The store's delete, as a call that leaves a mark in the state. *)
Definition mark_delete (companyId : Val) : M (list Val) Data :=
  fun w => (Ok (DObj (<[ "success" := VBool true ]> ∅)),
            {| store := companyId :: store w; trace := trace w |}).

(** An environment whose state is the list of the deleted ids. *)
Definition env_marks (table : Call -> Res Data) : Env (list Val) :=
  {| respond := fun c s => (table c, s); wiring := wired_all |}.

(** The event sheet of the move scenario; the delete is accepted, the
    create is refused. *)
Definition events_create_fails (c : Call) : Res Data :=
  match c with
  | Read eventReader_getEventLogs => Ok (DList [event_E1])
  | Write (eventWriter_createEventLog _ _) => Throw (Rejected (VStr (js "quota")))
  | _ => ok_undefined
  end.

(** The event sheet; refreshing the cache throws. *)
Definition events_cache_broken (c : Call) : Res Data :=
  match c with
  | Read eventReader_getEventLogs => Ok (DList [event_E1])
  | Invalidate _ _ => Throw TypeError
  | _ => Ok (DObj (<[ "success" := VBool true ]> ∅))
  end.

(** The opportunity sheet holds one row; the store accepts the update
    and the delete, the interaction writer is down. *)
Definition opportunities_log_down (c : Call) : Res Data :=
  match c with
  | Read opportunityReader_getOpportunities => Ok (DList [opportunity_O1])
  | Read companyReader_getCompanyList =>
    Ok (DList [<[ "companyName" := VStr (js "台灣科技") ]> ∅])
  | Write (interactionWriter_createInteraction _) =>
    Throw (Rejected (VStr (js "log down")))
  | _ => Ok (DObj (<[ "success" := VBool true ]> ∅))
  end.

(** The audit text of the scenarios. *)
Definition one_line (_ : Data) (_ _ : Obj) : Res (option JsString.t) :=
  Ok (Some (js "stage")).

Definition notice (_ : Obj) (_ : Val) : JsString.t := js "deleted".

(** The audit text of an update that changes the stage and nothing
    else, under a configuration that names no stage: the first of the
    four checks of [updateOpportunity]. *)
Definition stage_log (_ : Data) (original updateData : Obj)
    : Res (option JsString.t) :=
  let newStage := get updateData "currentStage" in
  let oldStage := get original "currentStage" in
  if truthy newStage && truthy oldStage && negb (strict_eq newStage oldStage)
  then Ok (Some (js "階段從【" ++ OpportunityService.to_String oldStage
                 ++ js "】更新為【" ++ OpportunityService.to_String newStage
                 ++ js "】"))
  else Ok None.

(** The opportunity of the sheet is at a stage; the store accepts the
    update and the delete, the interaction writer is down. *)
Definition opportunity_O1_lead : Obj :=
  <[ "currentStage" := VStr (js "Lead") ]> opportunity_O1.

Definition opportunities_audit_down (c : Call) : Res Data :=
  match c with
  | Read opportunityReader_getOpportunities => Ok (DList [opportunity_O1_lead])
  | Read companyReader_getCompanyList =>
    Ok (DList [<[ "companyName" := VStr (js "台灣科技") ]> ∅])
  | Write (interactionWriter_createInteraction _) =>
    Throw (Rejected (VStr (js "log down")))
  | _ => Ok (DObj (<[ "success" := VBool true ]> ∅))
  end.

(** [parseInt] on the numbers of the scenarios. *)
Definition parseInt_num (v : Val) : Val :=
  match v with VNum z => VNum z | _ => VNaN end.

Definition restage : Obj := <[ "currentStage" := VStr (js "Won") ]> ∅.

Definition contact_C2 : Obj :=
  <[ "contactId" := VStr (js "C2") ]>
  (<[ "name" := VStr (js "Bob Wu") ]>
  (<[ "companyId" := VStr (js "COM2") ]> ∅)).

Definition card (status : Val) : Obj :=
  <[ "name" := VStr (js "Amy Lin") ]> (<[ "status" := status ]> ∅).

(** The raw reader serves three cards, one of each class, and one
    card without name. *)
Definition raw_contacts (c : Call) : Res Data :=
  match c with
  | Read contactRawReader_getContacts =>
    Ok (DList [card VUndef; card (VStr (js "Processed")); card (VStr (js "Dropped"));
               <[ "status" := VStr (js "Pending") ]> ∅])
  | _ => ok_undefined
  end.

(** A contact request that names its company twice. *)
Definition two_companies : Obj :=
  <[ "name" := VStr (js "Amy Lin") ]>
  (<[ "companyId" := VStr (js "COM1") ]>
  (<[ "company" := VStr (js "COM2") ]> ∅)).

Definition opportunity_of_amy : Obj :=
  <[ "opportunityId" := VStr (js "OPP1") ]>
  (<[ "mainContact" := VStr (js " Amy Lin ") ]>
  (<[ "customerCompany" := VStr (js "台灣科技股份有限公司") ]> ∅)).

Definition card_amy : Obj :=
  <[ "name" := VStr (js "Amy Lin") ]>
  (<[ "company" := VStr (js "台灣科技") ]>
  (<[ "position" := VStr (js "CTO") ]> ∅)).

Definition card_other : Obj :=
  <[ "name" := VStr (js "Amy Lin") ]>
  (<[ "company" := VStr (js "別家公司") ]>
  (<[ "position" := VStr (js "CEO") ]> ∅)).

(** One company in SQL, one opportunity of it; the other tables are
    empty. *)
Definition details_tables (c : Call) : Res Data :=
  match c with
  | Read companySqlReader_getCompanies => Ok (DList [company_A])
  | Read opportunityReader_getOpportunities => Ok (DList [opportunity_O1])
  | _ => Ok (DList [])
  end.

End Scenarios.

Export Scenarios.

(** * Properties *)

(** ** Strings *)

Section StringFacts.

Import JsString.

Lemma lower_unit_idem c : lower_unit (lower_unit c) = lower_unit c.
Proof.
  unfold lower_unit.
  repeat match goal with
         | |- context [if ?b then _ else _] => destruct b eqn:?
         end; try reflexivity;
    repeat match goal with
           | H : (_ && _)%bool = true |- _ => apply andb_prop in H; destruct H
           | H : (_ && _)%bool = false |- _ => apply andb_false_iff in H
           | H : negb _ = true |- _ => apply negb_true_iff in H
           | H : negb _ = false |- _ => apply negb_false_iff in H
           | H : (_ <=? _)%N = true |- _ => apply N.leb_le in H
           | H : (_ <=? _)%N = false |- _ => apply N.leb_gt in H
           | H : (_ =? _)%N = true |- _ => apply N.eqb_eq in H
           | H : (_ =? _)%N = false |- _ => apply N.eqb_neq in H
           | H : _ \/ _ |- _ => destruct H
           end; lia.
Qed.

Lemma Forall_trimStart (P : N -> Prop) s : Forall P s -> Forall P (trimStart s).
Proof.
  induction 1 as [|c r Hc Hr IH]; simpl; [constructor|].
  destruct (is_space c); [exact IH | constructor; assumption].
Qed.

Lemma Forall_trimEnd (P : N -> Prop) s : Forall P s -> Forall P (trimEnd s).
Proof.
  induction 1 as [|c r Hc Hr IH]; simpl; [constructor|].
  destruct (trimEnd r) as [|d r'].
  - destruct (is_space c); repeat constructor; assumption.
  - constructor; assumption.
Qed.

Lemma Forall_trim (P : N -> Prop) s : Forall P s -> Forall P (trim s).
Proof. intros H. apply Forall_trimEnd, Forall_trimStart, H. Qed.

Lemma Forall_removeSuffixes_from (P : N -> Prop) s :
  Forall P s -> forall k, Forall P (removeSuffixes_from k s).
Proof.
  induction 1 as [|c r Hc Hr IH]; intros k; simpl; [constructor|].
  destruct k as [|k]; [|apply IH].
  destruct (suffix_match (c :: r)); [apply IH | constructor; [assumption | apply IH]].
Qed.

Lemma Forall_removeParens_from (P : N -> Prop) s :
  Forall P s -> forall k, Forall P (removeParens_from k s).
Proof.
  induction 1 as [|c r Hc Hr IH]; intros k; simpl; [constructor|].
  destruct k as [|k]; [|apply IH].
  destruct (c =? 40)%N.
  - destruct (close_len r); [apply IH | constructor; [assumption | apply IH]].
  - constructor; [assumption | apply IH].
Qed.

Lemma Forall_normalizeName (P : N -> Prop) s :
  Forall P (toLowerCase s) -> Forall P (normalizeName s).
Proof.
  intros H. unfold normalizeName, removeParens, removeSuffixes.
  apply Forall_trim, Forall_removeParens_from, Forall_removeSuffixes_from,
    Forall_trim, H.
Qed.

Lemma toLowerCase_fixed s :
  Forall (fun c => lower_unit c = c) s -> toLowerCase s = s.
Proof.
  unfold toLowerCase.
  induction 1 as [|c r Hc Hr IH]; simpl; [reflexivity|].
  rewrite Hc, IH. reflexivity.
Qed.

Lemma toLowerCase_lowered s : Forall (fun c => lower_unit c = c) (toLowerCase s).
Proof.
  unfold toLowerCase.
  induction s as [|c r IH]; simpl; constructor; [apply lower_unit_idem | exact IH].
Qed.

Lemma trimStart_head_ok s : head_ok (trimStart s).
Proof.
  induction s as [|c r IH]; simpl; [exact I|].
  destruct (is_space c) eqn:E; [exact IH | exact E].
Qed.

Lemma trimStart_fixed s : head_ok s -> trimStart s = s.
Proof. destruct s as [|c r]; simpl; [reflexivity|]. intros ->. reflexivity. Qed.

Lemma trimEnd_head_ok s : head_ok s -> head_ok (trimEnd s).
Proof.
  destruct s as [|c r]; simpl; [exact id|]. intros E.
  destruct (trimEnd r); [rewrite E|]; exact E.
Qed.

Lemma trimEnd_idem s : trimEnd (trimEnd s) = trimEnd s.
Proof.
  induction s as [|c r IH]; simpl; [reflexivity|].
  destruct (trimEnd r) as [|d r'] eqn:E.
  - destruct (is_space c) eqn:Ec; simpl; [reflexivity | rewrite Ec; reflexivity].
  - simpl in IH |- *. destruct (trimEnd r'); rewrite IH; reflexivity.
Qed.

Lemma trim_idem s : trim (trim s) = trim s.
Proof.
  unfold trim.
  rewrite (trimStart_fixed (trimEnd (trimStart s))).
  - apply trimEnd_idem.
  - apply trimEnd_head_ok, trimStart_head_ok.
Qed.

Lemma is_space_bound c :
  is_space c = true ->
  ~ (65 <= c <= 90)%N /\ ~ (192 <= c <= 222)%N
  /\ ~ (97 <= c <= 122)%N /\ ~ (224 <= c <= 254)%N.
Proof.
  unfold is_space, is_line_terminator. intros H.
  repeat match type of H with
         | (_ || _)%bool = true => apply orb_prop in H; destruct H as [H|H]
         end;
    repeat match goal with
           | H : (_ && _)%bool = true |- _ => apply andb_prop in H; destruct H
           | H : (_ =? _)%N = true |- _ => apply N.eqb_eq in H
           | H : (_ <=? _)%N = true |- _ => apply N.leb_le in H
           end; lia.
Qed.

Lemma lower_unit_cases c :
  lower_unit c = c
  \/ (lower_unit c = (c + 32)%N /\ ((65 <= c <= 90)%N \/ (192 <= c <= 222)%N)).
Proof.
  unfold lower_unit.
  destruct ((65 <=? c) && (c <=? 90))%N eqn:E1.
  - right. apply andb_prop in E1 as [H1 H2].
    apply N.leb_le in H1. apply N.leb_le in H2. split; [reflexivity | lia].
  - destruct ((192 <=? c) && (c <=? 222) && negb (c =? 215))%N eqn:E2; [|left; reflexivity].
    right. apply andb_prop in E2 as [E2 _]. apply andb_prop in E2 as [H1 H2].
    apply N.leb_le in H1. apply N.leb_le in H2. split; [reflexivity | lia].
Qed.

(** Lowering a code unit neither makes nor removes a blank. *)
Lemma is_space_lower c : is_space (lower_unit c) = is_space c.
Proof.
  destruct (lower_unit_cases c) as [->|[E Hc]]; [reflexivity|].
  rewrite E.
  destruct (is_space c) eqn:Es.
  - apply is_space_bound in Es. lia.
  - destruct (is_space (c + 32)) eqn:Es'; [|reflexivity].
    apply is_space_bound in Es'. lia.
Qed.

Lemma trimStart_lower s : trimStart (toLowerCase s) = toLowerCase (trimStart s).
Proof.
  unfold toLowerCase. induction s as [|c r IH]; simpl; [reflexivity|].
  rewrite is_space_lower. destruct (is_space c); [exact IH | reflexivity].
Qed.

Lemma trimEnd_lower s : trimEnd (toLowerCase s) = toLowerCase (trimEnd s).
Proof.
  unfold toLowerCase. induction s as [|c r IH]; simpl; [reflexivity|].
  rewrite IH, is_space_lower.
  destruct (trimEnd r); simpl; [destruct (is_space c)|]; reflexivity.
Qed.

Lemma trim_lower s : trim (toLowerCase s) = toLowerCase (trim s).
Proof. unfold trim. rewrite trimStart_lower, trimEnd_lower. reflexivity. Qed.

Lemma toLowerCase_idem s : toLowerCase (toLowerCase s) = toLowerCase s.
Proof. apply toLowerCase_fixed, toLowerCase_lowered. Qed.

Lemma length_trimStart s : length (trimStart s) <= length s.
Proof.
  induction s as [|c r IH]; simpl; [lia|].
  destruct (is_space c); simpl; lia.
Qed.

Lemma length_trimEnd s : length (trimEnd s) <= length s.
Proof.
  induction s as [|c r IH]; simpl; [lia|].
  destruct (trimEnd r); [destruct (is_space c)|]; simpl in *; lia.
Qed.

Lemma length_removeSuffixes_from s : forall k, length (removeSuffixes_from k s) <= length s.
Proof.
  induction s as [|c r IH]; intros k; simpl; [lia|].
  destruct k as [|k]; [|specialize (IH k); lia].
  destruct (suffix_match (c :: r)) as [n|];
    [specialize (IH (pred n)) | specialize (IH 0); simpl]; lia.
Qed.

Lemma length_removeParens_from s : forall k, length (removeParens_from k s) <= length s.
Proof.
  induction s as [|c r IH]; intros k; simpl; [lia|].
  destruct k as [|k]; [|specialize (IH k); lia].
  destruct (c =? 40)%N; [destruct (close_len r) as [n|]|];
    [specialize (IH n) | specialize (IH 0); simpl | specialize (IH 0); simpl]; lia.
Qed.

Lemma length_trim s : length (trim s) <= length s.
Proof.
  unfold trim.
  pose proof (length_trimEnd (trimStart s)). pose proof (length_trimStart s). lia.
Qed.

(** Plain strings stay plain. *)
Lemma plain_unit_lower c : plain_unit c = true -> plain_unit (lower_unit c) = true.
Proof.
  destruct (lower_unit_cases c) as [->|[-> Hc]]; [exact id|].
  intros _. unfold plain_unit.
  replace (c + 32 <? 256)%N with true by (symmetry; apply N.ltb_lt; lia).
  reflexivity.
Qed.

Lemma plain_Forall s : plain s = true <-> Forall (fun c => plain_unit c = true) s.
Proof.
  unfold plain. rewrite List.forallb_forall, List.Forall_forall. reflexivity.
Qed.

Lemma plain_toLowerCase s : plain s = true -> plain (toLowerCase s) = true.
Proof.
  rewrite !plain_Forall. unfold toLowerCase.
  induction 1 as [|c r Hc Hr IH]; simpl; constructor;
    [apply plain_unit_lower, Hc | exact IH].
Qed.

Lemma plain_normalizeName s : plain s = true -> plain (normalizeName s) = true.
Proof.
  intros H. apply plain_Forall, Forall_normalizeName, plain_Forall,
    plain_toLowerCase, H.
Qed.

(** The three alternatives and the word 公司. *)
Lemma starts_with_app p s : starts_with p s = true -> exists r, s = (p ++ r)%list.
Proof.
  revert s; induction p as [|a p IH]; intros s H; [exists s; reflexivity|].
  destruct s as [|b s]; simpl in H; [discriminate|].
  apply andb_prop in H as [Hab Hp]. apply N.eqb_eq in Hab. subst b.
  destruct (IH _ Hp) as [r ->]. exists r. reflexivity.
Qed.

Lemma has_suffix_word_app pre r :
  has_suffix_word (pre ++ suffix_short ++ r) = true.
Proof.
  induction pre as [|a pre IH]; [reflexivity|].
  cbn [app has_suffix_word]. rewrite IH. apply orb_true_r.
Qed.

Lemma suffix_match_word s n : suffix_match s = Some n -> has_suffix_word s = true.
Proof.
  unfold suffix_match.
  destruct (starts_with suffix_long s) eqn:E1.
  - intros _. apply starts_with_app in E1 as [r ->].
    apply (has_suffix_word_app [32929; 20221; 26377; 38480]%N r).
  - destruct (starts_with suffix_mid s) eqn:E2.
    + intros _. apply starts_with_app in E2 as [r ->].
      apply (has_suffix_word_app [26377; 38480]%N r).
    + destruct (starts_with suffix_short s) eqn:E3; [|discriminate].
      intros _. apply starts_with_app in E3 as [r ->].
      apply (has_suffix_word_app [] r).
Qed.

Lemma suffix_match_short s : suffix_match s = None -> starts_with suffix_short s = false.
Proof.
  unfold suffix_match.
  destruct (starts_with suffix_long s); [discriminate|].
  destruct (starts_with suffix_mid s); [discriminate|].
  destruct (starts_with suffix_short s); [discriminate | reflexivity].
Qed.

Lemma has_suffix_word_cons c r :
  has_suffix_word (c :: r) = starts_with suffix_short (c :: r) || has_suffix_word r.
Proof. reflexivity. Qed.

(** Nothing is removed from a string in which the word 公司 does not
    occur, and something is removed from every other string. *)
Lemma removeSuffixes_fixed_word s : has_suffix_word s = false -> removeSuffixes s = s.
Proof.
  unfold removeSuffixes. induction s as [|c r IH]; intros H; [reflexivity|].
  cbn [removeSuffixes_from].
  destruct (suffix_match (c :: r)) as [n|] eqn:E.
  - apply suffix_match_word in E. rewrite E in H. discriminate H.
  - rewrite has_suffix_word_cons in H. apply orb_false_iff in H as [_ H].
    rewrite (IH H). reflexivity.
Qed.

Lemma has_suffix_word_shortens s :
  has_suffix_word s = true -> length (removeSuffixes s) < length s.
Proof.
  unfold removeSuffixes. induction s as [|c r IH]; intros H; [discriminate H|].
  cbn [removeSuffixes_from].
  destruct (suffix_match (c :: r)) as [n|] eqn:E.
  - pose proof (length_removeSuffixes_from r (pred n)). simpl. lia.
  - rewrite has_suffix_word_cons, (suffix_match_short _ E) in H.
    specialize (IH H). simpl. lia.
Qed.

Lemma has_paren_group_cons c r :
  has_paren_group (c :: r)
  = ((c =? 40)%N && match close_len r with Some _ => true | None => false end)
    || has_paren_group r.
Proof. reflexivity. Qed.

(** Nothing is removed from a string without a parenthesis group, and
    something is removed from every other string. *)
Lemma removeParens_fixed_group s : has_paren_group s = false -> removeParens s = s.
Proof.
  unfold removeParens. induction s as [|c r IH]; intros H; [reflexivity|].
  rewrite has_paren_group_cons in H. apply orb_false_iff in H as [H1 H2].
  cbn [removeParens_from]. rewrite (IH H2).
  destruct (c =? 40)%N; [|reflexivity].
  destruct (close_len r); [discriminate H1 | reflexivity].
Qed.

Lemma has_paren_group_shortens s :
  has_paren_group s = true -> length (removeParens s) < length s.
Proof.
  unfold removeParens. induction s as [|c r IH]; intros H; [discriminate H|].
  rewrite has_paren_group_cons in H. cbn [removeParens_from].
  destruct (c =? 40)%N; [destruct (close_len r) as [n|]|]; cbn [andb orb] in H.
  - pose proof (length_removeParens_from r n). simpl. lia.
  - specialize (IH H). simpl. lia.
  - specialize (IH H). simpl. lia.
Qed.

(** A result of the name normalisation is given back by a second pass
    exactly when the word 公司 does not occur in it and it holds no
    parenthesis group. *)
Lemma normalizeName_fixed_iff s :
  normalizeName (normalizeName s) = normalizeName s
  <-> has_suffix_word (normalizeName s) = false
      /\ has_paren_group (normalizeName s) = false.
Proof.
  assert (Htrim : trim (normalizeName s) = normalizeName s)
    by (unfold normalizeName at 1 2; apply trim_idem).
  assert (Hlow : toLowerCase (normalizeName s) = normalizeName s)
    by (apply toLowerCase_fixed, Forall_normalizeName, toLowerCase_lowered).
  assert (Hn : normalizeName (normalizeName s)
               = trim (removeParens (removeSuffixes (normalizeName s))))
    by (unfold normalizeName at 1; rewrite Hlow, Htrim; reflexivity).
  set (y := normalizeName s) in *.
  pose proof (length_trim (removeParens (removeSuffixes y))) as L1.
  pose proof (length_removeParens_from (removeSuffixes y) 0) as L2.
  fold (removeParens (removeSuffixes y)) in L2.
  split.
  - intros Hfix. rewrite Hn in Hfix.
    destruct (has_suffix_word y) eqn:Hw.
    + exfalso. apply has_suffix_word_shortens in Hw.
      rewrite Hfix in L1. lia.
    + split; [reflexivity|].
      destruct (has_paren_group y) eqn:Hp; [exfalso | reflexivity].
      apply has_paren_group_shortens in Hp.
      rewrite (removeSuffixes_fixed_word _ Hw) in *.
      rewrite Hfix in L1. lia.
  - intros [Hw Hp].
    rewrite Hn, (removeSuffixes_fixed_word _ Hw), (removeParens_fixed_group _ Hp).
    exact Htrim.
Qed.

End StringFacts.

(** ** Records *)

Section RecordFacts.

Lemma get_insert_eq (o : Obj) k v : get (<[k := v]> o) k = v.
Proof. unfold get. rewrite lookup_insert_eq. reflexivity. Qed.

Lemma get_insert_ne (o : Obj) k k' v : k <> k' -> get (<[k := v]> o) k' = get o k'.
Proof. intros H. unfold get. rewrite lookup_insert_ne by exact H. reflexivity. Qed.

Lemma get_empty k : get ∅ k = VUndef.
Proof. unfold get. rewrite lookup_empty. reflexivity. Qed.

Lemma get_absent (o : Obj) k : o !! k = None -> get o k = VUndef.
Proof. intros H. unfold get. rewrite H. reflexivity. Qed.

Lemma or_else_truthy a b : truthy a = true -> a ||| b = a.
Proof. intros H. unfold or_else. rewrite H. reflexivity. Qed.

Lemma or_else_falsy a b : truthy a = false -> a ||| b = b.
Proof. intros H. unfold or_else. rewrite H. reflexivity. Qed.

(** A field that ends in [|| ''] is either truthy or the empty string;
    reading it again, followed by aliases the DTO does not have, gives
    the same value. *)
Lemma or_empty_again1 x : (x ||| VStr []) ||| VStr [] = x ||| VStr [].
Proof. unfold or_else. destruct (truthy x) eqn:Hx; simpl; rewrite ?Hx; reflexivity. Qed.

Lemma or_empty_again2 x :
  ((x ||| VStr []) ||| VUndef) ||| VStr [] = x ||| VStr [].
Proof. unfold or_else. destruct (truthy x) eqn:Hx; simpl; rewrite ?Hx; reflexivity. Qed.

Lemma or_empty_again3 x :
  (((x ||| VStr []) ||| VUndef) ||| VUndef) ||| VStr [] = x ||| VStr [].
Proof. unfold or_else. destruct (truthy x) eqn:Hx; simpl; rewrite ?Hx; reflexivity. Qed.

End RecordFacts.

Ltac get_field :=
  repeat first
    [ rewrite get_insert_eq
    | rewrite get_insert_ne by (let H := fresh in intros H; discriminate H)
    | rewrite get_empty ].

Section DtoFacts.

Import CompanyService.

(** What reading a property of a DTO gives: the fields, and
    [undefined] for the aliases only raw rows have. *)
Lemma dto_reads raw :
  get (dto raw) "companyId" = get raw "companyId" ||| get raw "company_id" ||| VStr []
  /\ get (dto raw) "companyName"
     = get raw "companyName" ||| get raw "company_name" ||| VStr []
  /\ get (dto raw) "phone" = get raw "phone" ||| VStr []
  /\ get (dto raw) "address" = get raw "address" ||| VStr []
  /\ get (dto raw) "county" = get raw "county" ||| get raw "city" ||| VStr []
  /\ get (dto raw) "introduction"
     = get raw "introduction" ||| get raw "description" ||| VStr []
  /\ get (dto raw) "companyType"
     = get raw "companyType" ||| get raw "company_type" ||| VStr []
  /\ get (dto raw) "customerStage"
     = get raw "customerStage" ||| get raw "customer_stage" ||| VStr []
  /\ get (dto raw) "engagementRating"
     = get raw "engagementRating" ||| get raw "interactionRating" ||| VStr []
  /\ get (dto raw) "createdTime"
     = get raw "createdTime" ||| get raw "created_time" ||| VStr []
  /\ get (dto raw) "lastUpdateTime"
     = get raw "lastUpdateTime" ||| get raw "updatedTime" ||| get raw "updated_time" ||| VStr []
  /\ get (dto raw) "creator"
     = get raw "creator" ||| get raw "createdBy" ||| get raw "created_by" ||| VStr []
  /\ get (dto raw) "lastModifier"
     = get raw "lastModifier" ||| get raw "updatedBy" ||| get raw "updated_by" ||| VStr []
  /\ get (dto raw) "rowIndex" = get raw "rowIndex"
  /\ get (dto raw) "company_id" = VUndef
  /\ get (dto raw) "company_name" = VUndef
  /\ get (dto raw) "city" = VUndef
  /\ get (dto raw) "description" = VUndef
  /\ get (dto raw) "company_type" = VUndef
  /\ get (dto raw) "customer_stage" = VUndef
  /\ get (dto raw) "interactionRating" = VUndef
  /\ get (dto raw) "created_time" = VUndef
  /\ get (dto raw) "updatedTime" = VUndef
  /\ get (dto raw) "updated_time" = VUndef
  /\ get (dto raw) "createdBy" = VUndef
  /\ get (dto raw) "created_by" = VUndef
  /\ get (dto raw) "updatedBy" = VUndef
  /\ get (dto raw) "updated_by" = VUndef.
Proof.
  repeat split;
    unfold dto, get; rewrite ?lookup_insert, ?lookup_empty; simpl; reflexivity.
Qed.

Lemma dto_companyName raw :
  get (dto raw) "companyName"
  = get raw "companyName" ||| get raw "company_name" ||| VStr [].
Proof. apply (dto_reads raw). Qed.

Lemma dto_companyId raw :
  get (dto raw) "companyId"
  = get raw "companyId" ||| get raw "company_id" ||| VStr [].
Proof. apply (dto_reads raw). Qed.

Lemma dto_rowIndex raw : get (dto raw) "rowIndex" = get raw "rowIndex".
Proof. apply (dto_reads raw). Qed.

(** Mapping a DTO again gives the same DTO. *)
Lemma dto_idempotent raw : dto (dto raw) = dto raw.
Proof.
  unfold dto at 1.
  pose proof (dto_reads raw) as H.
  repeat match type of H with _ /\ _ => destruct H as [-> H] end.
  rewrite H.
  rewrite !or_empty_again3, !or_empty_again2, !or_empty_again1.
  reflexivity.
Qed.

End DtoFacts.

(** ** Reads of the company service *)

Section CompanyReads.

Import CompanyService.
Context {S : Type} (env : Env S).

(** A non-empty SQL answer is served, mapped, and the sheet is not read. *)
Lemma getAllCompanies_sql s r l s1 :
  has_companySqlReader (wiring env) = true ->
  respond env sqlCompanies s = (Ok (DList (r :: l)), s1) ->
  run (_getAllCompanies env) s
  = (Ok (List.map dto (r :: l)), {| store := s1; trace := [sqlCompanies] |}).
Proof.
  intros Hw Hr.
  unfold run, _getAllCompanies, bind, try_catch, call, ret; simpl.
  rewrite Hw; simpl. rewrite Hr; simpl. reflexivity.
Qed.

(** After a soft failure of SQL whose message can be logged the sheet
    is read: its rows come back mapped, and its failure is thrown. *)
Lemma getAllCompanies_fallback s r s1 :
  has_companySqlReader (wiring env) = true ->
  respond env sqlCompanies s = (r, s1) ->
  soft_failure r = true ->
  nullish_rejection r = false ->
  run (_getAllCompanies env) s
  = (rows_mapped dto (answer env sheetCompanies s1),
     {| store := after env sheetCompanies s1;
        trace := [sqlCompanies; sheetCompanies] |}).
Proof.
  intros Hw Hr Hsoft Hnull.
  unfold run, _getAllCompanies, logged, error_message, bind, try_catch, call,
    ret, lift, throw, answer, after; simpl.
  rewrite Hw; simpl. rewrite Hr; simpl.
  destruct (respond env sheetCompanies s1) as [r2 s2] eqn:E2.
  destruct r as [[v|o|[|x l]]|[m| |[]]]; simpl in *; try discriminate;
    rewrite ?E2; simpl; destruct r2 as [[v'|o'|l']|e']; reflexivity.
Qed.

(** A rejection of the SQL read with [null] or [undefined] is not
    survived: logging its message fails, and the sheet is not read. *)
Lemma getAllCompanies_nullish s r s1 :
  has_companySqlReader (wiring env) = true ->
  respond env sqlCompanies s = (r, s1) ->
  nullish_rejection r = true ->
  run (_getAllCompanies env) s
  = (Throw TypeError, {| store := s1; trace := [sqlCompanies] |}).
Proof.
  intros Hw Hr Hnull.
  unfold run, _getAllCompanies, logged, error_message, bind, try_catch, call,
    ret, lift, throw, answer, after; simpl.
  rewrite Hw; simpl. rewrite Hr; simpl.
  destruct r as [d|[m| |[]]]; simpl in *; try discriminate; reflexivity.
Qed.

(** Without a SQL reader the sheet is the only source. *)
Lemma getAllCompanies_sheet_only s :
  has_companySqlReader (wiring env) = false ->
  run (_getAllCompanies env) s
  = (rows_mapped dto (answer env sheetCompanies s),
     {| store := after env sheetCompanies s; trace := [sheetCompanies] |}).
Proof.
  intros Hw.
  unfold run, _getAllCompanies, bind, try_catch, call, ret, lift, throw,
    answer, after; simpl.
  rewrite Hw; simpl.
  destruct (respond env sheetCompanies s) as [[[v'|o'|l']|e'] s2]; reflexivity.
Qed.

End CompanyReads.

(** ** Reads of the event-log service *)

Section EventReads.

Import EventLogService.
Context {S : Type} (env : Env S).

(** Any array from SQL, the empty one included, is served: the sheet
    reader of the events is not called. *)
Lemma getAllEvents_sql s l s1 :
  has_eventLogSqlReader (wiring env) = true ->
  respond env sqlEvents s = (Ok (DList l), s1) ->
  run (getAllEvents env) s
  = (Ok (events_view (Ok (DList l)) (answer env sheetOpps s1)
           (answer env sheetCompanies (after env sheetOpps s1))),
     {| store := after env sheetCompanies (after env sheetOpps s1);
        trace := [sqlEvents; sheetOpps; sheetCompanies] |}).
Proof.
  intros Hw Hr.
  unfold run, getAllEvents, bind, try_catch, call, ret, lift, throw, all2,
    answer, after; simpl.
  rewrite Hw; simpl. rewrite Hr; simpl.
  destruct (respond env sheetOpps s1) as [r2 s2]; simpl.
  destruct (respond env sheetCompanies s2) as [r3 s3]; simpl.
  destruct r2 as [[?|?|?]|?], r3 as [[?|?|?]|?]; reflexivity.
Qed.

(** When SQL answers something that is not an array, or throws what
    has a message to log, the sheet is read; its failure becomes the
    empty list. *)
Lemma getAllEvents_fallback s r s1 :
  has_eventLogSqlReader (wiring env) = true ->
  respond env sqlEvents s = (r, s1) ->
  (forall l, r <> Ok (DList l)) ->
  nullish_rejection r = false ->
  run (getAllEvents env) s
  = match answer env sheetEvents s1 with
    | Throw _ =>
      (Ok [], {| store := after env sheetEvents s1;
                 trace := [sqlEvents; sheetEvents] |})
    | Ok d =>
      let s2 := after env sheetEvents s1 in
      (Ok (events_view (Ok d) (answer env sheetOpps s2)
             (answer env sheetCompanies (after env sheetOpps s2))),
       {| store := after env sheetCompanies (after env sheetOpps s2);
          trace := [sqlEvents; sheetEvents; sheetOpps; sheetCompanies] |})
    end.
Proof.
  intros Hw Hr Hnl Hnull.
  unfold run, getAllEvents, logged, error_message, bind, try_catch, call, ret,
    lift, throw, all2, answer, after; simpl.
  rewrite Hw; simpl. rewrite Hr; simpl.
  destruct r as [[v|o|l]|[m| |[]]];
    [ | | exfalso; eapply Hnl; reflexivity | .. ]; simpl in *;
    try discriminate Hnull;
    (destruct (respond env sheetEvents s1) as [r1 s2]; simpl;
     destruct r1 as [d|e1]; simpl; [|reflexivity];
     destruct (respond env sheetOpps s2) as [r2 s3]; simpl;
     destruct (respond env sheetCompanies s3) as [r3 s4]; simpl;
     destruct d as [?|?|?], r2 as [[?|?|?]|?], r3 as [[?|?|?]|?]; reflexivity).
Qed.

(** A rejection of the SQL read with [null] or [undefined]: logging
    its message fails, the sheet is not read, and the outer handler
    answers the empty list. *)
Lemma getAllEvents_nullish s r s1 :
  has_eventLogSqlReader (wiring env) = true ->
  respond env sqlEvents s = (r, s1) ->
  nullish_rejection r = true ->
  run (getAllEvents env) s
  = (Ok [], {| store := s1; trace := [sqlEvents] |}).
Proof.
  intros Hw Hr Hnull.
  unfold run, getAllEvents, logged, error_message, bind, try_catch, call, ret,
    lift, throw, all2, answer, after; simpl.
  rewrite Hw; simpl. rewrite Hr; simpl.
  destruct r as [d|[m| |[]]]; simpl in *; try discriminate; reflexivity.
Qed.

End EventReads.

(** ** Reads of the announcement service *)

Section AnnouncementReads.

Import AnnouncementService.
Context {S : Type} (env : Env S).

(** Whatever SQL answers without throwing is returned as it is. *)
Lemma fetchInternal_sql s d s1 :
  has_announcementSqlReader (wiring env) = true ->
  respond env sqlAnnouncements s = (Ok d, s1) ->
  run (_fetchInternal env) s
  = (Ok d, {| store := s1; trace := [sqlAnnouncements] |}).
Proof.
  intros Hw Hr.
  unfold run, _fetchInternal, bind, try_catch, call, ret; simpl.
  rewrite Hw; simpl. rewrite Hr; simpl. reflexivity.
Qed.

(** When SQL throws what has a message to log, the answer of the
    sheet is the result. *)
Lemma fetchInternal_fallback s e s1 :
  has_announcementSqlReader (wiring env) = true ->
  respond env sqlAnnouncements s = (Throw e, s1) ->
  nullish_rejection (Throw e) = false ->
  run (_fetchInternal env) s
  = (answer env sheetAnnouncements s1,
     {| store := after env sheetAnnouncements s1;
        trace := [sqlAnnouncements; sheetAnnouncements] |}).
Proof.
  intros Hw Hr Hnull.
  unfold run, _fetchInternal, logged, error_message, bind, try_catch, call,
    ret, lift, answer, after; simpl.
  rewrite Hw; simpl. rewrite Hr; simpl.
  destruct e as [m| |[]]; simpl in *; try discriminate Hnull;
    destruct (respond env sheetAnnouncements s1); reflexivity.
Qed.

(** A rejection of the SQL read with [null] or [undefined] is not
    survived, and the sheet is not read. *)
Lemma fetchInternal_nullish s r s1 :
  has_announcementSqlReader (wiring env) = true ->
  respond env sqlAnnouncements s = (r, s1) ->
  nullish_rejection r = true ->
  run (_fetchInternal env) s
  = (Throw TypeError, {| store := s1; trace := [sqlAnnouncements] |}).
Proof.
  intros Hw Hr Hnull.
  unfold run, _fetchInternal, logged, error_message, bind, try_catch, call,
    ret, lift, answer, after; simpl.
  rewrite Hw; simpl. rewrite Hr; simpl.
  destruct r as [d|[m| |[]]]; simpl in *; try discriminate; reflexivity.
Qed.

(** The trace of a fetch holds reads only. *)
Lemma fetchInternal_no_write w :
  no_write (trace w) -> no_write (trace (snd (_fetchInternal env w))).
Proof.
  intros Hw. destruct w as [s t]; simpl in Hw.
  unfold _fetchInternal, logged, bind, try_catch, call, ret, lift; simpl.
  destruct (has_announcementSqlReader (wiring env)); simpl.
  - destruct (respond env sqlAnnouncements s) as [[d|e] s1]; simpl.
    + apply Forall_app; split; [exact Hw | repeat constructor].
    + destruct (error_message e); simpl.
      * destruct (respond env sheetAnnouncements s1) as [r2 s2]; simpl.
        rewrite <- app_assoc.
        apply Forall_app; split; [exact Hw | repeat constructor].
      * apply Forall_app; split; [exact Hw | repeat constructor].
  - destruct (respond env sheetAnnouncements s) as [r2 s2]; simpl.
    apply Forall_app; split; [exact Hw | repeat constructor].
Qed.

End AnnouncementReads.

(** ** Reads of the opportunity service *)

Section OpportunityReads.

Import OpportunityService.
Context {S : Type} (env : Env S).

(** A forced read is the read of the sheet and nothing else. *)
Lemma fetchOpportunities_forced s :
  run (_fetchOpportunities env true) s
  = (answer env sheetOpps s,
     {| store := after env sheetOpps s; trace := [sheetOpps] |}).
Proof.
  unfold run, _fetchOpportunities, bind, try_catch, call, ret, throw,
    answer, after; simpl.
  destruct (respond env sheetOpps s) as [[d|e] s1]; reflexivity.
Qed.

Lemma fetchOpportunities_sql s r l s1 :
  has_opportunitySqlReader (wiring env) = true ->
  respond env sqlOpps s = (Ok (DList (r :: l)), s1) ->
  run (_fetchOpportunities env false) s
  = (Ok (DList (r :: l)), {| store := s1; trace := [sqlOpps] |}).
Proof.
  intros Hw Hr.
  unfold run, _fetchOpportunities, bind, try_catch, call, ret; simpl.
  rewrite Hw; simpl. rewrite Hr; simpl. reflexivity.
Qed.

Lemma fetchOpportunities_fallback s r s1 :
  has_opportunitySqlReader (wiring env) = true ->
  respond env sqlOpps s = (r, s1) ->
  soft_failure r = true ->
  nullish_rejection r = false ->
  run (_fetchOpportunities env false) s
  = (answer env sheetOpps s1,
     {| store := after env sheetOpps s1; trace := [sqlOpps; sheetOpps] |}).
Proof.
  intros Hw Hr Hsoft Hnull.
  unfold run, _fetchOpportunities, logged, error_message, bind, try_catch,
    call, ret, lift, throw, answer, after; simpl.
  rewrite Hw; simpl. rewrite Hr; simpl.
  destruct (respond env sheetOpps s1) as [r2 s2] eqn:E2.
  destruct r as [[v|o|[|x l]]|[m| |[]]]; simpl in *; try discriminate;
    rewrite ?E2; simpl; destruct r2; reflexivity.
Qed.

(** A rejection of the SQL read with [null] or [undefined] is not
    survived, and the sheet is not read. *)
Lemma fetchOpportunities_nullish s r s1 :
  has_opportunitySqlReader (wiring env) = true ->
  respond env sqlOpps s = (r, s1) ->
  nullish_rejection r = true ->
  run (_fetchOpportunities env false) s
  = (Throw TypeError, {| store := s1; trace := [sqlOpps] |}).
Proof.
  intros Hw Hr Hnull.
  unfold run, _fetchOpportunities, logged, error_message, bind, try_catch,
    call, ret, lift, throw, answer, after; simpl.
  rewrite Hw; simpl. rewrite Hr; simpl.
  destruct r as [d|[m| |[]]]; simpl in *; try discriminate; reflexivity.
Qed.

End OpportunityReads.

(** ** Fallback on read *)

Section Convergence.

Import CompanyService EventLogService AnnouncementService OpportunityService.
Import Examples.

(** C1, as stated, fails for the event log: SQL answers the empty
    array, the sheet holds an event, and [getAllEvents] serves the
    empty list of SQL, not the rows of the sheet. *)
Lemma getAllEvents_serves_empty_sql :
  answer (env_of events_lag) sqlEvents tt = Ok (DList [])
  /\ answer (env_of events_lag) sheetEvents tt = Ok (DList [event_E1])
  /\ run (getAllEvents (env_of events_lag)) tt
     = (Ok [], {| store := tt; trace := [sqlEvents; sheetOpps; sheetCompanies] |})
  /\ fst (run (getAllEvents (env_of events_lag)) tt)
     <> Ok (events_view (answer (env_of events_lag) sheetEvents tt)
              (answer (env_of events_lag) sheetOpps tt)
              (answer (env_of events_lag) sheetCompanies tt)).
Proof.
  split; [reflexivity|]. split; [reflexivity|]. split; [reflexivity|].
  intros H.
  apply (f_equal (fun r => match r with Ok l => length l | Throw _ => 0 end)) in H.
  vm_compute in H. discriminate H.
Qed.

(** C1, amended.  The SQL read answers, or throws something other
    than [null] and [undefined].  Companies and opportunities: a
    non-empty array from SQL is served (mapped to DTOs for companies)
    and the sheet is not read; an exception, a value that is not an
    array or the empty array sends the read to the sheet.  Event log:
    every array from SQL, the empty one included, is served without
    reading the sheet of the events; only an exception or a value
    that is not an array sends the read to the sheet.  Announcements:
    whatever SQL answers is served; only an exception sends the read
    to the sheet. *)
Theorem read_convergence_by_entity {S} (env : Env S) (s s1 : S) (r : Res Data) :
  nullish_rejection r = false ->
  (has_companySqlReader (wiring env) = true ->
   respond env sqlCompanies s = (r, s1) ->
   run (_getAllCompanies env) s
   = if soft_failure r
     then (rows_mapped dto (answer env sheetCompanies s1),
           {| store := after env sheetCompanies s1;
              trace := [sqlCompanies; sheetCompanies] |})
     else (rows_mapped dto r, {| store := s1; trace := [sqlCompanies] |}))
  /\ (has_opportunitySqlReader (wiring env) = true ->
      respond env sqlOpps s = (r, s1) ->
      run (_fetchOpportunities env false) s
      = if soft_failure r
        then (answer env sheetOpps s1,
              {| store := after env sheetOpps s1; trace := [sqlOpps; sheetOpps] |})
        else (r, {| store := s1; trace := [sqlOpps] |}))
  /\ (has_eventLogSqlReader (wiring env) = true ->
      respond env sqlEvents s = (r, s1) ->
      run (getAllEvents env) s
      = match r with
        | Ok (DList l) =>
          (Ok (events_view r (answer env sheetOpps s1)
                 (answer env sheetCompanies (after env sheetOpps s1))),
           {| store := after env sheetCompanies (after env sheetOpps s1);
              trace := [sqlEvents; sheetOpps; sheetCompanies] |})
        | _ =>
          match answer env sheetEvents s1 with
          | Throw _ =>
            (Ok [], {| store := after env sheetEvents s1;
                       trace := [sqlEvents; sheetEvents] |})
          | Ok d =>
            let s2 := after env sheetEvents s1 in
            (Ok (events_view (Ok d) (answer env sheetOpps s2)
                   (answer env sheetCompanies (after env sheetOpps s2))),
             {| store := after env sheetCompanies (after env sheetOpps s2);
                trace := [sqlEvents; sheetEvents; sheetOpps; sheetCompanies] |})
          end
        end)
  /\ (has_announcementSqlReader (wiring env) = true ->
      respond env sqlAnnouncements s = (r, s1) ->
      run (_fetchInternal env) s
      = match r with
        | Ok d => (Ok d, {| store := s1; trace := [sqlAnnouncements] |})
        | Throw _ =>
          (answer env sheetAnnouncements s1,
           {| store := after env sheetAnnouncements s1;
              trace := [sqlAnnouncements; sheetAnnouncements] |})
        end).
Proof.
  intros Hnull. repeat split; intros Hw Hr.
  - destruct (soft_failure r) eqn:Hs.
    + apply (getAllCompanies_fallback env s r s1 Hw Hr Hs Hnull).
    + destruct r as [[v|o|[|x l]]|e]; try discriminate Hs.
      apply (getAllCompanies_sql env s x l s1 Hw Hr).
  - destruct (soft_failure r) eqn:Hs.
    + apply (fetchOpportunities_fallback env s r s1 Hw Hr Hs Hnull).
    + destruct r as [[v|o|[|x l]]|e]; try discriminate Hs.
      apply (fetchOpportunities_sql env s x l s1 Hw Hr).
  - destruct r as [[v|o|l]|e];
      try (apply (getAllEvents_sql env s l s1 Hw Hr));
      (rewrite (getAllEvents_fallback env s _ s1 Hw Hr);
       [reflexivity | intros l0 Hl0; discriminate Hl0 | exact Hnull]).
  - destruct r as [d|e].
    + apply (fetchInternal_sql env s d s1 Hw Hr).
    + apply (fetchInternal_fallback env s e s1 Hw Hr Hnull).
Qed.

(** The amended C1 on sample stores: the company read falls back on an
    empty SQL answer, the event read serves it, the announcement read
    serves what SQL answers. *)
Lemma read_convergence_by_entity_witness :
  run (_getAllCompanies (env_of companies_lag)) tt
  = (Ok [dto company_B],
     {| store := tt; trace := [sqlCompanies; sheetCompanies] |})
  /\ run (_getAllCompanies (env_of companies_sql)) tt
     = (Ok [dto company_A], {| store := tt; trace := [sqlCompanies] |})
  /\ run (getAllEvents (env_of events_lag)) tt
     = (Ok [], {| store := tt; trace := [sqlEvents; sheetOpps; sheetCompanies] |})
  /\ run (_fetchInternal (env_of announcements_sql)) tt
     = (Ok (DList [announcement_A1]),
        {| store := tt; trace := [sqlAnnouncements] |}).
Proof.
  split; [|split; [|split]].
  - exact (proj1 (read_convergence_by_entity (env_of companies_lag) tt tt
                    (Ok (DList [])) eq_refl) eq_refl eq_refl).
  - exact (proj1 (read_convergence_by_entity (env_of companies_sql) tt tt
                    (Ok (DList [company_A])) eq_refl) eq_refl eq_refl).
  - exact (proj1 (proj2 (proj2 (read_convergence_by_entity (env_of events_lag) tt tt
                    (Ok (DList [])) eq_refl))) eq_refl eq_refl).
  - exact (proj2 (proj2 (proj2 (read_convergence_by_entity (env_of announcements_sql)
                    tt tt (Ok (DList [announcement_A1])) eq_refl))) eq_refl eq_refl).
Defined.

(** C5, as stated, fails for the event log: both sources throw and
    [getAllEvents] returns the empty list. *)
Lemma getAllEvents_swallows_sheet_failure :
  answer (env_of events_down) sqlEvents tt = Throw (Rejected (VStr (js "sql down")))
  /\ answer (env_of events_down) sheetEvents tt
     = Throw (Rejected (VStr (js "sheet down")))
  /\ run (getAllEvents (env_of events_down)) tt
     = (Ok [], {| store := tt; trace := [sqlEvents; sheetEvents] |}).
Proof. repeat split. Qed.

(** C5, amended.  After a soft failure of SQL, other than a rejection
    with [null] or [undefined], a failure of the sheet read is thrown
    to the caller, as it is, by the company, opportunity and
    announcement reads; [getAllEvents] catches it and returns the
    empty list. *)
Theorem sheet_failure_by_entity {S} (env : Env S) (s s1 : S) (r : Res Data) (e : Exn) :
  nullish_rejection r = false ->
  (has_companySqlReader (wiring env) = true ->
   respond env sqlCompanies s = (r, s1) ->
   soft_failure r = true ->
   answer env sheetCompanies s1 = Throw e ->
   fst (run (_getAllCompanies env) s) = Throw e)
  /\ (has_opportunitySqlReader (wiring env) = true ->
      respond env sqlOpps s = (r, s1) ->
      soft_failure r = true ->
      answer env sheetOpps s1 = Throw e ->
      fst (run (_fetchOpportunities env false) s) = Throw e)
  /\ (has_announcementSqlReader (wiring env) = true ->
      respond env sqlAnnouncements s = (r, s1) ->
      (exists e0, r = Throw e0) ->
      answer env sheetAnnouncements s1 = Throw e ->
      fst (run (_fetchInternal env) s) = Throw e)
  /\ (has_eventLogSqlReader (wiring env) = true ->
      respond env sqlEvents s = (r, s1) ->
      (forall l, r <> Ok (DList l)) ->
      answer env sheetEvents s1 = Throw e ->
      fst (run (getAllEvents env) s) = Ok []).
Proof.
  intros Hnull. repeat split.
  - intros Hw Hr Hs He.
    rewrite (getAllCompanies_fallback env s r s1 Hw Hr Hs Hnull); simpl.
    rewrite He. reflexivity.
  - intros Hw Hr Hs He.
    rewrite (fetchOpportunities_fallback env s r s1 Hw Hr Hs Hnull); simpl.
    exact He.
  - intros Hw Hr [e0 ->] He.
    rewrite (fetchInternal_fallback env s e0 s1 Hw Hr Hnull); simpl.
    exact He.
  - intros Hw Hr Hnl He.
    rewrite (getAllEvents_fallback env s r s1 Hw Hr Hnl Hnull).
    rewrite He. reflexivity.
Qed.

(** The amended C5 on sample stores where both sources are down. *)
Lemma sheet_failure_by_entity_witness :
  fst (run (_getAllCompanies (env_of companies_down)) tt)
  = Throw (Rejected (VStr (js "sheet down")))
  /\ fst (run (getAllEvents (env_of events_down)) tt) = Ok [].
Proof.
  split.
  - exact (proj1 (sheet_failure_by_entity (env_of companies_down) tt tt
                    (Throw (Rejected (VStr (js "sql down"))))
                    (Rejected (VStr (js "sheet down"))) eq_refl)
             eq_refl eq_refl eq_refl eq_refl).
  - refine (proj2 (proj2 (proj2 (sheet_failure_by_entity (env_of events_down) tt tt
                    (Throw (Rejected (VStr (js "sql down"))))
                    (Rejected (VStr (js "sheet down"))) eq_refl)))
             eq_refl eq_refl _ eq_refl).
    intros l H. discriminate H.
Defined.

End Convergence.

(** ** Traces *)

Section TraceFacts.

Lemma never_reads_b_sound r t : never_reads_b r t = true -> never_reads r t.
Proof.
  unfold never_reads_b, never_reads. intros H.
  apply Forall_forall. intros c Hc.
  rewrite forallb_forall in H. specialize (H c).
  apply negb_true_iff, H. apply list_elem_of_In, Hc.
Qed.

Lemma writes_follow_from_sound r t :
  forall seen, writes_follow_from seen r t = true ->
  forall pre w post, t = (pre ++ Write w :: post)%list ->
  seen = true \/ In (Read r) pre.
Proof.
  induction t as [|c t IH]; intros seen H pre w post E.
  - destruct pre; discriminate E.
  - destruct pre as [|c' pre]; simpl in E; injection E as -> ->.
    + simpl in H. apply andb_prop in H as [H _]. left; exact H.
    + simpl in H. destruct (is_write c') eqn:Ew.
      * apply andb_prop in H as [Hs H].
        destruct (IH _ H _ _ _ eq_refl) as [?|?]; [left; assumption | right; right; assumption].
      * destruct (IH _ H _ _ _ eq_refl) as [Hor|?]; [|right; right; assumption].
        apply orb_prop in Hor as [?|Hr]; [left; assumption|].
        right; left. destruct c'; try discriminate Hr.
        simpl in Hr. apply bool_decide_eq_true in Hr. subst. reflexivity.
Qed.

Lemma writes_follow_b_sound r t : writes_follow_b r t = true -> writes_follow r t.
Proof.
  intros H pre w post E.
  destruct (writes_follow_from_sound r t false H pre w post E) as [?|?];
    [discriminate | assumption].
Qed.

Lemma writes_right_after_from_sound r sel t :
  forall prev, writes_right_after_from prev r sel t = true ->
  forall pre w post, t = (pre ++ Write w :: post)%list -> sel w = true ->
  (pre = [] /\ prev = true) \/ exists pre', pre = (pre' ++ [Read r])%list.
Proof.
  induction t as [|c t IH]; intros prev H pre w post E Hsel.
  - destruct pre; discriminate E.
  - destruct pre as [|c' pre]; simpl in E; injection E as -> ->.
    + simpl in H. rewrite Hsel in H. simpl in H.
      apply andb_prop in H as [H _]. left; split; [reflexivity | exact H].
    + right.
      assert (Hstep : exists p, writes_right_after_from p r sel (pre ++ Write w :: post) = true
                                /\ (p = true -> c' = Read r)).
      { destruct c' as [r'|w'|o k|o|h]; simpl in H.
        - exists (bool_decide (r' = r)). split; [exact H|].
          intros Hp. apply bool_decide_eq_true in Hp. subst. reflexivity.
        - apply andb_prop in H as [_ H]. exists false. split; [exact H | discriminate].
        - exists false. split; [exact H | discriminate].
        - exists false. split; [exact H | discriminate].
        - exists false. split; [exact H | discriminate]. }
      destruct Hstep as (p & Hp & Hc).
      destruct (IH _ Hp _ _ _ eq_refl Hsel) as [[-> Hprev]|[pre' ->]].
      * exists []. simpl. rewrite (Hc Hprev). reflexivity.
      * exists (c' :: pre'). reflexivity.
Qed.

Lemma writes_right_after_b_sound r sel t :
  writes_right_after_b r sel t = true -> writes_right_after r sel t.
Proof.
  intros H pre w post E Hsel.
  destruct (writes_right_after_from_sound r sel t false H pre w post E Hsel)
    as [[_ ?]|?]; [discriminate | assumption].
Qed.

End TraceFacts.

(** Execution of a service against an environment whose answers are not
    known: a case for every answer. *)
Ltac exec_step :=
  match goal with
  | |- context [respond ?e ?c ?s] =>
    lazymatch s with
    | context [match _ with _ => _ end] => fail
    | _ =>
      let r := fresh "r" in
      let s' := fresh "s" in
      destruct (respond e c s) as [r s']; destruct r
    end
  | |- context [match ?x with _ => _ end] =>
    lazymatch x with
    | context [match _ with _ => _ end] => fail
    | context [respond _ _ _] => fail
    | _ => destruct x
    end
  end.

Ltac exec := simpl; repeat (exec_step; simpl).

(** Execution that keeps the answer of every call as an equation. *)
Ltac exec_eq_step :=
  match goal with
  | |- context [respond ?e ?c ?s] =>
    lazymatch s with
    | context [match _ with _ => _ end] => fail
    | _ =>
      let r := fresh "r" in
      let s' := fresh "s" in
      let E := fresh "Hcall" in
      destruct (respond e c s) as [r s'] eqn:E; destruct r
    end
  | |- context [match ?x with _ => _ end] =>
    lazymatch x with
    | context [match _ with _ => _ end] => fail
    | context [respond _ _ _] => fail
    | _ => tryif is_var x then destruct x else destruct x eqn:?
    end
  end.

(** Only the plumbing of the monad is reduced: the pure parts of a
    service stay folded. *)
Ltac red_m := cbn [fst snd store trace app negb].

Ltac run_eq := red_m; repeat (exec_eq_step; red_m).

(** A trace known call by call, split at one of its writes: a case
    for every place the write can have. *)
Ltac split_trace E pre :=
  destruct pre as [|? pre]; cbn [app] in E;
  [ first [ discriminate E | injection E as E ? ]
  | first [ discriminate E | injection E as ? E; subst; split_trace E pre ] ].

(** ** Write protection of announcements *)

Section WriteProtection.

Import AnnouncementService Examples.

(** C3.  When the announcement found for the id has no [rowIndex]
    (the property is missing, or holds [undefined], [null], [0] or
    another falsy value), update and delete throw the [Forbidden]
    error; the trace is that of the fetch, which holds no store-level
    write, and no value is returned. *)
Theorem announcement_without_rowIndex_is_forbidden {S} (env : Env S) (s : S)
    (id : Val) (data : Obj) (user : Data) (modifierName : Val)
    (all : Data) (w1 : World S) (target : Obj) :
  modifierName_of user = Ok modifierName ->
  run (_fetchInternal env) s = (Ok all, w1) ->
  find_by_id all id = Ok (Some target) ->
  truthy (get target "rowIndex") = false ->
  (exists e, run (updateAnnouncement env id data user) s = (Throw e, w1)
             /\ is_forbidden e = true)
  /\ (exists e, run (deleteAnnouncement env id) s = (Throw e, w1)
                /\ is_forbidden e = true)
  /\ no_write (trace w1).
Proof.
  intros Hu Hf Hfind Hfalsy.
  unfold run in *.
  split; [|split].
  - exists (Error ForbiddenUpdate). split; [|reflexivity].
    unfold updateAnnouncement, bind, try_catch, lift, throw.
    rewrite Hu, Hf, Hfind, Hfalsy. reflexivity.
  - exists (Error ForbiddenDelete). split; [|reflexivity].
    unfold deleteAnnouncement, bind, try_catch, lift, throw.
    rewrite Hf, Hfind, Hfalsy. reflexivity.
  - replace w1 with (snd (_fetchInternal env {| store := s; trace := [] |}))
      by (rewrite Hf; reflexivity).
    apply fetchInternal_no_write. constructor.
Qed.

(** C3 on sample stores: SQL serves announcement A1 without the
    property [rowIndex], and with [rowIndex: undefined]. *)
Lemma announcement_without_rowIndex_is_forbidden_witness :
  ((exists e,
      run (updateAnnouncement (env_of announcements_sql) (VStr (js "A1")) ∅ user_amy) tt
      = (Throw e, {| store := tt; trace := [sqlAnnouncements] |})
      /\ is_forbidden e = true)
   /\ (exists e,
         run (deleteAnnouncement (env_of announcements_sql) (VStr (js "A1"))) tt
         = (Throw e, {| store := tt; trace := [sqlAnnouncements] |})
         /\ is_forbidden e = true)
   /\ no_write [sqlAnnouncements])
  /\ ((exists e,
         run (updateAnnouncement (env_of announcements_sql_unaddressed)
                (VStr (js "A1")) ∅ user_amy) tt
         = (Throw e, {| store := tt; trace := [sqlAnnouncements] |})
         /\ is_forbidden e = true)
      /\ (exists e,
            run (deleteAnnouncement (env_of announcements_sql_unaddressed)
                   (VStr (js "A1"))) tt
            = (Throw e, {| store := tt; trace := [sqlAnnouncements] |})
            /\ is_forbidden e = true)
      /\ no_write [sqlAnnouncements]).
Proof.
  split.
  - exact (announcement_without_rowIndex_is_forbidden
             (env_of announcements_sql) tt (VStr (js "A1")) ∅ user_amy
             (VStr (js "Amy")) (DList [announcement_A1])
             {| store := tt; trace := [sqlAnnouncements] |} announcement_A1
             eq_refl eq_refl eq_refl eq_refl).
  - exact (announcement_without_rowIndex_is_forbidden
             (env_of announcements_sql_unaddressed) tt (VStr (js "A1")) ∅ user_amy
             (VStr (js "Amy")) (DList [announcement_A1_unaddressed])
             {| store := tt; trace := [sqlAnnouncements] |}
             announcement_A1_unaddressed
             eq_refl eq_refl eq_refl eq_refl).
Defined.

End WriteProtection.

(** ** Where the row index of a write comes from *)

Section RowResolution.

Import CompanyService CompanyService_v7_7 EventLogService OpportunityService.
Import AnnouncementService Examples.

Lemma find_res_some f l x :
  find_res f l = Ok (Some x) -> In x l /\ f x = Ok true.
Proof.
  induction l as [|y l IH]; simpl; [discriminate|].
  destruct (f y) as [[|]|e] eqn:E; intros H; try discriminate H.
  - injection H as ->. split; [left; reflexivity | exact E].
  - destruct (IH H) as [Hin Hf]. split; [right; exact Hin | exact Hf].
Qed.

Section Traces.
Context {S : Type} (env : Env S).

Lemma updateOpportunity_trace parseInt changeLog rowIndex updateData user s
    (P : list Call -> Prop) :
  (forall t, never_reads_b opportunitySqlReader_getOpportunities t
             && writes_follow_b opportunityReader_getOpportunities t = true -> P t) ->
  P (trace (snd (run (updateOpportunity env parseInt changeLog
                        rowIndex updateData user) s))).
Proof.
  intros HP.
  unfold run, updateOpportunity, _fetchOpportunities, _logOpportunityInteraction,
    invalidate_opportunities, find_row, as_array, CompanyService_v7_7.modifier_of,
    logged, bind, try_catch, call, ret, lift, throw.
  exec; apply HP; reflexivity.
Qed.

Lemma deleteOpportunity_trace parseInt deletionNotice rowIndex user s
    (P : list Call -> Prop) :
  (forall t, never_reads_b opportunitySqlReader_getOpportunities t
             && writes_follow_b opportunityReader_getOpportunities t = true -> P t) ->
  P (trace (snd (run (deleteOpportunity env parseInt deletionNotice
                        rowIndex user) s))).
Proof.
  intros HP.
  unfold run, deleteOpportunity, _fetchOpportunities,
    invalidate_opportunities, find_row, as_array, CompanyService_v7_7.modifier_of,
    logged, bind, try_catch, call, ret, lift, throw.
  exec; apply HP; reflexivity.
Qed.

Lemma updateEventLog_trace StringToNumber key data modifier s
    (P : list Call -> Prop) :
  (forall t, never_reads_b eventLogSqlReader_getEventLogs t
             && writes_follow_b eventReader_getEventLogs t = true -> P t) ->
  P (trace (snd (run (updateEventLog env StringToNumber key data modifier) s))).
Proof.
  intros HP.
  unfold run, updateEventLog, updateEvent, _invalidateEventCacheSafe,
    locate_original, resolve_rowIndex, find_in, as_array,
    bind, try_catch, call, ret, lift, throw.
  exec; apply HP; reflexivity.
Qed.

Lemma deleteEventLog_trace eventId user s (P : list Call -> Prop) :
  (forall t, never_reads_b eventLogSqlReader_getEventLogs t
             && writes_follow_b eventReader_getEventLogs t = true -> P t) ->
  P (trace (snd (run (deleteEventLog env eventId user) s))).
Proof.
  intros HP.
  unfold run, deleteEventLog, deleteEvent, _invalidateEventCacheSafe,
    bind, try_catch, call, ret, lift, throw.
  exec; apply HP; reflexivity.
Qed.

Lemma findCompanyRowIndex_trace companyName s :
  trace (snd (run (_findCompanyRowIndex env companyName) s)) = [sheetCompanies].
Proof.
  unfold run, _findCompanyRowIndex, bind, try_catch, call, ret, lift, throw.
  exec; reflexivity.
Qed.

Lemma findCompanyRowIndex_row companyName s ri w :
  run (_findCompanyRowIndex env companyName) s = (Ok ri, w) ->
  exists l t,
    answer env sheetCompanies s = Ok (DList l) /\ In t l
    /\ ri = get t "rowIndex" /\ truthy ri = true.
Proof.
  unfold run, _findCompanyRowIndex, bind, try_catch, call, ret, lift, throw,
    answer; simpl.
  destruct (respond env sheetCompanies s) as [[d|e] s1]; simpl; [|discriminate].
  destruct (_normalizeCompanyName companyName) as [n|e]; simpl; [|discriminate].
  destruct d as [v|o|l]; simpl; try discriminate.
  destruct (find_res (name_matches n) l) as [[t|]|e] eqn:Ef; simpl; try discriminate.
  destruct (truthy (get t "rowIndex")) eqn:Et; simpl; [|discriminate].
  intros H. injection H as <- _.
  exists l, t. destruct (find_res_some _ _ _ Ef) as [Hin _].
  repeat split; [exact Hin | exact Et].
Qed.

(** When [updateOpportunity] writes at all, the forced read of the
    sheet holds a row whose index is the number read from the
    [rowIndex] of the request. *)
Lemma updateOpportunity_row parseInt changeLog rowIndex updateData user s w :
  In (Write w) (trace (snd (run (updateOpportunity env parseInt changeLog
                                   rowIndex updateData user) s))) ->
  exists l o,
    answer env sheetOpps s = Ok (DList l) /\ In o l
    /\ strict_eq (get o "rowIndex") (parseInt rowIndex) = true.
Proof.
  unfold run, updateOpportunity, _fetchOpportunities, find_row, as_array, answer,
    bind, try_catch, call, ret, lift, throw.
  simpl.
  destruct (CompanyService_v7_7.modifier_of user) as [m|e]; simpl; [|intros []].
  destruct (respond env sheetOpps s) as [[d|e] s1]; simpl;
    [|intros [H|[]]; discriminate H].
  destruct d as [v|o|l]; simpl; try (intros [H|[]]; discriminate H).
  destruct (List.find _ l) as [o|] eqn:Ef; simpl;
    [|intros [H|[]]; discriminate H].
  intros _. exists l, o. apply find_some in Ef as [Hin Heq].
  repeat split; assumption.
Qed.

(** The write of [updateOpportunity] to the opportunity sheet carries
    the [rowIndex] of the request. *)
Lemma updateOpportunity_address parseInt changeLog rowIndex updateData user s ri d m :
  In (Write (opportunityWriter_updateOpportunity ri d m))
     (trace (snd (run (updateOpportunity env parseInt changeLog
                         rowIndex updateData user) s))) ->
  ri = rowIndex.
Proof.
  unfold run, updateOpportunity, _fetchOpportunities, _logOpportunityInteraction,
    invalidate_opportunities, find_row, as_array, CompanyService_v7_7.modifier_of,
    logged, bind, try_catch, call, ret, lift, throw.
  exec; intros Hin;
    repeat match goal with
           | H : _ \/ _ |- _ => destruct H as [H|H]
           | H : False |- _ => destruct H
           end;
    first [ discriminate | congruence ].
Qed.

(** The same for [deleteOpportunity]. *)
Lemma deleteOpportunity_row parseInt deletionNotice rowIndex user s w :
  In (Write w) (trace (snd (run (deleteOpportunity env parseInt deletionNotice
                                   rowIndex user) s))) ->
  exists l o,
    answer env sheetOpps s = Ok (DList l) /\ In o l
    /\ strict_eq (get o "rowIndex") (parseInt rowIndex) = true.
Proof.
  unfold run, deleteOpportunity, _fetchOpportunities, find_row, as_array, answer,
    bind, try_catch, call, ret, lift, throw.
  simpl.
  destruct (CompanyService_v7_7.modifier_of user) as [m|e]; simpl; [|intros []].
  destruct (respond env sheetOpps s) as [[d|e] s1]; simpl;
    [|intros [H|[]]; discriminate H].
  destruct d as [v|o|l]; simpl; try (intros [H|[]]; discriminate H).
  destruct (List.find _ l) as [o|] eqn:Ef; simpl;
    [|intros [H|[]]; discriminate H].
  intros _. exists l, o. apply find_some in Ef as [Hin Heq].
  repeat split; assumption.
Qed.

Lemma deleteOpportunity_address parseInt deletionNotice rowIndex user s ri m :
  In (Write (opportunityWriter_deleteOpportunity ri m))
     (trace (snd (run (deleteOpportunity env parseInt deletionNotice
                         rowIndex user) s))) ->
  ri = rowIndex.
Proof.
  unfold run, deleteOpportunity, _fetchOpportunities,
    invalidate_opportunities, find_row, as_array, CompanyService_v7_7.modifier_of,
    logged, bind, try_catch, call, ret, lift, throw.
  exec; intros Hin;
    repeat match goal with
           | H : _ \/ _ |- _ => destruct H as [H|H]
           | H : False |- _ => destruct H
           end;
    first [ discriminate | congruence ].
Qed.

(** The row and the type that [deleteEventLog] hands to the store are
    those of a log of the sheet. *)
Lemma deleteEventLog_row eventId user s ri ty :
  In (Write (eventWriter_deleteEventLog ri ty))
     (trace (snd (run (deleteEventLog env eventId user) s))) ->
  exists l o,
    answer env sheetEvents s = Ok (DList l) /\ In o l
    /\ strict_eq (get o "eventId") eventId = true
    /\ ri = get o "rowIndex" /\ ty = get o "eventType".
Proof.
  unfold run, deleteEventLog, deleteEvent, find_in, as_array, answer,
    bind, try_catch, call, ret, lift, throw.
  simpl.
  destruct (respond env sheetEvents s) as [[d|e] s1]; simpl;
    [|intros [H|[]]; discriminate H].
  destruct d as [v|o|l]; simpl; try (intros [H|[]]; discriminate H).
  destruct (List.find _ l) as [o|] eqn:Ef; simpl;
    [|intros [H|[]]; discriminate H].
  apply find_some in Ef as [Hin Heq].
  intros Hw. exists l, o.
  assert (Hhead : Write (eventWriter_deleteEventLog ri ty)
                  = Write (eventWriter_deleteEventLog (get o "rowIndex") (get o "eventType"))).
  { revert Hw.
    unfold _invalidateEventCacheSafe, bind, try_catch, call, ret.
    exec; intros Hw; simpl in Hw;
      repeat match goal with
             | H : _ \/ _ |- _ => destruct H as [H|H]
             | H : False |- _ => destruct H
             end;
      first [ symmetry; assumption | discriminate ]. }
  injection Hhead as -> ->. repeat split; assumption.
Qed.

(** The original of an update is a log of the list it was sought in. *)
Lemma locate_original_In StringToNumber logs key data o :
  locate_original StringToNumber logs key data = Ok (Some o) ->
  exists l, logs = DList l /\ In o l.
Proof.
  unfold locate_original, find_in, as_array.
  destruct logs as [v|x|l].
  - destruct (truthy (inputEventId data)); [discriminate|].
    destruct (isInteger _); discriminate.
  - destruct (truthy (inputEventId data)); [discriminate|].
    destruct (isInteger _); discriminate.
  - intros H. exists l. split; [reflexivity|].
    destruct (truthy (inputEventId data)).
    + destruct (List.find _ l) as [o'|] eqn:Ef.
      * injection H as <-. apply find_some in Ef as [Hin _]. exact Hin.
      * destruct (isInteger _); [|discriminate H].
        injection H as H. apply find_some in H as [Hin _]. exact Hin.
    + destruct (isInteger _); [|discriminate H].
      injection H as H. apply find_some in H as [Hin _]. exact Hin.
Qed.

(** The writes of [updateEventLog]: the delete of a move is addressed
    to the row and the type of a log of the read, the update in place
    to the row that the third step resolves from the key on the logs
    of the read. *)
Lemma updateEventLog_address StringToNumber key data modifier s w :
  In (Write w) (trace (snd (run (updateEventLog env StringToNumber
                                   key data modifier) s))) ->
  exists logs,
    answer env sheetEvents s = Ok logs
    /\ (forall ri ty,
          w = eventWriter_deleteEventLog ri ty ->
          exists l o, logs = DList l /\ In o l
                      /\ ri = get o "rowIndex" /\ ty = get o "eventType")
    /\ (forall ri d m,
          w = eventWriter_updateEventLog ri d m ->
          exists z, ri = VNum z
                    /\ resolve_rowIndex StringToNumber logs key = Ok z).
Proof.
  unfold run, updateEventLog, updateEvent, _invalidateEventCacheSafe, answer,
    bind, try_catch, call, ret, lift, throw.
  run_eq; intros Hin; simpl in Hin;
    repeat match goal with
           | H : _ \/ _ |- _ => destruct H as [H|H]
           | H : False |- _ => destruct H
           end;
    try discriminate;
    injection Hin as <-;
    match goal with
    | Hc : respond env sheetEvents s = (Ok ?logs, _) |- _ =>
      exists logs; split; [reflexivity|]
    end;
    (split;
     [ intros ri ty Hw;
       first
         [ discriminate Hw
         | injection Hw as <- <-;
           match goal with
           | Hl : locate_original _ _ _ _ = Ok (Some ?o) |- _ =>
             destruct (locate_original_In _ _ _ _ _ Hl) as (l & -> & Hino);
             exists l, o; repeat split; exact Hino
           end ]
     | intros ri d m Hw;
       first
         [ discriminate Hw
         | injection Hw as <- _ _;
           eexists; split; [reflexivity | assumption] ] ]).
Qed.

Lemma updateCompany_v7_7_trace companyName updateData user s
    (P : list Call -> Prop) :
  (forall t, writes_right_after_b companyReader_getCompanyList
               is_company_row_write t = true -> P t) ->
  P (trace (snd (run (CompanyService_v7_7.updateCompany env companyName
                        updateData user) s))).
Proof.
  intros HP.
  unfold run, CompanyService_v7_7.updateCompany, _findCompanyRowIndex,
    _getCompanyByName, _getAllCompanies, _logCompanyInteraction,
    invalidate_companyList, as_array, CompanyService_v7_7.modifier_of,
    logged, bind, try_catch, call, ret, lift, throw.
  exec; apply HP; reflexivity.
Qed.

Lemma deleteCompany_v7_7_trace companyName user s (P : list Call -> Prop) :
  (forall t, writes_right_after_b companyReader_getCompanyList
               is_company_row_write t = true -> P t) ->
  P (trace (snd (run (CompanyService_v7_7.deleteCompany env companyName user) s))).
Proof.
  intros HP.
  unfold run, CompanyService_v7_7.deleteCompany, _findCompanyRowIndex,
    invalidate_companyList, as_array,
    bind, try_catch, call, ret, lift, throw.
  exec; apply HP; reflexivity.
Qed.

(** The answers met on the way give the store of a replay. *)
Ltac replay_calls :=
  unfold answer, replay, after; cbn [removelast fold_left];
  repeat (match goal with
          | H : respond _ _ _ = _ |- _ => rewrite H
          end; cbn [fst snd]).

(** The row of the sheet behind a row index that was found. *)
Ltac found_row :=
  match goal with
  | Hn : _normalizeCompanyName ?name = Ok ?n,
    Hf : find_res (name_matches ?n) ?l = Ok (Some ?t),
    Ht : negb (truthy (get ?t "rowIndex")) = false
    |- exists pre' l' t', ?pre = (pre' ++ [sheetCompanies])%list /\ _ =>
    subst;
    exists (removelast pre), l, t;
    destruct (find_res_some _ _ _ Hf) as [Hin Hmatch];
    apply negb_false_iff in Ht;
    split; [reflexivity|];
    split; [replay_calls; reflexivity|];
    split; [exact Hin|];
    split; [reflexivity|];
    split; [exact Ht|];
    intros _ _; exists n; split; [reflexivity | exact Hf]
  end.

(** The write of the row-addressed [updateCompany] comes right after
    the read of the sheet, and carries the row index of a row that
    this read answered: for plain names, the first row whose name
    normalises to the same value as the name asked for. *)
Lemma updateCompany_v7_7_address companyName updateData user s pre ri d m post :
  trace (snd (run (CompanyService_v7_7.updateCompany env companyName
                     updateData user) s))
  = (pre ++ Write (companyWriter_updateCompany ri d m) :: post)%list ->
  exists pre' l t,
    pre = (pre' ++ [sheetCompanies])%list
    /\ answer env sheetCompanies (replay env s pre') = Ok (DList l)
    /\ In t l
    /\ ri = get t "rowIndex"
    /\ truthy ri = true
    /\ (plain_name companyName = true ->
        Forall (fun x => plain_name (get x "companyName") = true) l ->
        exists n, _normalizeCompanyName companyName = Ok n
                  /\ find_res (name_matches n) l = Ok (Some t)).
Proof.
  unfold run, CompanyService_v7_7.updateCompany, _findCompanyRowIndex,
    _getCompanyByName, _getAllCompanies, _logCompanyInteraction,
    invalidate_companyList, as_array, CompanyService_v7_7.modifier_of,
    logged, bind, try_catch, call, ret, lift, throw.
  run_eq; intros E; split_trace E pre; found_row.
Qed.

(** The same for the row-addressed [deleteCompany]. *)
Lemma deleteCompany_v7_7_address companyName user s pre ri post :
  trace (snd (run (CompanyService_v7_7.deleteCompany env companyName user) s))
  = (pre ++ Write (companyWriter_deleteCompany ri) :: post)%list ->
  exists pre' l t,
    pre = (pre' ++ [sheetCompanies])%list
    /\ answer env sheetCompanies (replay env s pre') = Ok (DList l)
    /\ In t l
    /\ ri = get t "rowIndex"
    /\ truthy ri = true
    /\ (plain_name companyName = true ->
        Forall (fun x => plain_name (get x "companyName") = true) l ->
        exists n, _normalizeCompanyName companyName = Ok n
                  /\ find_res (name_matches n) l = Ok (Some t)).
Proof.
  unfold run, CompanyService_v7_7.deleteCompany, _findCompanyRowIndex,
    invalidate_companyList, as_array,
    bind, try_catch, call, ret, lift, throw.
  run_eq; intros E; split_trace E pre; found_row.
Qed.

End Traces.

(** C4, as stated, fails for announcements: the lookup of the row is
    the SQL-first [_fetchInternal].  When SQL serves the announcement
    the sheet reader is never called: the lookup ends on the row of
    SQL, which is refused when it has no row index, and written to
    when it carries one. *)
Lemma updateAnnouncement_takes_row_from_sql :
  run (updateAnnouncement (env_of announcements_sql)
         (VStr (js "A1")) ∅ user_amy) tt
  = (Throw (Error ForbiddenUpdate),
     {| store := tt; trace := [sqlAnnouncements] |})
  /\ run (updateAnnouncement (env_of announcements_sql_indexed)
            (VStr (js "A1")) ∅ user_amy) tt
     = (ok_undefined,
        {| store := tt;
           trace := [sqlAnnouncements;
                     Write (announcementWriter_updateAnnouncement
                              (VNum 7) ∅ (VStr (js "Amy")))] |})
  /\ ~ writes_follow announcementReader_getAnnouncements
         [sqlAnnouncements;
          Write (announcementWriter_updateAnnouncement (VNum 7) ∅ (VStr (js "Amy")))].
Proof.
  split; [reflexivity|].
  split; [reflexivity|].
  intros H.
  specialize (H [sqlAnnouncements] _ [] eq_refl).
  destruct H as [H|[]]. discriminate H.
Qed.

(** C4, amended.  In the update and delete of opportunities and of
    event logs, the SQL reader of the entity is never called and every
    write comes after the read of the sheet.  When the update or the
    delete of an opportunity writes, this read holds a row whose index
    is the number read from the [rowIndex] of the request, and the
    write to the opportunity sheet carries that [rowIndex].  The delete
    of an event log, and the delete that starts the move of an event
    log, hand the store the row and the type of a log of this read;
    the update of an event log in place is addressed to the row that
    the third step of [updateEventLog] resolves from the key on the
    logs of this read.  [_findCompanyRowIndex] reads the sheet and nothing
    else, and the row index it returns is the one of a row of that
    answer.  In the row-addressed update and delete of companies every
    write to the company sheet has the read of the sheet as the call
    just before it, and carries the row index of a row that this read
    answered: for plain names, the first row whose name normalises to
    the same value as the name asked for.
    (Announcements are not part of the statement: their update and
    delete take the row from the SQL-first [_fetchInternal] and rely
    on write protection.) *)
Theorem row_lookup_reads_sheet {S} (env : Env S) (s : S) :
  (forall parseInt changeLog rowIndex updateData user,
     let t := trace (snd (run (updateOpportunity env parseInt changeLog
                                 rowIndex updateData user) s)) in
     never_reads opportunitySqlReader_getOpportunities t
     /\ writes_follow opportunityReader_getOpportunities t)
  /\ (forall parseInt deletionNotice rowIndex user,
        let t := trace (snd (run (deleteOpportunity env parseInt deletionNotice
                                    rowIndex user) s)) in
        never_reads opportunitySqlReader_getOpportunities t
        /\ writes_follow opportunityReader_getOpportunities t)
  /\ (forall StringToNumber key data modifier,
        let t := trace (snd (run (updateEventLog env StringToNumber
                                    key data modifier) s)) in
        never_reads eventLogSqlReader_getEventLogs t
        /\ writes_follow eventReader_getEventLogs t)
  /\ (forall eventId user,
        let t := trace (snd (run (deleteEventLog env eventId user) s)) in
        never_reads eventLogSqlReader_getEventLogs t
        /\ writes_follow eventReader_getEventLogs t)
  /\ (forall parseInt changeLog rowIndex updateData user w,
        In (Write w) (trace (snd (run (updateOpportunity env parseInt changeLog
                                         rowIndex updateData user) s))) ->
        exists l o,
          answer env sheetOpps s = Ok (DList l) /\ In o l
          /\ strict_eq (get o "rowIndex") (parseInt rowIndex) = true
          /\ forall ri d m,
               w = opportunityWriter_updateOpportunity ri d m -> ri = rowIndex)
  /\ (forall parseInt deletionNotice rowIndex user w,
        In (Write w) (trace (snd (run (deleteOpportunity env parseInt deletionNotice
                                         rowIndex user) s))) ->
        exists l o,
          answer env sheetOpps s = Ok (DList l) /\ In o l
          /\ strict_eq (get o "rowIndex") (parseInt rowIndex) = true
          /\ forall ri m,
               w = opportunityWriter_deleteOpportunity ri m -> ri = rowIndex)
  /\ (forall eventId user ri ty,
        In (Write (eventWriter_deleteEventLog ri ty))
           (trace (snd (run (deleteEventLog env eventId user) s))) ->
        exists l o,
          answer env sheetEvents s = Ok (DList l) /\ In o l
          /\ strict_eq (get o "eventId") eventId = true
          /\ ri = get o "rowIndex" /\ ty = get o "eventType")
  /\ (forall companyName,
        trace (snd (run (_findCompanyRowIndex env companyName) s)) = [sheetCompanies])
  /\ (forall companyName ri w,
        run (_findCompanyRowIndex env companyName) s = (Ok ri, w) ->
        exists l t,
          answer env sheetCompanies s = Ok (DList l) /\ In t l
          /\ ri = get t "rowIndex" /\ truthy ri = true)
  /\ (forall companyName updateData user,
        writes_right_after companyReader_getCompanyList is_company_row_write
          (trace (snd (run (CompanyService_v7_7.updateCompany env companyName
                              updateData user) s))))
  /\ (forall companyName user,
        writes_right_after companyReader_getCompanyList is_company_row_write
          (trace (snd (run (CompanyService_v7_7.deleteCompany env companyName
                              user) s))))
  /\ (forall companyName updateData user pre ri d m post,
        trace (snd (run (CompanyService_v7_7.updateCompany env companyName
                           updateData user) s))
        = (pre ++ Write (companyWriter_updateCompany ri d m) :: post)%list ->
        exists pre' l t,
          pre = (pre' ++ [sheetCompanies])%list
          /\ answer env sheetCompanies (replay env s pre') = Ok (DList l)
          /\ In t l
          /\ ri = get t "rowIndex"
          /\ truthy ri = true
          /\ (plain_name companyName = true ->
              Forall (fun x => plain_name (get x "companyName") = true) l ->
              exists n, _normalizeCompanyName companyName = Ok n
                        /\ find_res (name_matches n) l = Ok (Some t)))
  /\ (forall companyName user pre ri post,
        trace (snd (run (CompanyService_v7_7.deleteCompany env companyName
                           user) s))
        = (pre ++ Write (companyWriter_deleteCompany ri) :: post)%list ->
        exists pre' l t,
          pre = (pre' ++ [sheetCompanies])%list
          /\ answer env sheetCompanies (replay env s pre') = Ok (DList l)
          /\ In t l
          /\ ri = get t "rowIndex"
          /\ truthy ri = true
          /\ (plain_name companyName = true ->
              Forall (fun x => plain_name (get x "companyName") = true) l ->
              exists n, _normalizeCompanyName companyName = Ok n
                        /\ find_res (name_matches n) l = Ok (Some t)))
  /\ (forall StringToNumber key data modifier w,
        In (Write w) (trace (snd (run (updateEventLog env StringToNumber
                                         key data modifier) s))) ->
        exists logs,
          answer env sheetEvents s = Ok logs
          /\ (forall ri ty,
                w = eventWriter_deleteEventLog ri ty ->
                exists l o, logs = DList l /\ In o l
                            /\ ri = get o "rowIndex" /\ ty = get o "eventType")
          /\ (forall ri d m,
                w = eventWriter_updateEventLog ri d m ->
                exists z, ri = VNum z
                          /\ resolve_rowIndex StringToNumber logs key = Ok z)).
Proof.
  assert (Hboth : forall sql sheet t,
             never_reads_b sql t && writes_follow_b sheet t = true ->
             never_reads sql t /\ writes_follow sheet t).
  { intros sql sheet t H. apply andb_prop in H as [H1 H2].
    split; [apply never_reads_b_sound, H1 | apply writes_follow_b_sound, H2]. }
  repeat match goal with |- _ /\ _ => split end.
  - intros. apply updateOpportunity_trace, Hboth.
  - intros. apply deleteOpportunity_trace, Hboth.
  - intros. apply updateEventLog_trace, Hboth.
  - intros. apply deleteEventLog_trace, Hboth.
  - intros parseInt changeLog rowIndex updateData user w Hin.
    destruct (updateOpportunity_row env _ _ _ _ _ _ _ Hin) as (l & o & Hl & Ho & Heq).
    exists l, o. repeat split; try assumption.
    intros ri d m ->. eapply updateOpportunity_address, Hin.
  - intros parseInt deletionNotice rowIndex user w Hin.
    destruct (deleteOpportunity_row env _ _ _ _ _ _ Hin) as (l & o & Hl & Ho & Heq).
    exists l, o. repeat split; try assumption.
    intros ri m ->. eapply deleteOpportunity_address, Hin.
  - intros *. apply deleteEventLog_row.
  - intros. apply findCompanyRowIndex_trace.
  - intros companyName ri w H. eapply findCompanyRowIndex_row, H.
  - intros. apply updateCompany_v7_7_trace, writes_right_after_b_sound.
  - intros. apply deleteCompany_v7_7_trace, writes_right_after_b_sound.
  - intros *. apply updateCompany_v7_7_address.
  - intros *. apply deleteCompany_v7_7_address.
  - intros *. apply updateEventLog_address.
Qed.

(** The amended C4 on a sample store: the company found in the sheet
    gives its row index. *)
Lemma row_lookup_reads_sheet_witness :
  exists l t,
    answer (env_of companies_sql) sheetCompanies tt = Ok (DList l) /\ In t l
    /\ VNum 3 = get t "rowIndex" /\ truthy (VNum 3) = true.
Proof.
  exact (proj1 (proj2 (proj2 (proj2 (proj2 (proj2 (proj2 (proj2 (proj2
           (row_lookup_reads_sheet (env_of companies_sql) tt)))))))))
           (VStr (js "公司")) (VNum 3)
           {| store := tt; trace := [sheetCompanies] |} eq_refl).
Defined.

End RowResolution.

(** ** Update of an event log *)

Section EventUpdate.

Import EventLogService Examples.

Lemma modifier_of_proxy modifier :
  modifier_of_user (Some (proxy_user modifier)) = modifier ||| VStr (js "System").
Proof.
  unfold modifier_of_user, proxy_user, get_opt. get_field.
  unfold or_else. destruct (truthy modifier) eqn:E; simpl; rewrite ?E; reflexivity.
Qed.

Lemma move_payload_eventId data original :
  get (move_payload data original) "eventId" = get original "eventId".
Proof.
  unfold move_payload.
  destruct (negb _ && _); get_field; reflexivity.
Qed.

Lemma move_payload_createdTime data original :
  truthy (get data "createdTime") = false ->
  truthy (get original "createdTime") = true ->
  get (move_payload data original) "createdTime" = get original "createdTime".
Proof.
  intros Hd Ho. unfold move_payload. get_field. rewrite Hd, Ho. simpl.
  get_field. reflexivity.
Qed.

Section Runs.
Context {S : Type} (env : Env S) (StringToNumber : JsString.t -> Num).

(** The calls of [_invalidateEventCacheSafe] are not writes, and it
    never throws. *)
Lemma invalidateEventCacheSafe_run (w : World S) :
  exists s' tail,
    _invalidateEventCacheSafe env w
    = (Ok tt, {| store := s'; trace := trace w ++ tail |})
    /\ no_write tail.
Proof.
  destruct w as [s t].
  unfold _invalidateEventCacheSafe, bind, try_catch, call, ret; simpl.
  destruct (has_eventReader_invalidateCache (wiring env)); simpl.
  - destruct (respond env (Invalidate eventReader (js "eventLogs")) s) as [[d|e] s'];
      simpl; exists s', [Invalidate eventReader (js "eventLogs")];
      (split; [reflexivity | repeat constructor]).
  - destruct (has_eventReader_cache (wiring env)); simpl.
    + destruct (respond env (ResetCache eventReader) s) as [[d|e] s'];
        simpl; exists s', [ResetCache eventReader];
        (split; [reflexivity | repeat constructor]).
    + exists s, []. rewrite app_nil_r. split; [reflexivity | constructor].
Qed.

(** C2, amended.  When the original record is located, both event
    types are non-empty and differ, and the key resolves to an
    integer row index, the update deletes the original row under its
    original type and row index, then creates a record that carries
    the identity of the original, and its creation time when the
    update has none and the original has one; when both store calls
    return, the result is flagged [moved]. *)
Theorem category_change_moves_record (s s1 s2 s3 : S) (logs : Data) (key : Val)
    (data original : Obj) (modifier : Val) (z : Z) (deleted created : Data) :
  respond env sheetEvents s = (Ok logs, s1) ->
  locate_original StringToNumber logs key (Some data) = Ok (Some original) ->
  resolve_rowIndex StringToNumber logs key = Ok z ->
  truthy (get original "eventType") = true ->
  truthy (get data "eventType") = true ->
  strict_eq (get data "eventType") (get original "eventType") = false ->
  respond env (Write (eventWriter_deleteEventLog
                        (get original "rowIndex") (get original "eventType"))) s1
  = (Ok deleted, s2) ->
  respond env (Write (eventWriter_createEventLog
                        (move_payload data original) modifier)) s2
  = (Ok created, s3) ->
  (exists s4 tail,
     run (updateEventLog env StringToNumber key (Some data) modifier) s
     = (Ok (Moved created),
        {| store := s4;
           trace := [sheetEvents;
                     Write (eventWriter_deleteEventLog
                              (get original "rowIndex") (get original "eventType"));
                     Write (eventWriter_createEventLog
                              (move_payload data original) modifier)] ++ tail |})
     /\ no_write tail)
  /\ moved (Moved created) = VBool true
  /\ get (move_payload data original) "eventId" = get original "eventId"
  /\ (truthy (get data "createdTime") = false ->
      truthy (get original "createdTime") = true ->
      get (move_payload data original) "createdTime" = get original "createdTime").
Proof.
  intros Hread Hloc Hres Ho Hd Hne Hdel Hcre.
  split; [|split; [reflexivity|split;
    [apply move_payload_eventId | apply move_payload_createdTime]]].
  destruct (invalidateEventCacheSafe_run
              {| store := s3;
                 trace := [sheetEvents;
                           Write (eventWriter_deleteEventLog
                                    (get original "rowIndex") (get original "eventType"));
                           Write (eventWriter_createEventLog
                                    (move_payload data original) modifier)] |})
    as (s4 & tail & Hinv & Htail).
  exists s4, tail. split; [|exact Htail].
  unfold run, updateEventLog, bind, try_catch, call, lift, ret, category_changes.
  simpl. rewrite Hread. simpl. rewrite Hloc, Hres. simpl.
  rewrite Hd, Ho, Hne. simpl. rewrite Hdel. simpl. rewrite Hcre. simpl.
  rewrite Hinv. reflexivity.
Qed.

(** An original located through the row of the key comes with a key
    that resolves. *)
Lemma row_key_resolves logs key data original :
  truthy (inputEventId data) = false ->
  locate_original StringToNumber logs key data = Ok (Some original) ->
  exists z, Number StringToNumber key = NInt z
            /\ resolve_rowIndex StringToNumber logs key = Ok z.
Proof.
  intros Hid. unfold locate_original, resolve_rowIndex. rewrite Hid.
  destruct (Number StringToNumber key) as [z| |] eqn:En; simpl; try discriminate.
  intros _. exists z. rewrite andb_false_r, En. split; reflexivity.
Qed.

Lemma locate_original_list l key data :
  exists o, locate_original StringToNumber (DList l) key data = Ok o.
Proof.
  unfold locate_original, find_in; simpl.
  destruct (truthy (inputEventId data)); simpl.
  - destruct (List.find _ l); [eexists; reflexivity|].
    destruct (isInteger _); eexists; reflexivity.
  - destruct (isInteger _); eexists; reflexivity.
Qed.

(** C6, amended.  The original record is the first one whose
    [eventId] is the id of the payload, whatever the key; without
    such a record it is the first one whose row index is the integer
    the key converts to; a key that is a string without numeric
    value and names no event with a row index raises the not-found
    error before any write; a key that converts to an integer and
    locates nothing raises no error: the update primitive of the
    store is called with that row index. *)
Theorem original_record_resolution (s s1 : S) (l : list Obj) (key : Val)
    (data : option Obj) (modifier : Val) :
  (forall o,
     truthy (inputEventId data) = true ->
     List.find (fun r => strict_eq (get r "eventId") (inputEventId data)) l = Some o ->
     locate_original StringToNumber (DList l) key data = Ok (Some o))
  /\ (truthy (inputEventId data) = false
      \/ List.find (fun r => strict_eq (get r "eventId") (inputEventId data)) l = None ->
      locate_original StringToNumber (DList l) key data
      = Ok (match Number StringToNumber key with
            | NInt c =>
              List.find (fun r => num_eq (Number StringToNumber (get r "rowIndex"))
                                    (NInt c)) l
            | _ => None
            end))
  /\ (respond env sheetEvents s = (Ok (DList l), s1) ->
      is_string key = true ->
      Number StringToNumber key = NNaN ->
      (forall t, List.find (fun r => strict_eq (get r "eventId") key) l = Some t ->
                 truthy (get t "rowIndex") = false) ->
      run (updateEventLog env StringToNumber key data modifier) s
      = (Throw (Error (EventUpdateNotFound key)),
         {| store := s1; trace := [sheetEvents] |})
      /\ is_not_found (Error (EventUpdateNotFound key)) = true)
  /\ (forall z,
      respond env sheetEvents s = (Ok (DList l), s1) ->
      Number StringToNumber key = NInt z ->
      locate_original StringToNumber (DList l) key data = Ok None ->
      exists w tail,
        run (updateEventLog env StringToNumber key data modifier) s
        = (match answer env (Write (eventWriter_updateEventLog (VNum z) data
                                      (modifier_of_user (Some (proxy_user modifier)))))
                   s1 with
           | Ok r => Ok (Updated r)
           | Throw e => Throw e
           end, w)
        /\ trace w
           = [sheetEvents;
              Write (eventWriter_updateEventLog (VNum z) data
                       (modifier_of_user (Some (proxy_user modifier))))] ++ tail).
Proof.
  repeat match goal with |- _ /\ _ => split end.
  - intros o Hid Hfind. unfold locate_original, find_in; simpl.
    rewrite Hid, Hfind. reflexivity.
  - intros H. unfold locate_original, find_in; simpl.
    assert (Hnone :
      (if truthy (inputEventId data)
       then Ok (List.find
                  (fun r => strict_eq (get r "eventId") (inputEventId data)) l)
       else Ok None) = (Ok None : Res (option Obj))).
    { destruct H as [-> | ->]; [reflexivity|].
      destruct (truthy (inputEventId data)); reflexivity. }
    rewrite Hnone.
    destruct (Number StringToNumber key); reflexivity.
  - intros Hread Hstr Hnan Hmiss. split; [|reflexivity].
    destruct (locate_original_list l key data) as [o Ho].
    unfold run, updateEventLog, bind, try_catch, call, lift, ret.
    simpl. rewrite Hread. simpl. rewrite Ho. simpl.
    unfold resolve_rowIndex, find_in; simpl. rewrite Hstr, Hnan. simpl.
    destruct (List.find (fun r => strict_eq (get r "eventId") key) l) as [t|] eqn:Ef;
      [rewrite (Hmiss t eq_refl)|]; reflexivity.
  - intros z Hread Hnum Hloc.
    assert (Hres : resolve_rowIndex StringToNumber (DList l) key = Ok z).
    { unfold resolve_rowIndex. rewrite Hnum. simpl.
      rewrite andb_false_r. rewrite Hnum. reflexivity. }
    unfold run, updateEventLog, updateEvent, bind, try_catch, call, lift, ret,
      throw, answer.
    simpl. rewrite Hread. simpl. rewrite Hloc, Hres. simpl.
    destruct (respond env (Write (eventWriter_updateEventLog (VNum z) data
                (modifier_of_user (Some (proxy_user modifier))))) s1)
      as [[r|e] s2] eqn:Ew; simpl.
    + destruct (invalidateEventCacheSafe_run
                  {| store := s2;
                     trace := [sheetEvents;
                               Write (eventWriter_updateEventLog (VNum z) data
                                 (modifier_of_user (Some (proxy_user modifier))))] |})
        as (s4 & tail & Hinv & _).
      rewrite Hinv. simpl. eexists _, tail. split; reflexivity.
    + eexists _, []. split; reflexivity.
Qed.

End Runs.

(** C2, as stated, fails when the key does not resolve: the payload
    names event E1, whose type differs from the new one, but the key
    names no event; the update throws after the read, and neither a
    delete nor a create is made. *)
Lemma move_needs_resolvable_key :
  locate_original decimal (DList [event_E1]) (VStr (js "zzz")) (Some to_call_E1)
  = Ok (Some event_E1)
  /\ truthy (get event_E1 "eventType") = true
  /\ truthy (get to_call_E1 "eventType") = true
  /\ strict_eq (get to_call_E1 "eventType") (get event_E1 "eventType") = false
  /\ run (updateEventLog (env_of events_sheet) decimal (VStr (js "zzz"))
            (Some to_call_E1) (VStr (js "Amy"))) tt
     = (Throw (Error (EventUpdateNotFound (VStr (js "zzz")))),
        {| store := tt; trace := [sheetEvents] |}).
Proof. repeat split. Qed.

(** The amended C2 on the scenario of the specification: event E1 of
    type Meeting at row 5, updated to type Call under key 5. *)
Lemma category_change_moves_record_witness :
  (exists s4 tail,
     run (updateEventLog (env_of events_sheet) decimal (VNum 5)
            (Some to_call) (VStr (js "Amy"))) tt
     = (Ok (Moved (DObj (<[ "success" := VBool true ]> ∅))),
        {| store := s4;
           trace := [sheetEvents;
                     Write (eventWriter_deleteEventLog
                              (get event_E1 "rowIndex") (get event_E1 "eventType"));
                     Write (eventWriter_createEventLog
                              (move_payload to_call event_E1) (VStr (js "Amy")))]
                    ++ tail |})
     /\ no_write tail)
  /\ moved (Moved (DObj (<[ "success" := VBool true ]> ∅))) = VBool true
  /\ get (move_payload to_call event_E1) "eventId" = get event_E1 "eventId"
  /\ (truthy (get to_call "createdTime") = false ->
      truthy (get event_E1 "createdTime") = true ->
      get (move_payload to_call event_E1) "createdTime" = get event_E1 "createdTime").
Proof.
  refine (category_change_moves_record (env_of events_sheet) decimal tt tt tt tt
            (DList [event_E1]) (VNum 5) to_call event_E1 (VStr (js "Amy")) 5
            (DVal VUndef) (DObj (<[ "success" := VBool true ]> ∅))
            _ _ _ _ _ _ _ _); reflexivity.
Defined.

(** The scenario, call by call. *)
Lemma event_move_scenario :
  run (updateEventLog (env_of events_sheet) decimal (VNum 5)
         (Some to_call) (VStr (js "Amy"))) tt
  = (Ok (Moved (DObj (<[ "success" := VBool true ]> ∅))),
     {| store := tt;
        trace := [sheetEvents;
                  Write (eventWriter_deleteEventLog (VNum 5) (VStr (js "Meeting")));
                  Write (eventWriter_createEventLog
                           (move_payload to_call event_E1) (VStr (js "Amy")));
                  Invalidate eventReader (js "eventLogs")] |})
  /\ get (move_payload to_call event_E1) "eventId" = VStr (js "E1")
  /\ get (move_payload to_call event_E1) "eventType" = VStr (js "Call")
  /\ get (move_payload to_call event_E1) "createdTime"
     = VStr (js "2026-01-01T00:00:00Z").
Proof. repeat split. Qed.

(** With the id as the key and no id in the payload, the original is
    not located and the update is made in place. *)
Lemma id_key_updates_in_place :
  locate_original decimal (DList [event_E1]) (VStr (js "E1")) (Some to_call) = Ok None
  /\ run (updateEventLog (env_of events_sheet) decimal (VStr (js "E1"))
            (Some to_call) (VStr (js "Amy"))) tt
     = (Ok (Updated (DVal VUndef)),
        {| store := tt;
           trace := [sheetEvents;
                     Write (eventWriter_updateEventLog (VNum 5) (Some to_call)
                              (VStr (js "Amy")));
                     Invalidate eventReader (js "eventLogs")] |}).
Proof. repeat split. Qed.

(** C6, as stated, fails for a numeric key that matches no row:
    neither the id nor the row index resolves to a record, and no
    error is raised; the update primitive is called with row 99. *)
Lemma unresolved_row_reaches_writer :
  locate_original decimal (DList [event_E1]) (VNum 99) (Some retitle) = Ok None
  /\ run (updateEventLog (env_of events_sheet) decimal (VNum 99)
            (Some retitle) (VStr (js "Amy"))) tt
     = (Ok (Updated (DVal VUndef)),
        {| store := tt;
           trace := [sheetEvents;
                     Write (eventWriter_updateEventLog (VNum 99) (Some retitle)
                              (VStr (js "Amy")));
                     Invalidate eventReader (js "eventLogs")] |}).
Proof. repeat split. Qed.

(** The amended C6 on sample logs: the id of the payload wins over the
    row of the key; an unknown id as key is not found; an unknown row
    as key reaches the writer. *)
Lemma original_record_resolution_witness :
  locate_original decimal (DList [event_E1; event_E2]) (VNum 6) (Some to_call_E1)
  = Ok (Some event_E1)
  /\ (run (updateEventLog (env_of events_sheet) decimal (VStr (js "zzz"))
             (Some retitle) (VStr (js "Amy"))) tt
      = (Throw (Error (EventUpdateNotFound (VStr (js "zzz")))),
         {| store := tt; trace := [sheetEvents] |})
      /\ is_not_found (Error (EventUpdateNotFound (VStr (js "zzz")))) = true)
  /\ (exists w tail,
        run (updateEventLog (env_of events_sheet) decimal (VNum 99)
               (Some retitle) (VStr (js "Amy"))) tt
        = (match answer (env_of events_sheet)
                   (Write (eventWriter_updateEventLog (VNum 99) (Some retitle)
                             (modifier_of_user (Some (proxy_user (VStr (js "Amy")))))))
                   tt with
           | Ok r => Ok (Updated r)
           | Throw e => Throw e
           end, w)
        /\ trace w
           = [sheetEvents;
              Write (eventWriter_updateEventLog (VNum 99) (Some retitle)
                       (modifier_of_user (Some (proxy_user (VStr (js "Amy"))))))]
             ++ tail).
Proof.
  split; [|split].
  - refine (proj1 (original_record_resolution (env_of events_sheet) decimal tt tt
                     [event_E1; event_E2] (VNum 6) (Some to_call_E1) (VStr (js "Amy")))
              event_E1 _ _); reflexivity.
  - refine (proj1 (proj2 (proj2
              (original_record_resolution (env_of events_sheet) decimal tt tt
                 [event_E1] (VStr (js "zzz")) (Some retitle) (VStr (js "Amy")))))
              _ _ _ _); try reflexivity.
    intros t H. discriminate H.
  - refine (proj2 (proj2 (proj2
              (original_record_resolution (env_of events_sheet) decimal tt tt
                 [event_E1] (VNum 99) (Some retitle) (VStr (js "Amy")))))
              99%Z _ _ _); reflexivity.
Defined.

End EventUpdate.

(** ** Normalisation *)

Section Normalisation.

Import CompanyService Examples.

(** C7, as stated, fails for the name normalisation: removing the
    suffix in the middle of the first name leaves a name that is a
    suffix itself, which a second pass removes. *)
Lemma normalizeCompanyName_not_idempotent :
  _normalizeCompanyName (VStr (js "公公司司")) = Ok (js "公司")
  /\ _normalizeCompanyName (VStr (js "公司")) = Ok []
  /\ js "公司" <> [].
Proof. repeat split. discriminate. Qed.

(** C7, amended.  The record-level mapping is idempotent on every raw
    record (and on a missing one).  The normalisation of a plain name
    gives a plain result, and a second pass gives this result back
    exactly when the word 公司 does not occur in it and it holds no
    parenthesis group: an opening parenthesis with a closing one after
    it on the same line. *)
Theorem normalization_idempotence :
  (forall raw, _toServiceDTO (_toServiceDTO raw) = _toServiceDTO raw)
  /\ (forall name y,
        plain_name name = true ->
        _normalizeCompanyName name = Ok y ->
        JsString.plain y = true
        /\ (_normalizeCompanyName (VStr y) = Ok y
            <-> JsString.has_suffix_word y = false
                /\ JsString.has_paren_group y = false)).
Proof.
  split.
  - intros [raw|]; simpl; [rewrite dto_idempotent|]; reflexivity.
  - intros name y Hplain Hn.
    unfold _normalizeCompanyName in Hn.
    destruct (truthy name) eqn:Ht; simpl in Hn.
    + destruct name as [| | | | |s]; try discriminate Hn.
      injection Hn as <-. split; [apply plain_normalizeName, Hplain|].
      rewrite <- normalizeName_fixed_iff.
      unfold _normalizeCompanyName.
      destruct (JsString.normalizeName s) as [|c r] eqn:E.
      * split; reflexivity.
      * simpl. split; [intros H; injection H as H; exact H | intros ->; reflexivity].
    + injection Hn as <-. repeat split.
Qed.

(** The amended C7 on the two spellings of the specification, and on
    a name that ends in the second ideograph of 公司 alone. *)
Lemma normalization_idempotence_witness :
  _normalizeCompanyName (VStr (js "台灣科技")) = Ok (js "台灣科技")
  /\ _normalizeCompanyName (VStr (js "爭鮮壽司")) = Ok (js "爭鮮壽司")
  /\ _toServiceDTO (_toServiceDTO (Some company_A)) = _toServiceDTO (Some company_A).
Proof.
  split; [|split].
  - exact (proj2 (proj2 (proj2 normalization_idempotence
                           (VStr (js "台灣科技(Taiwan)")) (js "台灣科技")
                           eq_refl eq_refl))
             (conj eq_refl eq_refl)).
  - exact (proj2 (proj2 (proj2 normalization_idempotence
                           (VStr (js "爭鮮壽司")) (js "爭鮮壽司")
                           eq_refl eq_refl))
             (conj eq_refl eq_refl)).
  - exact (proj1 normalization_idempotence (Some company_A)).
Defined.

End Normalisation.

(** ** Lookup of a company by name *)

Section CompanyLookup.

Import CompanyService Examples.










End CompanyLookup.

(** ** Links between contacts and opportunities *)

Section LinkedContacts.

Import OpportunityService ContactService Examples.

Lemma safeGet_insert_other obj k v keys :
  ~ In k keys -> safeGet (<[k := v]> obj) keys = safeGet obj keys.
Proof.
  induction keys as [|k' keys IH]; intros Hn; simpl; [reflexivity|].
  rewrite get_insert_ne by (intros ->; apply Hn; left; reflexivity).
  rewrite IH by (intros H; apply Hn; right; exact H).
  reflexivity.
Qed.

Lemma safeGet_status_absent (link : Obj) :
  link !! "status" = None -> link !! "linkStatus" = None -> link !! "state" = None ->
  safeGet link ["status"; "linkStatus"; "state"] = VUndef.
Proof.
  intros H1 H2 H3. simpl.
  rewrite (get_absent _ _ H1), (get_absent _ _ H2), (get_absent _ _ H3).
  reflexivity.
Qed.

(** In [getOpportunityDetails] a link without status is selected
    exactly when the same link marked active is. *)
Lemma link_selected_tolerates_missing_status opportunityId (link : Obj) :
  link !! "status" = None -> link !! "linkStatus" = None -> link !! "state" = None ->
  link_selected opportunityId (<[ "status" := VStr (js "active") ]> link)
  = link_selected opportunityId link.
Proof.
  intros H1 H2 H3. unfold link_selected.
  rewrite (safeGet_insert_other link "status" _ ["opportunityId"; "oppId"; "opportunity_id"])
    by (simpl; intros [H|[H|[H|[]]]]; discriminate H).
  rewrite (safeGet_status_absent link H1 H2 H3).
  destruct (negb _); [reflexivity|].
  simpl safeGet. rewrite get_insert_eq. reflexivity.
Qed.

Lemma link_contact_ignores_status contacts (link : Obj) v :
  link_contact contacts (<[ "status" := v ]> link) = link_contact contacts link.
Proof.
  unfold link_contact.
  rewrite (safeGet_insert_other link "status" _ ["contactId"; "id"; "contact_id"])
    by (simpl; intros [H|[H|[H|[]]]]; discriminate H).
  rewrite (safeGet_insert_other link "status" _ ["linkId"; "id"; "rowId"; "rowIndex"])
    by (simpl; intros [H|[H|[H|[H|[]]]]]; discriminate H).
  reflexivity.
Qed.

(** The linked contacts of [getOpportunityDetails] do not change when
    a link without status is marked active. *)
Lemma linkedContactsFromCache_legacy_tolerance l1 (link : Obj) l2 contacts opportunityId :
  link !! "status" = None -> link !! "linkStatus" = None -> link !! "state" = None ->
  linkedContactsFromCache (l1 ++ <[ "status" := VStr (js "active") ]> link :: l2)
    contacts opportunityId
  = linkedContactsFromCache (l1 ++ link :: l2) contacts opportunityId.
Proof.
  intros H1 H2 H3. unfold linkedContactsFromCache.
  rewrite !List.filter_app, !omap_app. f_equal.
  simpl. rewrite (link_selected_tolerates_missing_status _ _ H1 H2 H3).
  destruct (link_selected opportunityId link); [|reflexivity].
  simpl. rewrite link_contact_ignores_status. reflexivity.
Qed.

(** C9 at the failing input: one link of opportunity OPP1 to contact
    C1, without status.  [getOpportunityDetails] lists the contact,
    as it does for the link marked active; [getLinkedContacts] lists
    it for the link marked active and returns the empty list for the
    link without status. *)
Theorem getLinkedContacts_drops_link_without_status :
  link_legacy !! "status" = None
  /\ linkedContactsFromCache [link_legacy] [contact_C1] (VStr (js "OPP1"))
     = [<[ "linkId" := VUndef ]> contact_C1]
  /\ linkedContactsFromCache [link_active] [contact_C1] (VStr (js "OPP1"))
     = [<[ "linkId" := VUndef ]> contact_C1]
  /\ fst (run (getLinkedContacts (env_of (contacts_with link_active))
                 (VStr (js "OPP1"))) tt)
     = Ok [linked_view [] (_mapOfficialContact [] (_mapSqlContact contact_C1))]
  /\ fst (run (getLinkedContacts (env_of (contacts_with link_legacy))
                 (VStr (js "OPP1"))) tt)
     = Ok [].
Proof. repeat split. Qed.

End LinkedContacts.

(** * Further properties *)

Lemma no_write_In (t : list Call) (w : WriteOp) : no_write t -> In (Write w) t -> False.
Proof.
  unfold no_write. intros H Hin.
  apply List.Forall_forall with (x := Write w) in H; [discriminate H | exact Hin].
Qed.

(** ** Company names *)

Section NameFacts.

Import JsString.

(** X1.  On a plain name, one whose code units are of Latin-1 or of
    the CJK blocks, the name normalisation does not depend on the
    letter case of the name nor on blanks around it; its result has
    no blank at either end and is never longer than the name. *)
Theorem normalizeName_invariances (s : JsString.t) :
  plain s = true ->
  normalizeName (toLowerCase s) = normalizeName s
  /\ normalizeName (trim s) = normalizeName s
  /\ trim (normalizeName s) = normalizeName s
  /\ length (normalizeName s) <= length s.
Proof.
  intros _. repeat split.
  - unfold normalizeName. rewrite toLowerCase_idem. reflexivity.
  - unfold normalizeName. rewrite <- trim_lower, trim_idem. reflexivity.
  - unfold normalizeName. apply trim_idem.
  - unfold normalizeName, removeParens, removeSuffixes.
    pose proof (length_trim
      (removeParens_from 0 (removeSuffixes_from 0 (trim (toLowerCase s))))).
    pose proof (length_removeParens_from
      (removeSuffixes_from 0 (trim (toLowerCase s))) 0).
    pose proof (length_removeSuffixes_from (trim (toLowerCase s)) 0).
    pose proof (length_trim (toLowerCase s)).
    unfold toLowerCase in *. rewrite length_map in *. lia.
Qed.

(** X1 on a name in capitals with blanks around it. *)
Lemma normalizeName_invariances_witness :
  normalizeName (toLowerCase (lit " ACME (TW) ")) = normalizeName (lit " ACME (TW) ")
  /\ normalizeName (trim (lit " ACME (TW) ")) = normalizeName (lit " ACME (TW) ")
  /\ trim (normalizeName (lit " ACME (TW) ")) = normalizeName (lit " ACME (TW) ")
  /\ length (normalizeName (lit " ACME (TW) ")) <= length (lit " ACME (TW) ").
Proof. exact (normalizeName_invariances (lit " ACME (TW) ") eq_refl). Defined.

End NameFacts.

(** ** Shape of a company DTO *)

Section DtoShape.

Import CompanyService.

Lemma or_empty_cases x : truthy (x ||| VStr []) = true \/ x ||| VStr [] = VStr [].
Proof.
  unfold or_else. destruct (truthy x) eqn:E; [left; exact E | right; reflexivity].
Qed.

(** X2.  Whatever the raw row holds, its DTO has the same fourteen
    properties, and each of the thirteen text fields is either a truthy
    value or the empty string: a missing, [null], [0] or [false] field
    of the row comes out as the empty string, never as [undefined]. *)
Theorem dto_shape (raw : Obj) :
  dom (dto raw) = list_to_set ("rowIndex" :: dto_text_fields)
  /\ Forall (fun k => truthy (get (dto raw) k) = true \/ get (dto raw) k = VStr [])
            dto_text_fields.
Proof.
  split.
  - unfold dto. rewrite !dom_insert_L, dom_empty_L.
    unfold dto_text_fields. simpl. set_solver.
  - pose proof (dto_reads raw) as H.
    unfold dto_text_fields.
    repeat (apply Forall_cons; split;
            [ repeat match type of H with _ /\ _ =>
                let E := fresh in destruct H as [E H]; try (rewrite E; apply or_empty_cases)
              end | ]).
    constructor.
Qed.

End DtoShape.

(** ** Reads that never reject *)

Section FailSafeReads.

Import EventLogService ContactService ContactQueries Examples.

(** X3. [getAllEvents] is a read that cannot fail: whatever the wiring
    and whatever the four readers answer, it returns a list, and its
    calls are reads only (no write, no cache refresh). *)
Theorem getAllEvents_never_rejects {S} (env : Env S) (s : S) :
  (exists l, fst (run (getAllEvents env) s) = Ok l)
  /\ no_write (trace (snd (run (getAllEvents env) s)))
  /\ no_invalidation (trace (snd (run (getAllEvents env) s))).
Proof.
  unfold no_write, no_invalidation.
  unfold run, getAllEvents, as_array, all2, logged, bind, try_catch, call, ret,
    lift, throw.
  exec; (split; [eexists; reflexivity | split; repeat constructor]).
Qed.

(** X4. The fail-safe reads of the contact service:
    [getAllOfficialContacts], [getLinkedContacts] and
    [getDashboardStats] always return a value and never write; when
    the raw reader is not wired or fails, the counters are all zero. *)
Theorem contact_reads_never_reject {S} (env : Env S) (s : S) (opportunityId : Val) :
  ((exists l, fst (run (getAllOfficialContacts env) s) = Ok l)
   /\ no_write (trace (snd (run (getAllOfficialContacts env) s))))
  /\ ((exists l, fst (run (getLinkedContacts env opportunityId) s) = Ok l)
      /\ no_write (trace (snd (run (getLinkedContacts env opportunityId) s))))
  /\ ((exists st, fst (run (getDashboardStats env) s) = Ok st)
      /\ no_write (trace (snd (run (getDashboardStats env) s))))
  /\ (has_contactRawReader (wiring env) = false
      \/ (forall l, answer env (Read contactRawReader_getContacts) s <> Ok (DList l)) ->
      fst (run (getDashboardStats env) s)
      = Ok {| total := 0; pending := 0; processed := 0; dropped := 0 |}).
Proof.
  unfold no_write.
  split; [|split; [|split]].
  - unfold run, getAllOfficialContacts, _fetchOfficialContactsWithCompanies,
      as_array, logged, bind, try_catch, call, ret, lift, throw.
    exec; (split; [eexists; reflexivity | repeat constructor]).
  - unfold run, getLinkedContacts, all3, all2, _fetchOfficialContactsWithCompanies,
      as_array, logged, bind, try_catch, call, ret, lift, throw.
    exec; (split; [eexists; reflexivity | repeat constructor]).
  - unfold run, getDashboardStats, as_array, logged, bind, try_catch, call, ret, lift, throw.
    exec; (split; [eexists; reflexivity | repeat constructor]).
  - unfold answer, run, getDashboardStats, as_array, logged, bind, try_catch, call, ret, lift, throw.
    intros [Hw | Hr].
    + rewrite Hw. reflexivity.
    + simpl. destruct (has_contactRawReader (wiring env)); simpl; [|reflexivity].
      destruct (respond env (Read contactRawReader_getContacts) s) as [r s'].
      simpl in Hr. destruct r as [d|e]; [|reflexivity].
      destruct d as [v|o|l]; try reflexivity.
      exfalso. exact (Hr l eq_refl).
Qed.

(** The scenario of X4: the raw reader answers [undefined]. *)
Lemma contact_reads_never_reject_witness :
  fst (run (getDashboardStats (env_of companies_sql)) tt)
  = Ok {| total := 0; pending := 0; processed := 0; dropped := 0 |}.
Proof.
  refine (proj2 (proj2 (proj2
            (contact_reads_never_reject (env_of companies_sql) tt VUndef))) _).
  right. intros l H. discriminate H.
Defined.

End FailSafeReads.

(** ** The official contacts *)

Section OfficialContacts.

Import ContactService ContactQueries Examples.


(** X5. Routing of [_fetchOfficialContactsWithCompanies].  A forced
    sheet read never calls the SQL reader.  When the SQL reader
    answers with anything but a non-empty array, or throws something
    other than [null] and [undefined], the read continues exactly as
    a forced sheet read would from the state SQL left.  When the SQL
    reader rejects with [null] or [undefined], logging the message
    fails: the read throws a [TypeError] and no sheet is read.
    Without the core reader the fallback fails before any sheet is
    read. *)
Theorem contact_fetch_routing {S} (env : Env S) (s s1 : S) (r : Res Data) :
  never_reads contactSqlReader_getContacts
    (trace (snd (run (_fetchOfficialContactsWithCompanies env true) s)))
  /\ (has_contactSqlReader (wiring env) = true ->
      respond env (Read contactSqlReader_getContacts) s = (r, s1) ->
      soft_failure r = true ->
      nullish_rejection r = false ->
      run (_fetchOfficialContactsWithCompanies env false) s
      = _fetchOfficialContactsWithCompanies env true
          {| store := s1; trace := [Read contactSqlReader_getContacts] |})
  /\ (has_contactSqlReader (wiring env) = true ->
      respond env (Read contactSqlReader_getContacts) s = (r, s1) ->
      nullish_rejection r = true ->
      run (_fetchOfficialContactsWithCompanies env false) s
      = (Throw TypeError,
         {| store := s1; trace := [Read contactSqlReader_getContacts] |}))
  /\ (has_contactCoreReader (wiring env) = false ->
      run (_fetchOfficialContactsWithCompanies env true) s
      = (Throw (Error ContactCoreFallbackMissing), {| store := s; trace := [] |})).
Proof.
  split; [|split; [|split]].
  - apply never_reads_b_sound.
    unfold run, _fetchOfficialContactsWithCompanies, as_array, logged, bind, try_catch,
      call, ret, lift, throw.
    exec; reflexivity.
  - intros Hw Hr Hsoft Hnull.
    unfold run, _fetchOfficialContactsWithCompanies, as_array, logged,
      error_message, bind, try_catch, call, ret, lift, throw.
    rewrite Hw. simpl. rewrite Hr. simpl.
    destruct r as [d|[m| |[]]]; try discriminate Hnull; try reflexivity.
    destruct d as [v|o|l].
    + destruct (truthy v); reflexivity.
    + destruct (strict_eq (get o "length") (VNum 0)); reflexivity.
    + destruct l; [reflexivity | discriminate Hsoft].
  - intros Hw Hr Hnull.
    unfold run, _fetchOfficialContactsWithCompanies, as_array, logged,
      error_message, bind, try_catch, call, ret, lift, throw.
    rewrite Hw. simpl. rewrite Hr. simpl.
    destruct r as [d|[m| |[]]]; try discriminate Hnull; reflexivity.
  - intros Hw.
    unfold run, _fetchOfficialContactsWithCompanies, logged, bind, try_catch, ret, throw.
    simpl. rewrite Hw. reflexivity.
Qed.

(** The scenario of X5: SQL has no contact yet, the sheet has one. *)
Lemma contact_fetch_routing_witness :
  run (_fetchOfficialContactsWithCompanies (env_of contacts_lag) false) tt
  = _fetchOfficialContactsWithCompanies (env_of contacts_lag) true
      {| store := tt; trace := [Read contactSqlReader_getContacts] |}.
Proof.
  exact (proj1 (proj2 (contact_fetch_routing (env_of contacts_lag) tt tt
                         (Ok (DList []))))
           eq_refl eq_refl eq_refl eq_refl).
Defined.

Lemma get_mapOfficialContact m c k :
  k <> "companyName" -> get (_mapOfficialContact m c) k = get c k.
Proof.
  intros Hk. unfold _mapOfficialContact, get.
  rewrite lookup_insert_ne by congruence. reflexivity.
Qed.

Lemma get_mapSqlContact c k :
  k <> "position" -> get (_mapSqlContact c) k = get c k.
Proof.
  intros Hk. unfold _mapSqlContact, get.
  rewrite lookup_insert_ne by congruence. reflexivity.
Qed.

Lemma Forall2_map_same {A B} (f : A -> B) (P : A -> B -> Prop) (l : list A) :
  (forall a, P a (f a)) -> Forall2 P l (List.map f l).
Proof. intros H. induction l; constructor; auto. Qed.

(** X6. The join with the company list keeps every contact: the
    result has one record per contact of the source that served (the
    SQL rows or the core sheet), in the same order, and each record
    differs from its source row in [companyName] and [position] at
    most. *)
Theorem contact_join_keeps_contacts {S} (env : Env S) (forceSheet : bool) (s : S)
    (out : list Obj) (w : World S) :
  run (_fetchOfficialContactsWithCompanies env forceSheet) s = (Ok out, w) ->
  exists (c : ReadOp) (s0 : S) (src : list Obj),
    (c = contactSqlReader_getContacts \/ c = contactCoreReader_getContactList)
    /\ In (Read c) (trace w)
    /\ answer env (Read c) s0 = Ok (DList src)
    /\ Forall2 (fun row o =>
                  forall k, k <> "companyName" -> k <> "position" ->
                            get o k = get row k)
               src out.
Proof.
  unfold run, _fetchOfficialContactsWithCompanies, as_array, logged, bind,
    try_catch, call, ret, lift, throw, answer.
  run_eq; intros H; try discriminate H; injection H as <- <-;
    match goal with
    | H : respond env (Read contactCoreReader_getContactList) ?s0
          = (Ok (DList ?src), _) |- _ =>
      exists contactCoreReader_getContactList, s0, src;
      split; [right; reflexivity|];
      split; [simpl; tauto|];
      split; [rewrite H; reflexivity|];
      apply Forall2_map_same; intros ? k Hk _;
      apply get_mapOfficialContact, Hk
    | H : respond env (Read contactSqlReader_getContacts) ?s0
          = (Ok (DList ?src), _) |- _ =>
      exists contactSqlReader_getContacts, s0, src;
      split; [left; reflexivity|];
      split; [simpl; tauto|];
      split; [rewrite H; reflexivity|];
      constructor;
      [ intros k Hk Hp; rewrite get_mapOfficialContact by exact Hk;
        apply get_mapSqlContact, Hp
      | rewrite List.map_map; apply Forall2_map_same; intros ? k Hk Hp;
        rewrite get_mapOfficialContact by exact Hk;
        apply get_mapSqlContact, Hp ]
    end.
Qed.

(** The scenario of X6: the sheet serves one contact. *)
Lemma contact_join_keeps_contacts_witness :
  exists (c : ReadOp) (s0 : unit) (src : list Obj),
    (c = contactSqlReader_getContacts \/ c = contactCoreReader_getContactList)
    /\ In (Read c) [Read contactSqlReader_getContacts;
                    Read contactCoreReader_getContactList;
                    Read companyReader_getCompanyList]
    /\ answer (env_of contacts_lag) (Read c) s0 = Ok (DList src)
    /\ Forall2 (fun row o =>
                  forall k, k <> "companyName" -> k <> "position" ->
                            get o k = get row k)
               src [_mapOfficialContact [(VStr (js "COM1"), VStr (js "台灣科技"))] contact_C1].
Proof.
  refine (contact_join_keeps_contacts (env_of contacts_lag) false tt
            [_mapOfficialContact [(VStr (js "COM1"), VStr (js "台灣科技"))] contact_C1]
            {| store := tt;
               trace := [Read contactSqlReader_getContacts;
                         Read contactCoreReader_getContactList;
                         Read companyReader_getCompanyList] |} _).
  reflexivity.
Defined.

End OfficialContacts.

(** ** Companies: delete and create *)

Section CompanyWrites.

Import CompanyService Examples.

(** X7. Version 7.7 of [deleteCompany]: while an opportunity names the
    company as its customer (names compared after normalisation), the
    delete is refused with the count and the first opportunity's name,
    after the one read of the opportunity sheet and before any other
    call; and the delete primitive of the sheet is only ever called
    after that read answered a list without such an opportunity. *)
Theorem deleteCompany_needs_no_opportunity {S} (env : Env S) (s : S)
    (companyName : Val) (user : Data) :
  (forall l s1 o rest,
     respond env sheetOpps s = (Ok (DList l), s1) ->
     filter_res (CompanyService_v7_7.opp_of_company companyName) l = Ok (o :: rest) ->
     run (CompanyService_v7_7.deleteCompany env companyName user) s
     = (Throw (Error (CompanyHasOpportunities (length (o :: rest))
                        (get o "opportunityName"))),
        {| store := s1; trace := [sheetOpps] |}))
  /\ (forall ri,
        In (Write (companyWriter_deleteCompany ri))
           (trace (snd (run (CompanyService_v7_7.deleteCompany env companyName user) s))) ->
        exists l,
          answer env sheetOpps s = Ok (DList l)
          /\ filter_res (CompanyService_v7_7.opp_of_company companyName) l = Ok []).
Proof.
  split.
  - intros l s1 o rest Hr Hf.
    unfold run, CompanyService_v7_7.deleteCompany, as_array, logged, bind, try_catch,
      call, ret, lift, throw.
    simpl. rewrite Hr. simpl. rewrite Hf. reflexivity.
  - intros ri.
    unfold run, CompanyService_v7_7.deleteCompany, CompanyService_v7_7._findCompanyRowIndex,
      invalidate_companyList, as_array, logged, bind, try_catch, call, ret, lift, throw, answer.
    run_eq; intros H; simpl in H;
      try (exfalso; intuition discriminate);
      (eexists; split; [reflexivity | eassumption]).
Qed.

(** The scenario of X7: one opportunity of the company. *)
Lemma deleteCompany_needs_no_opportunity_witness :
  run (CompanyService_v7_7.deleteCompany (env_of company_with_opportunity)
         (VStr (js "台灣科技股份有限公司")) user_amy) tt
  = (Throw (Error (CompanyHasOpportunities 1 (VStr (js "導入案")))),
     {| store := tt; trace := [sheetOpps] |}).
Proof.
  refine (proj1 (deleteCompany_needs_no_opportunity (env_of company_with_opportunity) tt
                   (VStr (js "台灣科技股份有限公司")) user_amy)
            [opportunity_O1] tt opportunity_O1 [] _ _); reflexivity.
Defined.

(** X8. Version 7.8 of [deleteCompany], over any delete of the SQL
    store.  An unknown company is refused before the opportunities are
    read; a company with a related opportunity is refused after that
    read; in both cases the store's delete does not run.  Otherwise
    the delete is addressed by the [companyId] of the company found by
    its normalised name, and a service without SQL writer fails with a
    [TypeError]. *)
Theorem deleteCompany_by_id_guards {S} (env : Env S)
    (sql_deleteCompany : Val -> M S Data) (s : S) (companyName : Val) (user : Data)
    (w1 : World S) :
  (run (_getCompanyByName env companyName) s = (Ok None, w1) ->
   run (CompanyService_v7_8.deleteCompany env sql_deleteCompany companyName user) s
   = (Throw (Error (CompanyNotFound companyName)), w1))
  /\ (forall info l s2 related,
        run (_getCompanyByName env companyName) s = (Ok (Some info), w1) ->
        respond env sheetOpps (store w1) = (Ok (DList l), s2) ->
        filter_res (CompanyService_v7_7.opp_of_company companyName) l = Ok related ->
        let w2 := {| store := s2; trace := trace w1 ++ [sheetOpps] |} in
        run (CompanyService_v7_8.deleteCompany env sql_deleteCompany companyName user) s
        = match related with
          | o :: _ =>
            (Throw (Error (CompanyHasOpportunities (length related)
                             (get o "opportunityName"))), w2)
          | [] =>
            if has_companySqlWriter (wiring env)
            then (result <- sql_deleteCompany (get info "companyId") ;;
                  invalidate_companyList env ;;;
                  ret result) w2
            else (Throw TypeError, w2)
          end).
Proof.
  split.
  - intros H.
    unfold run, CompanyService_v7_8.deleteCompany, logged, bind, try_catch, throw in *.
    rewrite H. reflexivity.
  - intros info l s2 related H Hr Hf w2.
    unfold run, CompanyService_v7_8.deleteCompany, as_array, logged, bind, try_catch,
      call, lift, throw, ret in *.
    rewrite H. simpl. rewrite Hr. simpl. rewrite Hf.
    destruct related as [|o rest]; [|reflexivity].
    destruct (has_companySqlWriter (wiring env)); simpl; [|reflexivity].
    subst w2. destruct (sql_deleteCompany (get info "companyId") _) as [r w3].
    destruct r as [d|e]; [|reflexivity].
    destruct (invalidate_companyList env w3) as [r' w4].
    destruct r'; reflexivity.
Qed.

(** The scenario of X8: a company without opportunity is deleted by
    its id, whatever the spelling of the request. *)
Lemma deleteCompany_by_id_guards_witness :
  run (CompanyService_v7_8.deleteCompany (env_marks company_without_opportunity) mark_delete
         (VStr (js "台灣科技(Taiwan)")) user_amy) []
  = ((result <- mark_delete (get (dto company_A) "companyId") ;;
      invalidate_companyList (env_marks company_without_opportunity) ;;;
      ret result)
       {| store := []; trace := [sqlCompanies] ++ [sheetOpps] |}).
Proof.
  refine (proj2 (deleteCompany_by_id_guards (env_marks company_without_opportunity) mark_delete []
                   (VStr (js "台灣科技(Taiwan)")) user_amy
                   {| store := []; trace := [sqlCompanies] |})
            (dto company_A) [] [] [] _ _ _).
  - exact eq_refl.
  - exact eq_refl.
  - exact eq_refl.
Defined.

Lemma createCompany_written_row {S} (env : Env S) (s : S)
    (companyName : Val) (companyData : option Obj) (user : Data)
    (row : Obj) (modifier : Data) :
  In (Write (companySqlWriter_createCompany row modifier))
     (trace (snd (run (createCompany env companyName companyData user) s))) ->
  exists s0 generated,
    creator_of user = Ok modifier
    /\ answer env (Host fresh_company_id) s0 = Ok generated
    /\ row = default ∅ companyData
             ∪ <[ "companyId" := val_of generated ]>
                 (<[ "companyName" := companyName ]> ∅).
Proof.
  unfold run, createCompany, _getCompanyByName, _getAllCompanies,
    invalidate_companyList, as_array, logged, bind, try_catch, call, ret, lift, throw, answer.
  run_eq; intros H; simpl in H;
    repeat match goal with
           | H : _ \/ _ |- _ => destruct H as [H|H]
           end;
    try discriminate; try contradiction;
    injection H as <- <-;
    match goal with
    | Hc : respond env (Host fresh_company_id) ?s0 = (Ok ?d, _) |- _ =>
      exists s0, d; split; [reflexivity|]; split; [rewrite Hc|]; reflexivity
    end.
Qed.

(** X9. The row that [createCompany] hands to the SQL writer: every
    field of [companyData] is written as given, also [companyId] and
    [companyName]; the name of the request and the generated id are
    written only where [companyData] has no such field.  The modifier
    is the one derived from the user. *)
Theorem createCompany_row_prefers_companyData {S} (env : Env S) (s : S)
    (companyName : Val) (companyData : option Obj) (user : Data)
    (row : Obj) (modifier : Data) :
  In (Write (companySqlWriter_createCompany row modifier))
     (trace (snd (run (createCompany env companyName companyData user) s))) ->
  creator_of user = Ok modifier
  /\ (forall k v, default ∅ companyData !! k = Some v -> row !! k = Some v)
  /\ (default ∅ companyData !! "companyName" = None ->
      row !! "companyName" = Some companyName)
  /\ (exists s0 generated,
        answer env (Host fresh_company_id) s0 = Ok generated
        /\ (default ∅ companyData !! "companyId" = None ->
            row !! "companyId" = Some (val_of generated))).
Proof.
  intros H.
  apply createCompany_written_row in H as (s0 & generated & Hm & Hid & ->).
  split; [exact Hm|].
  split; [intros k v Hk; apply lookup_union_Some_l; exact Hk|].
  split.
  - intros Hk. rewrite lookup_union_r by exact Hk.
    rewrite lookup_insert_ne by discriminate. apply lookup_insert_eq.
  - exists s0, generated. split; [exact Hid|].
    intros Hk. rewrite lookup_union_r by exact Hk. apply lookup_insert_eq.
Qed.

(** The scenario of X9: the request names one company, its data
    another; the second name is written. *)
Lemma createCompany_row_prefers_companyData_witness :
  creator_of user_amy = Ok (DVal (VStr (js "Amy")))
  /\ (forall k v,
        default ∅ (Some renamed) !! k = Some v -> row_written !! k = Some v)
  /\ (default ∅ (Some renamed) !! "companyName" = None ->
      row_written !! "companyName" = Some (VStr (js "新創")))
  /\ (exists s0 generated,
        answer (env_of companies_sql) (Host fresh_company_id) s0 = Ok generated
        /\ (default ∅ (Some renamed) !! "companyId" = None ->
            row_written !! "companyId" = Some (val_of generated))).
Proof.
  refine (createCompany_row_prefers_companyData (env_of companies_sql) tt
            (VStr (js "新創")) (Some renamed) user_amy
            row_written (DVal (VStr (js "Amy"))) _).
  vm_compute. do 2 right. left. exact eq_refl.
Defined.

(** X10. A company service that was given no SQL writer cannot create:
    it never calls a writer nor refreshes a cache, it never returns a
    writer's result, and for a name that is not there yet it fails
    with the error of the missing writer. *)
Theorem createCompany_without_sql_writer {S} (env : Env S) (s : S)
    (companyName : Val) (companyData : option Obj) (user : Data) :
  has_companySqlWriter (wiring env) = false ->
  no_write (trace (snd (run (createCompany env companyName companyData user) s)))
  /\ no_invalidation (trace (snd (run (createCompany env companyName companyData user) s)))
  /\ (forall r, fst (run (createCompany env companyName companyData user) s)
                <> Ok (FromWriter r))
  /\ (forall m w1 id s2,
        creator_of user = Ok m ->
        run (_getCompanyByName env companyName) s = (Ok None, w1) ->
        respond env (Host fresh_company_id) (store w1) = (Ok id, s2) ->
        run (createCompany env companyName companyData user) s
        = (Throw (Error CompanySqlWriterNotInjected),
           {| store := s2; trace := trace w1 ++ [Host fresh_company_id] |})).
Proof.
  intros Hw. split; [|split; [|split]].
  - unfold no_write, run, createCompany, _getCompanyByName, _getAllCompanies,
      invalidate_companyList, as_array, logged, bind, try_catch, call, ret, lift, throw.
    rewrite Hw. run_eq; repeat constructor.
  - unfold no_invalidation, run, createCompany, _getCompanyByName, _getAllCompanies,
      invalidate_companyList, as_array, logged, bind, try_catch, call, ret, lift, throw.
    rewrite Hw. run_eq; repeat constructor.
  - intros r.
    unfold run, createCompany, _getCompanyByName, _getAllCompanies,
      invalidate_companyList, as_array, logged, bind, try_catch, call, ret, lift, throw.
    rewrite Hw. run_eq; discriminate.
  - intros m w1 id s2 Hm Hlook Hid.
    unfold run, createCompany, logged, bind, try_catch, call, ret, lift, throw in *.
    rewrite Hm. simpl. rewrite Hlook. simpl. rewrite Hid, Hw. reflexivity.
Qed.

(** The scenario of X10: a new name, no SQL writer. *)
Lemma createCompany_without_sql_writer_witness :
  run (createCompany (env_without_sql_writer companies_sql)
         (VStr (js "新創")) None user_amy) tt
  = (Throw (Error CompanySqlWriterNotInjected),
     {| store := tt; trace := [sqlCompanies] ++ [Host fresh_company_id] |}).
Proof.
  refine (proj2 (proj2 (proj2
            (createCompany_without_sql_writer (env_without_sql_writer companies_sql) tt
               (VStr (js "新創")) None user_amy _)))
            (DVal (VStr (js "Amy"))) {| store := tt; trace := [sqlCompanies] |}
            (DVal VUndef) tt _ _ _); reflexivity.
Defined.

End CompanyWrites.

(** ** Event log: writes *)

Section EventWrites.

Import EventLogService Examples.

(** X11. [updateEvent] and [deleteEvent] return exactly what the
    writer answered: a failure of the cache refresh is swallowed.  The
    cache is refreshed only after a write that succeeded; after a
    failed write the writer's call is the only call. *)
Theorem event_write_result_is_writers {S} (env : Env S) (s : S)
    (rowIndex eventType : Val) (data user : option Obj) :
  let upd := Write (eventWriter_updateEventLog rowIndex data (modifier_of_user user)) in
  let del := Write (eventWriter_deleteEventLog rowIndex eventType) in
  fst (run (updateEvent env rowIndex data user) s) = answer env upd s
  /\ fst (run (deleteEvent env rowIndex eventType user) s) = answer env del s
  /\ (forall e, answer env upd s = Throw e ->
                trace (snd (run (updateEvent env rowIndex data user) s)) = [upd])
  /\ (forall e, answer env del s = Throw e ->
                trace (snd (run (deleteEvent env rowIndex eventType user) s)) = [del])
  /\ writes_of (trace (snd (run (updateEvent env rowIndex data user) s)))
     = [eventWriter_updateEventLog rowIndex data (modifier_of_user user)]
  /\ writes_of (trace (snd (run (deleteEvent env rowIndex eventType user) s)))
     = [eventWriter_deleteEventLog rowIndex eventType].
Proof.
  intros upd del. subst upd del.
  unfold run, updateEvent, deleteEvent, _invalidateEventCacheSafe, answer,
    logged, bind, try_catch, call, ret, lift, throw.
  repeat split; try (intros e); run_eq; try reflexivity; try discriminate.
Qed.

(** The scenario of X11: the cache refresh throws, the update is
    reported as the writer answered it. *)
Lemma event_write_result_is_writers_witness :
  fst (run (updateEvent (env_of events_cache_broken) (VNum 5) (Some retitle) None) tt)
  = Ok (DObj (<[ "success" := VBool true ]> ∅)).
Proof.
  exact (proj1 (event_write_result_is_writers (env_of events_cache_broken) tt
                  (VNum 5) VUndef (Some retitle) None)).
Defined.

(** X12. The move of [updateEventLog] is not atomic.  When the old
    record has been deleted and the create is refused, the refusal is
    what the caller gets: the calls are the read, the delete and the
    create, nothing is written back and the cache is not refreshed.
    When the delete itself is refused the create is not tried. *)
Theorem move_is_not_atomic {S} (env : Env S) (StringToNumber : JsString.t -> Num)
    (s s1 s2 s3 : S) (logs : Data) (key : Val)
    (data original : Obj) (modifier : Val) (z : Z) (r : Res Data) (e : Exn) :
  respond env sheetEvents s = (Ok logs, s1) ->
  locate_original StringToNumber logs key (Some data) = Ok (Some original) ->
  resolve_rowIndex StringToNumber logs key = Ok z ->
  category_changes (Some original) (Some data) = true ->
  let del := Write (eventWriter_deleteEventLog
                      (get original "rowIndex") (get original "eventType")) in
  let cre := Write (eventWriter_createEventLog (move_payload data original) modifier) in
  respond env del s1 = (r, s2) ->
  respond env cre s2 = (Throw e, s3) ->
  run (updateEventLog env StringToNumber key (Some data) modifier) s
  = match r with
    | Ok _ => (Throw e, {| store := s3; trace := [sheetEvents; del; cre] |})
    | Throw e' => (Throw e', {| store := s2; trace := [sheetEvents; del] |})
    end.
Proof.
  intros Hread Hloc Hrow Hchg del cre Hdel Hcre. subst del cre.
  unfold run, updateEventLog, logged, bind, try_catch, call, ret, lift, throw.
  red_m. rewrite Hread. red_m. rewrite Hloc, Hrow. red_m.
  rewrite Hchg. red_m. rewrite Hdel. red_m.
  destruct r as [d|e']; [|reflexivity].
  rewrite Hcre. reflexivity.
Qed.

(** The scenario of X12: the event is deleted and not created again. *)
Lemma move_is_not_atomic_witness :
  run (updateEventLog (env_of events_create_fails) decimal (VNum 5)
         (Some to_call) (VStr (js "Amy"))) tt
  = (Throw (Rejected (VStr (js "quota"))),
     {| store := tt;
        trace := [sheetEvents;
                  Write (eventWriter_deleteEventLog
                           (get event_E1 "rowIndex") (get event_E1 "eventType"));
                  Write (eventWriter_createEventLog
                           (move_payload to_call event_E1) (VStr (js "Amy")))] |}).
Proof.
  refine (move_is_not_atomic (env_of events_create_fails) decimal tt tt tt tt
            (DList [event_E1]) (VNum 5) to_call event_E1 (VStr (js "Amy")) 5
            ok_undefined (Rejected (VStr (js "quota"))) _ _ _ _ _ _);
    exact eq_refl.
Defined.

(** X13. The store writes of one [updateEventLog], in order, are
    none, one in-place update, one delete, or one delete followed by
    one create: an in-place update is never mixed with a move.  The
    in-place update is addressed by an integer, and the records of a
    move are those of the original record. *)
Theorem updateEventLog_write_shapes {S} (env : Env S)
    (StringToNumber : JsString.t -> Num) (s : S) (key : Val)
    (data : option Obj) (modifier : Val) :
  let ws := writes_of (trace (snd (run (updateEventLog env StringToNumber
                                          key data modifier) s))) in
  ws = []
  \/ (exists z : Z,
        ws = [eventWriter_updateEventLog (VNum z) data
                (modifier_of_user (Some (proxy_user modifier)))])
  \/ (exists d o : Obj,
        data = Some d
        /\ (ws = [eventWriter_deleteEventLog (get o "rowIndex") (get o "eventType")]
            \/ ws = [eventWriter_deleteEventLog (get o "rowIndex") (get o "eventType");
                     eventWriter_createEventLog (move_payload d o) modifier])).
Proof.
  intros ws. subst ws.
  unfold run, updateEventLog, updateEvent, _invalidateEventCacheSafe,
    logged, bind, try_catch, call, ret, lift, throw.
  run_eq;
    first
      [ left; reflexivity
      | right; left; eexists; reflexivity
      | right; right; eexists _, _; split; [reflexivity|]; left; reflexivity
      | right; right; eexists _, _; split; [reflexivity|]; right; reflexivity ].
Qed.

(** X14. [deleteEventLog]: an id that the event sheet does not hold
    is refused after the one read, without a write; an id it holds is
    deleted as [deleteEvent] deletes the row and the category of the
    first record with that id. *)
Theorem deleteEventLog_resolves_by_id {S} (env : Env S) (s s1 : S)
    (l : list Obj) (eventId user : Val) :
  respond env sheetEvents s = (Ok (DList l), s1) ->
  run (deleteEventLog env eventId user) s
  = match List.find (fun r => strict_eq (get r "eventId") eventId) l with
    | None =>
      (Throw (Error (EventDeleteNotFound eventId)),
       {| store := s1; trace := [sheetEvents] |})
    | Some t =>
      deleteEvent env (get t "rowIndex") (get t "eventType")
        (Some (proxy_user user)) {| store := s1; trace := [sheetEvents] |}
    end.
Proof.
  intros Hread.
  unfold run, deleteEventLog, find_in, as_array, logged, bind, try_catch, call, ret, lift, throw.
  simpl. rewrite Hread. simpl.
  destruct (List.find _ l) as [t|]; [|reflexivity].
  destruct (deleteEvent env _ _ _ _) as [[d|e] w]; reflexivity.
Qed.

(** The scenario of X14: an unknown id. *)
Lemma deleteEventLog_resolves_by_id_witness :
  run (deleteEventLog (env_of events_sheet) (VStr (js "E9")) (VStr (js "Amy"))) tt
  = (Throw (Error (EventDeleteNotFound (VStr (js "E9")))),
     {| store := tt; trace := [sheetEvents] |}).
Proof.
  exact (deleteEventLog_resolves_by_id (env_of events_sheet) tt tt [event_E1]
           (VStr (js "E9")) (VStr (js "Amy")) eq_refl).
Defined.

(** X15. What [resolve_rowIndex] hands on is an integer that is either
    the key itself, read as a number, or the row index of the first
    event of the sheet whose id is the key; the second only for a key
    that is a string and does not read as a number. *)
Theorem resolved_row_is_key_or_row_of_id (StringToNumber : JsString.t -> Num)
    (l : list Obj) (key : Val) (z : Z) :
  resolve_rowIndex StringToNumber (DList l) key = Ok z ->
  Number StringToNumber key = NInt z
  \/ (is_string key = true
      /\ isNaN (Number StringToNumber key) = true
      /\ exists t,
           List.find (fun r => strict_eq (get r "eventId") key) l = Some t
           /\ truthy (get t "rowIndex") = true
           /\ Number StringToNumber (get t "rowIndex") = NInt z).
Proof.
  unfold resolve_rowIndex, find_in, as_array.
  destruct (is_string key && isNaN (Number StringToNumber key)) eqn:Hk.
  - apply andb_prop in Hk as [Hs Hn].
    destruct (List.find _ l) as [t|] eqn:Hf; [|discriminate].
    destruct (truthy (get t "rowIndex")) eqn:Ht; simpl; [|discriminate].
    destruct (Number StringToNumber (get t "rowIndex")) as [z'| |] eqn:Hz;
      try discriminate.
    intros H. injection H as ->. right.
    split; [exact Hs|]. split; [exact Hn|].
    exists t. split; [reflexivity|]. split; [exact Ht | exact Hz].
  - destruct (Number StringToNumber key) as [z'| |]; try discriminate.
    intros H. injection H as ->. left. reflexivity.
Qed.

(** The scenario of X15: the id of an event, as key. *)
Lemma resolved_row_is_key_or_row_of_id_witness :
  Number decimal (VStr (js "E1")) = NInt 5
  \/ (is_string (VStr (js "E1")) = true
      /\ isNaN (Number decimal (VStr (js "E1"))) = true
      /\ exists t,
           List.find (fun r => strict_eq (get r "eventId") (VStr (js "E1")))
             [event_E1; event_E2] = Some t
           /\ truthy (get t "rowIndex") = true
           /\ Number decimal (get t "rowIndex") = NInt 5).
Proof.
  exact (resolved_row_is_key_or_row_of_id decimal [event_E1; event_E2]
           (VStr (js "E1")) 5 eq_refl).
Defined.

End EventWrites.

(** ** Opportunities and announcements: writes *)

Section OpportunityWrites.

Import OpportunityService Examples.

(** What a handler that logs the message fails with, and on what. *)
Lemma error_message_throws e e' :
  error_message e = Throw e' ->
  e' = TypeError /\ nullish_rejection (Throw e) = true.
Proof.
  destruct e as [m| |[]]; simpl; intros H; try discriminate H;
    injection H as <-; split; reflexivity.
Qed.

(** The pure steps of the audit throw nothing but a [TypeError]. *)
Lemma as_array_throws d e : as_array d = Throw e -> e = TypeError.
Proof. destruct d; simpl; intros H; try discriminate H; injection H as <-; reflexivity. Qed.

Lemma same_company_throws o l e :
  find_res (same_company o) l = Throw e -> e = TypeError.
Proof.
  induction l as [|c l IH]; simpl; [discriminate|].
  destruct (same_company o c) as [[|]|e0] eqn:E; intros H; try discriminate H.
  - apply IH, H.
  - injection H as <-. unfold same_company in E.
    destruct (get c "companyName"), (get o "customerCompany");
      try discriminate E; injection E as <-; reflexivity.
Qed.

(** X16. The audit entries of the opportunity service are best
    effort.  Once [updateOpportunity] has reached the interaction
    writer, and once [deleteOpportunity] has started to look up the
    company of the deleted opportunity, the store's writer has
    answered, and the operation returns that answer whatever the
    audit does, with one exception: when a call of the audit rejects
    with [null] or [undefined], logging the message fails and the
    operation throws a [TypeError]. *)
Theorem opportunity_audit_is_best_effort {S} (env : Env S) (parseInt : Val -> Val)
    (changeLog : Data -> Obj -> Obj -> Res (option JsString.t))
    (deletionNotice : Obj -> Val -> JsString.t)
    (s : S) (rowIndex : Val) (updateData : Obj) (user : Data) :
  (forall entry,
     In (Write (interactionWriter_createInteraction entry))
        (trace (snd (run (updateOpportunity env parseInt changeLog
                            rowIndex updateData user) s))) ->
     exists r m s0,
       answer env (Write (opportunityWriter_updateOpportunity
                            rowIndex updateData m)) s0 = Ok r
       /\ (fst (run (updateOpportunity env parseInt changeLog
                       rowIndex updateData user) s) = Ok r
           \/ (fst (run (updateOpportunity env parseInt changeLog
                           rowIndex updateData user) s) = Throw TypeError
               /\ exists s1,
                    nullish_rejection
                      (answer env (Write (interactionWriter_createInteraction entry)) s1)
                    = true)))
  /\ (In (Read companyReader_getCompanyList)
         (trace (snd (run (deleteOpportunity env parseInt deletionNotice
                             rowIndex user) s))) ->
      exists r m s0,
        answer env (Write (opportunityWriter_deleteOpportunity rowIndex m)) s0 = Ok r
        /\ (fst (run (deleteOpportunity env parseInt deletionNotice
                        rowIndex user) s) = Ok r
            \/ (fst (run (deleteOpportunity env parseInt deletionNotice
                            rowIndex user) s) = Throw TypeError
                /\ exists c s1,
                     (c = Read companyReader_getCompanyList
                      \/ c = Host now_iso
                      \/ exists entry,
                           c = Write (interactionWriter_createInteraction entry))
                     /\ nullish_rejection (answer env c s1) = true))).
Proof.
  split; [intros entry|];
    unfold run, updateOpportunity, deleteOpportunity, _fetchOpportunities,
      _logOpportunityInteraction, invalidate_opportunities, answer,
      logged, bind, try_catch, call, ret, lift, throw;
    run_eq; intros H; simpl in H;
    try (exfalso; intuition discriminate);
    try match goal with
        | He : error_message _ = Throw _ |- _ => cbn in He; discriminate He
        | Hp : as_array _ = Throw ?e, He : error_message ?e = Throw _ |- _ =>
          rewrite (as_array_throws _ _ Hp) in He; discriminate He
        | Hp : find_res (same_company _) _ = Throw ?e,
          He : error_message ?e = Throw _ |- _ =>
          rewrite (same_company_throws _ _ _ Hp) in He; discriminate He
        end;
    repeat match goal with
           | H : _ \/ _ |- _ => destruct H as [H|H]
           end;
    try discriminate; try contradiction;
    try (injection H as <-);
    match goal with
    | Hc : respond env (Write (opportunityWriter_updateOpportunity _ _ ?m)) ?s0
           = (Ok ?r, _) |- _ =>
      exists r, m, s0; split; [rewrite Hc; reflexivity|]
    | Hc : respond env (Write (opportunityWriter_deleteOpportunity _ ?m)) ?s0
           = (Ok ?r, _) |- _ =>
      exists r, m, s0; split; [rewrite Hc; reflexivity|]
    end;
    first
      [ left; reflexivity
      | right;
        match goal with
        | He : error_message ?e = Throw _,
          Hi : respond env ?c ?s1 = (Throw ?e, _) |- _ =>
          destruct (error_message_throws _ _ He) as [-> Hnull];
          split; [reflexivity|];
          first [ exists s1; rewrite Hi; exact Hnull
                | exists c, s1; split;
                  [ first [ left; reflexivity
                          | right; left; reflexivity
                          | right; right; eexists; reflexivity ]
                  | rewrite Hi; exact Hnull ] ]
        end ].
Qed.

(** The scenario of X16: the opportunity moves from one stage to
    another, the interaction writer is down; the update and the
    delete succeed. *)
Lemma opportunity_audit_is_best_effort_witness :
  (exists r m s0,
     answer (env_of opportunities_audit_down)
       (Write (opportunityWriter_updateOpportunity (VNum 4) restage m)) s0 = Ok r
     /\ (fst (run (updateOpportunity (env_of opportunities_audit_down) parseInt_num
                    stage_log (VNum 4) restage user_amy) tt) = Ok r
         \/ (fst (run (updateOpportunity (env_of opportunities_audit_down) parseInt_num
                         stage_log (VNum 4) restage user_amy) tt) = Throw TypeError
             /\ exists s1,
                  nullish_rejection
                    (answer (env_of opportunities_audit_down)
                       (Write (interactionWriter_createInteraction
                          (<[ "opportunityId" := VStr (js "OPP1") ]>
                          (<[ "eventType" := VStr (js "系統事件") ]>
                          (<[ "eventTitle" := VStr (js "機會資料更新") ]>
                          (<[ "contentSummary" := VStr (js "階段從【Lead】更新為【Won】") ]>
                          (<[ "recorder" := VStr (js "Amy") ]>
                          (<[ "interactionTime" := VUndef ]> ∅)))))))) s1)
                  = true)))
  /\ (exists r m s0,
        answer (env_of opportunities_audit_down)
          (Write (opportunityWriter_deleteOpportunity (VNum 4) m)) s0 = Ok r
        /\ (fst (run (deleteOpportunity (env_of opportunities_audit_down) parseInt_num
                       notice (VNum 4) user_amy) tt) = Ok r
            \/ (fst (run (deleteOpportunity (env_of opportunities_audit_down)
                            parseInt_num notice (VNum 4) user_amy) tt)
                = Throw TypeError
                /\ exists c s1,
                     (c = Read companyReader_getCompanyList
                      \/ c = Host now_iso
                      \/ exists entry,
                           c = Write (interactionWriter_createInteraction entry))
                     /\ nullish_rejection
                          (answer (env_of opportunities_audit_down) c s1) = true))).
Proof.
  split.
  - refine (proj1 (opportunity_audit_is_best_effort (env_of opportunities_audit_down)
                     parseInt_num stage_log notice tt (VNum 4) restage user_amy)
              (<[ "opportunityId" := VStr (js "OPP1") ]>
               (<[ "eventType" := VStr (js "系統事件") ]>
               (<[ "eventTitle" := VStr (js "機會資料更新") ]>
               (<[ "contentSummary" := VStr (js "階段從【Lead】更新為【Won】") ]>
               (<[ "recorder" := VStr (js "Amy") ]>
               (<[ "interactionTime" := VUndef ]> ∅)))))) _).
    vm_compute. do 5 right. left. exact eq_refl.
  - refine (proj2 (opportunity_audit_is_best_effort (env_of opportunities_audit_down)
                     parseInt_num stage_log notice tt (VNum 4) restage user_amy) _).
    vm_compute. do 3 right. left. exact eq_refl.
Defined.

(** X17. A row index that the opportunity sheet does not hold is
    refused after the one read of the sheet: the configuration is not
    read and nothing is written.  What [updateOpportunity] sends to
    the store's writer is the row index as it was given, the update
    as it was given and the modifier derived from the user. *)
Theorem opportunity_row_not_found {S} (env : Env S) (parseInt : Val -> Val)
    (changeLog : Data -> Obj -> Obj -> Res (option JsString.t))
    (deletionNotice : Obj -> Val -> JsString.t)
    (s : S) (rowIndex : Val) (updateData : Obj) (user : Data) :
  (forall m l s1,
     CompanyService_v7_7.modifier_of user = Ok m ->
     respond env sheetOpps s = (Ok (DList l), s1) ->
     List.find (fun o => strict_eq (get o "rowIndex") (parseInt rowIndex)) l = None ->
     run (updateOpportunity env parseInt changeLog rowIndex updateData user) s
     = (Throw (Error (OpportunityUpdateNotFound rowIndex)),
        {| store := s1; trace := [sheetOpps] |})
     /\ run (deleteOpportunity env parseInt deletionNotice rowIndex user) s
        = (Throw (Error (OpportunityDeleteNotFound rowIndex)),
           {| store := s1; trace := [sheetOpps] |}))
  /\ (forall ri d m,
        In (Write (opportunityWriter_updateOpportunity ri d m))
           (trace (snd (run (updateOpportunity env parseInt changeLog
                               rowIndex updateData user) s))) ->
        ri = rowIndex /\ d = updateData
        /\ CompanyService_v7_7.modifier_of user = Ok m).
Proof.
  split.
  - intros m l s1 Hm Hread Hfind.
    unfold run, updateOpportunity, deleteOpportunity, _fetchOpportunities, find_row,
      as_array, logged, bind, try_catch, call, ret, lift, throw.
    rewrite Hm. cbn [fst snd store trace app negb andb]. rewrite Hread. red_m.
    rewrite Hfind. split; reflexivity.
  - intros ri d m.
    unfold run, updateOpportunity, _fetchOpportunities,
      _logOpportunityInteraction, invalidate_opportunities,
      logged, bind, try_catch, call, ret, lift, throw.
    run_eq; intros H; simpl in H;
      repeat match goal with
             | H : _ \/ _ |- _ => destruct H as [H|H]
             end;
      try discriminate; try contradiction;
      injection H as <- <- <-; repeat split; reflexivity.
Qed.

(** The scenario of X17: row 9 is not on the sheet. *)
Lemma opportunity_row_not_found_witness :
  run (updateOpportunity (env_of opportunities_log_down) parseInt_num one_line
         (VNum 9) restage user_amy) tt
  = (Throw (Error (OpportunityUpdateNotFound (VNum 9))),
     {| store := tt; trace := [sheetOpps] |})
  /\ run (deleteOpportunity (env_of opportunities_log_down) parseInt_num notice
            (VNum 9) user_amy) tt
     = (Throw (Error (OpportunityDeleteNotFound (VNum 9))),
        {| store := tt; trace := [sheetOpps] |}).
Proof.
  refine (proj1 (opportunity_row_not_found (env_of opportunities_log_down)
                   parseInt_num one_line notice tt (VNum 9) restage user_amy)
            (VStr (js "Amy")) [opportunity_O1] tt _ _ _); exact eq_refl.
Defined.

End OpportunityWrites.

Section AnnouncementWrites.

Import AnnouncementService Examples.

(** X18. Announcements are written by row.  An id that the source
    which served does not hold is refused without a write.  A write
    of [updateAnnouncement] or [deleteAnnouncement] is addressed to
    the truthy row index of the first record with that id in what
    [_fetchInternal] served, and carries the data as given. *)
Theorem announcement_write_addresses_found_row {S} (env : Env S) (s : S)
    (id : Val) (data : Obj) (user : Data) :
  (forall m all w1,
     modifierName_of user = Ok m ->
     run (_fetchInternal env) s = (Ok all, w1) ->
     find_by_id all id = Ok None ->
     run (updateAnnouncement env id data user) s
     = (Throw (Error (AnnouncementNotFound id)), w1)
     /\ run (deleteAnnouncement env id) s
        = (Throw (Error (AnnouncementNotFound id)), w1))
  /\ (forall ri d m,
        In (Write (announcementWriter_updateAnnouncement ri d m))
           (trace (snd (run (updateAnnouncement env id data user) s))) ->
        d = data /\ modifierName_of user = Ok m /\ truthy ri = true
        /\ exists all w1 t,
             run (_fetchInternal env) s = (Ok all, w1)
             /\ find_by_id all id = Ok (Some t) /\ ri = get t "rowIndex")
  /\ (forall ri,
        In (Write (announcementWriter_deleteAnnouncement ri))
           (trace (snd (run (deleteAnnouncement env id) s))) ->
        truthy ri = true
        /\ exists all w1 t,
             run (_fetchInternal env) s = (Ok all, w1)
             /\ find_by_id all id = Ok (Some t) /\ ri = get t "rowIndex").
Proof.
  split; [|split].
  - intros m all w1 Hm Hf Hfind.
    unfold run, updateAnnouncement, deleteAnnouncement, logged, bind, try_catch,
      lift, throw in *.
    rewrite Hm. red_m. rewrite Hf. red_m. rewrite Hfind. split; reflexivity.
  - intros ri d m.
    unfold run, updateAnnouncement, logged, bind, try_catch, call, ret, lift, throw.
    run_eq; intros H; try (simpl in H; contradiction);
      match goal with
      | Hf : _fetchInternal env _ = (_, ?w) |- _ =>
        let Hnw := fresh "Hnw" in
        assert (Hnw : no_write (trace (snd (_fetchInternal env
                                                {| store := s; trace := [] |}))))
          by (apply fetchInternal_no_write; constructor);
        rewrite Hf in Hnw; simpl in Hnw
      end.
    all: try (exfalso; exact (no_write_In _ _ Hnw H)).
    all: apply in_app_or in H; destruct H as [H|H];
      [ exfalso; exact (no_write_In _ _ Hnw H) |].
    all: simpl in H; destruct H as [H|[]]; injection H as <- <- <-.
    all: split; [reflexivity|]; split; [reflexivity|].
    all: split; [apply negb_false_iff; assumption|].
    all: eexists _, _, _; split; [reflexivity|]; split; [eassumption | reflexivity].
  - intros ri.
    unfold run, deleteAnnouncement, logged, bind, try_catch, call, ret, lift, throw.
    run_eq; intros H; try (simpl in H; contradiction);
      match goal with
      | Hf : _fetchInternal env _ = (_, ?w) |- _ =>
        let Hnw := fresh "Hnw" in
        assert (Hnw : no_write (trace (snd (_fetchInternal env
                                                {| store := s; trace := [] |}))))
          by (apply fetchInternal_no_write; constructor);
        rewrite Hf in Hnw; simpl in Hnw
      end.
    all: try (exfalso; exact (no_write_In _ _ Hnw H)).
    all: apply in_app_or in H; destruct H as [H|H];
      [ exfalso; exact (no_write_In _ _ Hnw H) |].
    all: simpl in H; destruct H as [H|[]]; injection H as <-.
    all: split; [apply negb_false_iff; assumption|].
    all: eexists _, _, _; split; [reflexivity|]; split; [eassumption | reflexivity].
Qed.

(** The scenario of X18: an id that the SQL source does not hold. *)
Lemma announcement_write_addresses_found_row_witness :
  run (updateAnnouncement (env_of announcements_sql_indexed) (VStr (js "A9")) retitle
         user_amy) tt
  = (Throw (Error (AnnouncementNotFound (VStr (js "A9")))),
     {| store := tt; trace := [sqlAnnouncements] |})
  /\ run (deleteAnnouncement (env_of announcements_sql_indexed) (VStr (js "A9"))) tt
     = (Throw (Error (AnnouncementNotFound (VStr (js "A9")))),
        {| store := tt; trace := [sqlAnnouncements] |}).
Proof.
  refine (proj1 (announcement_write_addresses_found_row (env_of announcements_sql_indexed)
                   tt (VStr (js "A9")) retitle user_amy)
            (VStr (js "Amy")) (DList [announcement_A1_row7])
            {| store := tt; trace := [sqlAnnouncements] |} _ _ _); exact eq_refl.
Defined.

End AnnouncementWrites.

(** ** Contacts: counters, search and pages *)

Section ContactQueriesFacts.

Import ContactService ContactQueries Examples.

Lemma strict_eq_str (v : Val) (s : JsString.t) :
  strict_eq v (VStr s) = true -> v = VStr s.
Proof.
  destruct v; simpl; intros H; try discriminate H;
    apply bool_decide_eq_true in H; exact H.
Qed.

Lemma status_classes_disjoint (c : Obj) :
  (is_pending c && is_processed c = false)
  /\ (is_pending c && is_dropped c = false)
  /\ (is_processed c && is_dropped c = false).
Proof.
  unfold is_pending, is_processed, is_dropped.
  split; [|split].
  - destruct (strict_eq (get c "status") (VStr (js "Processed"))) eqn:E;
      [|apply andb_false_r].
    apply strict_eq_str in E. rewrite E. vm_compute. reflexivity.
  - destruct (strict_eq (get c "status") (VStr (js "Dropped"))) eqn:E;
      [|apply andb_false_r].
    apply strict_eq_str in E. rewrite E. vm_compute. reflexivity.
  - destruct (strict_eq (get c "status") (VStr (js "Dropped"))) eqn:E;
      [|apply andb_false_r].
    apply strict_eq_str in E. rewrite E. vm_compute. reflexivity.
Qed.

Lemma three_counters (l : list Obj) :
  length (List.filter is_pending l) + length (List.filter is_processed l)
  + length (List.filter is_dropped l) <= length l.
Proof.
  induction l as [|c l IH]; simpl; [lia|].
  destruct (status_classes_disjoint c) as (H1 & H2 & H3).
  destruct (is_pending c), (is_processed c), (is_dropped c);
    simpl in *; try discriminate; lia.
Qed.

(** X19. The counters of [getDashboardStats]: a contact is counted
    in one of [pending], [processed] and [dropped] at most, so the
    three never add up to more than [total]; [total] is the number of
    contacts the raw reader served. *)
Theorem dashboard_counters_are_disjoint {S} (env : Env S) (s : S) :
  exists st,
    fst (run (getDashboardStats env) s) = Ok st
    /\ pending st + processed st + dropped st <= total st
    /\ (forall l,
          has_contactRawReader (wiring env) = true ->
          answer env (Read contactRawReader_getContacts) s = Ok (DList l) ->
          total st = length l
          /\ pending st
             = length (List.filter
                         (fun c => negb (truthy (get c "status"))
                                   || strict_eq (get c "status") (VStr (js "Pending"))) l)).
Proof.
  unfold run, getDashboardStats, as_array, answer, logged, bind, try_catch, call, ret, lift, throw.
  destruct (has_contactRawReader (wiring env)); red_m.
  - destruct (respond env (Read contactRawReader_getContacts) s) as [r s1]. red_m.
    destruct r as [d|e]; red_m.
    + destruct d as [v|o|l]; red_m;
        eexists; (split; [reflexivity|]); (split; [cbn; try lia|]);
        try (intros l' _ H; discriminate H).
      * apply three_counters.
      * intros l' _ H. injection H as <-. split; reflexivity.
    + eexists; split; [reflexivity|]; split; [cbn; lia|].
      intros l' _ H; discriminate H.
  - eexists; split; [reflexivity|]; split; [cbn; lia|].
    intros l' H; discriminate H.
Qed.

(** The scenario of X19: three contacts, one of each class. *)
Lemma dashboard_counters_are_disjoint_witness :
  exists st,
    fst (run (getDashboardStats (env_of raw_contacts)) tt) = Ok st
    /\ pending st + processed st + dropped st <= total st
    /\ (forall l,
          has_contactRawReader (wiring (env_of raw_contacts)) = true ->
          answer (env_of raw_contacts) (Read contactRawReader_getContacts) tt
          = Ok (DList l) ->
          total st = length l
          /\ pending st
             = length (List.filter
                         (fun c => negb (truthy (get c "status"))
                                   || strict_eq (get c "status") (VStr (js "Pending"))) l)).
Proof.
  exact (dashboard_counters_are_disjoint (env_of raw_contacts) tt).
Defined.

Lemma includes_nil s : includes s [] = true.
Proof. destruct s; reflexivity. Qed.

Lemma filter_res_sublist f (l out : list Obj) :
  filter_res f l = Ok out -> sublist out l /\ Forall (fun c => f c = Ok true) out.
Proof.
  revert out. induction l as [|x l IH]; intros out; simpl.
  - intros H. injection H as <-. split; constructor.
  - destruct (f x) as [b|e] eqn:Hx; [|discriminate].
    destruct (filter_res f l) as [r|e]; [|discriminate].
    destruct (IH r eq_refl) as [Hs Hf].
    intros H. injection H as <-.
    destruct b.
    + split; [apply sublist_skip, Hs | constructor; assumption].
    + split; [apply sublist_cons, Hs | assumption].
Qed.

Lemma JsString_lower_twice (q : JsString.t) :
  JsString.toLowerCase (JsString.toLowerCase q) = JsString.toLowerCase q.
Proof. apply toLowerCase_fixed, toLowerCase_lowered. Qed.

Lemma nonempty_lower (q : JsString.t) :
  truthy (VStr (JsString.toLowerCase q)) = truthy (VStr q).
Proof. destruct q; reflexivity. Qed.

(** X20. The search of the two contact lists.  An absent or empty
    query keeps every contact.  The case of the query does not
    matter.  What a query keeps is a sublist of the contacts, in
    their order, and each kept contact matches the lowered query in
    its name or in its company field. *)
Theorem search_keeps_matching_sublist (other : string) (q : JsString.t)
    (contacts : list Obj) :
  filter_by_query other VUndef contacts = Ok contacts
  /\ filter_by_query other (VStr []) contacts = Ok contacts
  /\ filter_by_query other (VStr (JsString.toLowerCase q)) contacts
     = filter_by_query other (VStr q) contacts
  /\ (forall out,
        filter_by_query other (VStr q) contacts = Ok out ->
        sublist out contacts
        /\ (q <> [] ->
            Forall (fun c =>
                      field_includes (get c "name") (JsString.toLowerCase q) = Ok true
                      \/ field_includes (get c other) (JsString.toLowerCase q) = Ok true)
                   out)).
Proof.
  split; [reflexivity|]. split; [reflexivity|]. split.
  - unfold filter_by_query. rewrite nonempty_lower.
    destruct (negb (truthy (VStr q))); [reflexivity|].
    rewrite JsString_lower_twice. reflexivity.
  - intros out. unfold filter_by_query.
    destruct q as [|u q]; simpl negb; cbv iota.
    + intros H. injection H as <-. split; [reflexivity | intros Hq; congruence].
    + intros H. apply filter_res_sublist in H as [Hs Hf].
      split; [exact Hs|]. intros _.
      eapply Forall_impl; [exact Hf|].
      intros c Hc. unfold matches_term in Hc.
      destruct (field_includes (get c "name") _) as [[|]|e] eqn:Hn;
        [left; reflexivity | right; exact Hc | discriminate Hc].
Qed.

(** The scenario of X20: a query in capitals. *)
Lemma search_keeps_matching_sublist_witness :
  sublist [contact_C1] [contact_C1; contact_C2]
  /\ (js "AMY" <> [] ->
      Forall (fun c =>
                field_includes (get c "name") (JsString.toLowerCase (js "AMY")) = Ok true
                \/ field_includes (get c "companyName") (JsString.toLowerCase (js "AMY"))
                   = Ok true)
             [contact_C1]).
Proof.
  refine (proj2 (proj2 (proj2
            (search_keeps_matching_sublist "companyName" (js "AMY")
               [contact_C1; contact_C2]))) [contact_C1] _).
  exact eq_refl.
Defined.

Lemma slice_from_zero {A} (l : list A) (start size : Z) :
  (0 <= start)%Z -> (0 < size)%Z ->
  slice l start (start + size) = firstn (Z.to_nat size) (skipn (Z.to_nat start) l).
Proof.
  intros Hs Hz. unfold slice.
  destruct (start <? 0)%Z eqn:E1; [apply Z.ltb_lt in E1; lia|].
  destruct (start + size <? 0)%Z eqn:E2; [apply Z.ltb_lt in E2; lia|].
  set (len := Z.of_nat (length l)).
  destruct (Z.le_gt_cases len start) as [Hle|Hgt].
  - rewrite (Z.min_r start len) by lia.
    rewrite (Z.min_r (start + size) len) by lia.
    replace (Z.to_nat (len - len)) with 0 by lia.
    rewrite !skipn_all2 by (unfold len in *; lia).
    rewrite !firstn_nil. reflexivity.
  - rewrite (Z.min_l start len) by lia.
    destruct (Z.le_gt_cases (start + size) len) as [Hle2|Hgt2].
    + rewrite (Z.min_l (start + size) len) by lia.
      f_equal. lia.
    + rewrite (Z.min_r (start + size) len) by lia.
      rewrite !firstn_all2; [reflexivity| |];
        rewrite length_skipn; unfold len in *; lia.
Qed.

Lemma pages_concat {A} (size : nat) (n : nat) :
  0 < size ->
  forall l : list A,
    length l <= n * size ->
    concat (List.map (fun i => firstn size (skipn (i * size) l)) (seq 0 n)) = l.
Proof.
  intros Hsize. induction n as [|n IH]; intros l Hl.
  - destruct l; [reflexivity | simpl in Hl; lia].
  - rewrite <- cons_seq, <- seq_shift, List.map_cons, List.map_map. cbn [concat].
    change (0 * size) with 0. cbn [skipn].
    transitivity (firstn size l ++ skipn size l); [|apply firstn_skipn].
    f_equal.
    rewrite (List.map_ext _ (fun i => firstn size (skipn (i * size) (skipn size l)))).
    + apply IH. rewrite length_skipn. lia.
    + intros i. rewrite skipn_skipn. do 2 f_equal. lia.
Qed.

(** X21. The pages of [searchOfficialContacts].  From page 1 on, a
    page holds at most [pageSize] contacts; the pages 1 to [total],
    one after the other, are the whole list, each contact once;
    [hasNext] says that the page is before the last one and [hasPrev]
    that it is after the first; a page after the last one is empty.
    Page 0 is empty as well. *)
Theorem pages_partition_the_list (contacts : list Obj) (pageSize : positive) :
  let pages := totalPages (paginate contacts 1 pageSize) in
  concat (List.map (fun p => data (paginate contacts (Z.of_nat p) pageSize))
            (seq 1 (Z.to_nat pages)))
  = contacts
  /\ (forall page,
        (1 <= page)%Z ->
        length (data (paginate contacts page pageSize)) <= Pos.to_nat pageSize
        /\ totalPages (paginate contacts page pageSize) = pages
        /\ totalItems (paginate contacts page pageSize) = Z.of_nat (length contacts)
        /\ hasNext (paginate contacts page pageSize) = (page <? pages)%Z
        /\ hasPrev (paginate contacts page pageSize) = (1 <? page)%Z
        /\ ((pages < page)%Z -> data (paginate contacts page pageSize) = []))
  /\ data (paginate contacts 0 pageSize) = [].
Proof.
  intros pages. subst pages. unfold paginate. cbn [data totalPages totalItems hasNext hasPrev].
  set (size := Z.pos pageSize).
  set (len := Z.of_nat (length contacts)).
  assert (Hsize : (0 < size)%Z) by (unfold size; lia).
  assert (Hlen : (0 <= len)%Z) by (unfold len; lia).
  set (pages := ((len + size - 1) / size)%Z).
  assert (Hlo : (len <= pages * size)%Z).
  { unfold pages.
    pose proof (Z.mul_div_le (len + size - 1) size Hsize).
    pose proof (Z.mod_pos_bound (len + size - 1) size Hsize).
    pose proof (Z.div_mod (len + size - 1) size). nia. }
  assert (Hhi : ((pages - 1) * size < len)%Z).
  { unfold pages.
    pose proof (Z.mul_div_le (len + size - 1) size Hsize). nia. }
  assert (Hpos : (0 <= pages)%Z) by (unfold pages; apply Z.div_pos; lia).
  split; [|split].
  - rewrite <- seq_shift, List.map_map.
    erewrite List.map_ext.
    + apply (pages_concat (Pos.to_nat pageSize) (Z.to_nat pages)); [lia|].
      unfold len, size in *. nia.
    + intros i. cbn beta.
      rewrite slice_from_zero by (unfold size; lia).
      unfold size. do 2 f_equal; lia.
  - intros page Hpage.
    rewrite slice_from_zero by (unfold size; nia).
    split; [rewrite length_firstn; unfold size; lia|].
    split; [reflexivity|]. split; [reflexivity|]. split; [|split; [reflexivity|]].
    + destruct (page <? pages)%Z eqn:E.
      * apply Z.ltb_lt in E. apply Z.ltb_lt. nia.
      * apply Z.ltb_ge in E. apply Z.ltb_ge. nia.
    + intros Hafter. rewrite skipn_all2; [apply firstn_nil|].
      unfold len in *. nia.
  - unfold slice. fold len.
    replace ((0 - 1) * size)%Z with (- size)%Z by lia.
    replace (- size + size)%Z with 0%Z by lia.
    destruct (- size <? 0)%Z eqn:E; [|apply Z.ltb_ge in E; lia].
    cbn [Z.ltb Z.compare]. rewrite (Z.min_l 0 len) by lia.
    replace (Z.to_nat (0 - Z.max (len + - size) 0)) with 0 by lia.
    reflexivity.
Qed.

(** The scenario of X21: three contacts on pages of two. *)
Lemma pages_partition_the_list_witness :
  length (data (paginate [contact_C1; contact_C2; contact_C1] 2 2)) <= Pos.to_nat 2
  /\ totalPages (paginate [contact_C1; contact_C2; contact_C1] 2 2)
     = totalPages (paginate [contact_C1; contact_C2; contact_C1] 1 2)
  /\ totalItems (paginate [contact_C1; contact_C2; contact_C1] 2 2)
     = Z.of_nat (length [contact_C1; contact_C2; contact_C1])
  /\ hasNext (paginate [contact_C1; contact_C2; contact_C1] 2 2)
     = (2 <? totalPages (paginate [contact_C1; contact_C2; contact_C1] 1 2))%Z
  /\ hasPrev (paginate [contact_C1; contact_C2; contact_C1] 2 2) = (1 <? 2)%Z
  /\ ((totalPages (paginate [contact_C1; contact_C2; contact_C1] 1 2) < 2)%Z ->
      data (paginate [contact_C1; contact_C2; contact_C1] 2 2) = []).
Proof.
  refine (proj1 (proj2 (pages_partition_the_list [contact_C1; contact_C2; contact_C1] 2))
            2%Z _).
  lia.
Defined.

End ContactQueriesFacts.

(** ** Contacts: the potential list and the lookup by id *)

Section PotentialContacts.

Import ContactService ContactQueries Examples.

Lemma slice_prefix {A} (l : list A) (limit : Z) :
  (0 < limit)%Z -> slice l 0 limit = firstn (Z.to_nat limit) l.
Proof.
  intros Hl. unfold slice. cbn [Z.ltb Z.compare].
  destruct (limit <? 0)%Z eqn:E; [apply Z.ltb_lt in E; lia|].
  set (len := Z.of_nat (length l)).
  assert (Hlen : (0 <= len)%Z) by (unfold len; lia).
  rewrite (Z.min_l 0 len) by lia.
  change (Z.to_nat 0) with 0. rewrite skipn_O.
  rewrite Z.sub_0_r.
  destruct (Z.le_gt_cases limit len) as [H|H].
  - rewrite Z.min_l by lia. reflexivity.
  - rewrite Z.min_r by lia.
    rewrite !firstn_all2; [reflexivity | |]; unfold len in *; lia.
Qed.

(** X22. [getPotentialContacts], for any host sort that permutes its
    argument.  Every returned card has a name or a company, and the
    cards are cards of the raw reader's answer; a positive limit
    bounds their number, and when the limit does not cut, the result
    is a permutation of the named cards.  The raw reader is called
    once and nothing else is.  Unlike the counters of the dashboard,
    a missing raw reader is an error here, and so it is for
    [searchContacts]. *)
Theorem potential_contacts_named_and_capped {S} (env : Env S)
    (sortNewestFirst : list Obj -> list Obj) (s : S) (limit : Z) :
  (forall l, Permutation (sortNewestFirst l) l) ->
  (forall out w,
     run (getPotentialContacts env sortNewestFirst limit) s = (Ok out, w) ->
     Forall (fun c => truthy (get c "name" ||| get c "company") = true) out
     /\ ((0 < limit)%Z -> length out <= Z.to_nat limit)
     /\ trace w = [Read contactRawReader_getContacts]
     /\ exists l,
          answer env (Read contactRawReader_getContacts) s = Ok (DList l)
          /\ (forall c, In c out -> In c l)
          /\ ((limit <= 0)%Z \/ (Z.of_nat (length l) <= limit)%Z ->
              Permutation out
                (List.filter (fun c => truthy (get c "name" ||| get c "company")) l)))
  /\ (has_contactRawReader (wiring env) = false ->
      forall query,
        run (getPotentialContacts env sortNewestFirst limit) s
        = (Throw (Error ContactRawReaderMissing), {| store := s; trace := [] |})
        /\ run (searchContacts env sortNewestFirst query) s
           = (Throw (Error ContactRawReaderMissing), {| store := s; trace := [] |})).
Proof.
  intros Hsort. split.
  - intros out w.
    unfold run, getPotentialContacts, as_array, answer, logged, bind, try_catch,
      call, ret, lift, throw.
    destruct (has_contactRawReader (wiring env)); red_m; [|discriminate].
    destruct (respond env (Read contactRawReader_getContacts) s) as [r s1]. red_m.
    destruct r as [d|e]; red_m; [|discriminate].
    destruct d as [v|o|l]; red_m; try discriminate.
    intros H. injection H as <- <-.
    set (named := List.filter (fun c => truthy (get c "name" ||| get c "company")) l).
    assert (Hnamed : Forall (fun c => truthy (get c "name" ||| get c "company") = true)
                       (sortNewestFirst named)).
    { eapply Permutation_Forall; [symmetry; apply Hsort|].
      apply List.Forall_forall. intros c Hc.
      apply List.filter_In in Hc as [_ Hc]. exact Hc. }
    assert (Hin : forall c, In c (sortNewestFirst named) -> In c l).
    { intros c Hc. eapply Permutation_in in Hc; [|apply Hsort].
      apply List.filter_In in Hc as [Hc _]. exact Hc. }
    destruct (0 <? limit)%Z eqn:E.
    + apply Z.ltb_lt in E. rewrite slice_prefix by exact E.
      split; [apply Forall_take, Hnamed|].
      split; [intros _; rewrite length_firstn; lia|].
      split; [reflexivity|].
      exists l. split; [reflexivity|]. split.
      * intros c Hc. apply Hin.
        rewrite <- (firstn_skipn (Z.to_nat limit)). apply in_or_app. left. exact Hc.
      * intros [Hl|Hl]; [lia|].
        rewrite firstn_all2; [apply Hsort|].
        rewrite (Permutation_length (Hsort named)).
        pose proof (List.filter_length_le
                      (fun c => truthy (get c "name" ||| get c "company")) l).
        fold named in H. lia.
    + apply Z.ltb_ge in E.
      split; [exact Hnamed|]. split; [intros; lia|]. split; [reflexivity|].
      exists l. split; [reflexivity|]. split; [exact Hin|].
      intros _. apply Hsort.
  - intros Hw query.
    unfold run, searchContacts, getPotentialContacts, logged, bind, try_catch, throw.
    rewrite Hw. split; reflexivity.
Qed.

(** The scenario of X22: four cards, three of them named, a limit of
    two. *)
Lemma potential_contacts_named_and_capped_witness :
  Forall (fun c => truthy (get c "name" ||| get c "company") = true)
    [card VUndef; card (VStr (js "Processed"))]
  /\ ((0 < 2)%Z -> length [card VUndef; card (VStr (js "Processed"))] <= Z.to_nat 2)
  /\ trace {| store := tt; trace := [Read contactRawReader_getContacts] |}
     = [Read contactRawReader_getContacts]
  /\ exists l,
       answer (env_of raw_contacts) (Read contactRawReader_getContacts) tt = Ok (DList l)
       /\ (forall c, In c [card VUndef; card (VStr (js "Processed"))] -> In c l)
       /\ ((2 <= 0)%Z \/ (Z.of_nat (length l) <= 2)%Z ->
           Permutation [card VUndef; card (VStr (js "Processed"))]
             (List.filter (fun c => truthy (get c "name" ||| get c "company")) l)).
Proof.
  refine (proj1 (potential_contacts_named_and_capped (env_of raw_contacts)
                   (fun l => l) tt 2 _)
            [card VUndef; card (VStr (js "Processed"))]
            {| store := tt; trace := [Read contactRawReader_getContacts] |} _).
  - intros l. reflexivity.
  - exact eq_refl.
Defined.

(** X23. [getContactById] falls back to the core sheet.  When the SQL
    reader is missing, finds no row, or throws something other than
    [null] and [undefined], the contact is looked up among the
    official contacts of a forced sheet read, by strict equality of
    [contactId], so a contact found there has the id that was asked
    for; the same when the company list cannot be joined to the SQL
    row.  When the SQL read or the read of the company list rejects
    with [null] or [undefined], logging the message fails: the lookup
    throws a [TypeError] and no contact sheet is read.  A SQL row
    whose join succeeds is returned without any contact sheet being
    read. *)
Theorem getContactById_falls_back_to_sheet {S} (env : Env S)
    (sql_getContactById : Val -> M S (option Obj)) (s : S) (contactId : Val) :
  let fallback :=
    (contacts <- _fetchOfficialContactsWithCompanies env true ;;
     ret (List.find (fun c => strict_eq (get c "contactId") contactId) contacts)) in
  (has_contactSqlReader (wiring env) = false ->
   run (getContactById env sql_getContactById contactId) s = run fallback s)
  /\ (forall r w1,
        has_contactSqlReader (wiring env) = true ->
        run (sql_getContactById contactId) s = (r, w1) ->
        match r with
        | Ok (Some row) =>
          forall companies s2,
            respond env sheetCompanies (store w1) = (companies, s2) ->
            let w2 := {| store := s2; trace := trace w1 ++ [sheetCompanies] |} in
            run (getContactById env sql_getContactById contactId) s
            = match companies with
              | Ok (DList l) =>
                (Ok (Some (_mapOfficialContact
                             (EventLogService.entries "companyId" "companyName" l)
                             (_mapSqlContact row))), w2)
              | Ok _ => fallback w2
              | Throw e =>
                if nullish_rejection (Throw e)
                then (Throw TypeError, w2) else fallback w2
              end
        | Ok None =>
          run (getContactById env sql_getContactById contactId) s = fallback w1
        | Throw e =>
          run (getContactById env sql_getContactById contactId) s
          = if nullish_rejection (Throw e)
            then (Throw TypeError, w1) else fallback w1
        end)
  /\ (forall w0 c w,
        fallback w0 = (Ok (Some c), w) ->
        strict_eq (get c "contactId") contactId = true).
Proof.
  intros fallback. subst fallback. split; [|split].
  - intros Hw. unfold run, getContactById, bind, ret. rewrite Hw. reflexivity.
  - intros r w1 Hw Hsql.
    destruct r as [[row|]|e].
    + intros companies s2 Hc w2. subst w2.
      unfold run, getContactById, as_array, logged, error_message, bind,
        try_catch, call, ret, lift, throw in *.
      rewrite Hw, Hsql. red_m. rewrite Hc. red_m.
      destruct companies as [[v|o|l]|[m| |[]]]; reflexivity.
    + unfold run, getContactById, logged, bind, try_catch, ret in *.
      rewrite Hw, Hsql. reflexivity.
    + unfold run, getContactById, logged, error_message, bind, try_catch,
        ret, lift in *.
      rewrite Hw, Hsql. destruct e as [m| |[]]; reflexivity.
  - intros w0 c w. unfold bind, ret.
    destruct (_fetchOfficialContactsWithCompanies env true w0) as [[contacts|e] w'];
      [|discriminate].
    intros H. injection H as H _.
    apply List.find_some in H as [_ H]. exact H.
Qed.

(** The scenario of X23: SQL has no such row; the sheet is read. *)
Lemma getContactById_falls_back_to_sheet_witness :
  run (getContactById (env_of contacts_lag) (fun _ => ret None) (VStr (js "C1"))) tt
  = (contacts <- _fetchOfficialContactsWithCompanies (env_of contacts_lag) true ;;
     ret (List.find (fun c => strict_eq (get c "contactId") (VStr (js "C1"))) contacts))
      {| store := tt; trace := [] |}.
Proof.
  exact (proj1 (proj2 (getContactById_falls_back_to_sheet (env_of contacts_lag)
                         (fun _ => ret None) tt (VStr (js "C1"))))
           (Ok None) {| store := tt; trace := [] |} eq_refl eq_refl).
Defined.

Lemma searchOfficialContacts_page {S} (env : Env S) (pageSize : positive)
    (s : S) (query : Val) (page : Z) (p : Page) (w : World S) :
  run (searchOfficialContacts env pageSize query page) s = (Ok p, w) ->
  exists contacts found,
    run (_fetchOfficialContactsWithCompanies env false) s = (Ok contacts, w)
    /\ filter_by_query "companyName" query contacts = Ok found
    /\ p = paginate found page pageSize.
Proof.
  unfold run, searchOfficialContacts, logged, bind, try_catch, lift, ret, throw.
  destruct (_fetchOfficialContactsWithCompanies env false _) as [[contacts|e] w'];
    [|discriminate].
  destruct (filter_by_query "companyName" query contacts) as [found|e] eqn:Hq;
    [|discriminate].
  intros H. injection H as <- <-.
  exists contacts, found. repeat split. exact Hq.
Qed.

End PotentialContacts.

(** ** The rows of the contact SQL writer *)

Section ContactRows.

Import ContactSqlWriter.

Lemma copy_defined_lookup (data : Obj) (k column c : string) (payload : Obj) :
  copy_defined data k column payload !! c
  = if bool_decide (c = column) && defined (get data k)
    then Some (get data k) else payload !! c.
Proof.
  unfold copy_defined.
  destruct (defined (get data k)); [|rewrite andb_false_r; reflexivity].
  rewrite andb_true_r.
  destruct (bool_decide (c = column)) eqn:E.
  - apply bool_decide_eq_true in E. subst. apply lookup_insert_eq.
  - apply bool_decide_eq_false in E. apply lookup_insert_ne. congruence.
Qed.

Ltac column :=
  unfold update_payload; cbv zeta;
  rewrite !copy_defined_lookup;
  repeat match goal with
         | |- context [bool_decide (?a = ?b)] =>
           first [ rewrite (bool_decide_eq_true_2 (a = b)) by reflexivity
                 | rewrite (bool_decide_eq_false_2 (a = b)) by discriminate ]
         end;
  cbn [andb];
  rewrite ?lookup_insert_eq, ?lookup_insert_ne, ?lookup_empty by discriminate.

(** X24. The row of [ContactSqlWriter.updateContact].  The two audit
    columns are always written; the identity and creation columns
    never are; a column is written exactly when one of its fields is
    defined in the update, and where a column has two fields the
    alias ([company], [position], [tel]) wins over the canonical one
    ([companyId], [jobTitle], [phone]). *)
Theorem update_row_columns (data : Obj) (user now : Val) :
  let row := update_payload data user now in
  (row !! "updated_time" = Some now /\ row !! "updated_by" = Some user)
  /\ (row !! "contact_id" = None /\ row !! "source_id" = None
      /\ row !! "created_by" = None /\ row !! "created_time" = None)
  /\ row !! "name"
     = (if defined (get data "name") then Some (get data "name") else None)
  /\ row !! "company_id"
     = (if defined (get data "company") then Some (get data "company")
        else if defined (get data "companyId") then Some (get data "companyId")
        else None)
  /\ row !! "job_title"
     = (if defined (get data "position") then Some (get data "position")
        else if defined (get data "jobTitle") then Some (get data "jobTitle")
        else None)
  /\ row !! "phone"
     = (if defined (get data "tel") then Some (get data "tel")
        else if defined (get data "phone") then Some (get data "phone")
        else None)
  /\ row !! "department"
     = (if defined (get data "department") then Some (get data "department") else None)
  /\ row !! "mobile"
     = (if defined (get data "mobile") then Some (get data "mobile") else None)
  /\ row !! "email"
     = (if defined (get data "email") then Some (get data "email") else None).
Proof.
  intros row. subst row.
  repeat split; column; try reflexivity.
Qed.

(** X25. The row of [ContactSqlWriter.createContact] has the thirteen
    columns of the table, whatever the request holds.  The id of the
    row is the [contactId] of the request when that is truthy, else
    its [id] when that is truthy, else the generated id.  Where a
    column has two
    fields, create prefers the canonical field ([companyId]) when it
    is truthy, whereas update prefers the alias ([company]) when it
    is defined: a request that carries both is written differently by
    the two. *)
Theorem create_row_columns (data : Obj) (user generatedId now : Val) :
  let row := create_payload data user generatedId now in
  dom row
  = list_to_set ["contact_id"; "source_id"; "name"; "company_id"; "department";
                 "job_title"; "mobile"; "phone"; "email"; "created_by";
                 "updated_by"; "created_time"; "updated_time"]
  /\ (truthy (get data "contactId") = true ->
      get row "contact_id" = get data "contactId")
  /\ (truthy (get data "contactId") = false -> truthy (get data "id") = true ->
      get row "contact_id" = get data "id")
  /\ (truthy (get data "contactId") = false -> truthy (get data "id") = false ->
      get row "contact_id" = generatedId)
  /\ (truthy (get data "companyId") = true -> defined (get data "company") = true ->
      get row "company_id" = get data "companyId"
      /\ get (update_payload data user now) "company_id" = get data "company").
Proof.
  intros row. subst row. split; [|split; [|split; [|split]]].
  - unfold create_payload. cbv zeta. rewrite !dom_insert_L, dom_empty_L.
    cbn [list_to_set foldr]. set_solver.
  - intros H. unfold create_payload. cbv zeta. rewrite get_insert_eq.
    rewrite (or_else_truthy _ (get data "id") H). apply or_else_truthy, H.
  - intros H1 H2. unfold create_payload. cbv zeta. rewrite get_insert_eq.
    rewrite (or_else_falsy _ (get data "id") H1). apply or_else_truthy, H2.
  - intros H1 H2. unfold create_payload. cbv zeta. rewrite get_insert_eq.
    rewrite (or_else_falsy _ (get data "id") H1). apply or_else_falsy, H2.
  - intros H1 H2. split.
    + unfold create_payload. cbv zeta.
      rewrite !get_insert_ne by discriminate. rewrite get_insert_eq.
      rewrite (or_else_truthy _ (get data "company") H1). apply or_else_truthy, H1.
    + unfold get at 1. column. rewrite H2. reflexivity.
Qed.

(** The scenario of X25: a request that names a company id and, under
    the alias, another; and a request that carries its id under [id]. *)
Lemma create_row_columns_witness :
  (get (create_payload two_companies (VStr (js "Amy")) (VStr (js "C1700000000000"))
          (VStr (js "2026-02-05T00:00:00Z"))) "company_id"
   = get two_companies "companyId"
   /\ get (update_payload two_companies (VStr (js "Amy"))
             (VStr (js "2026-02-05T00:00:00Z"))) "company_id"
      = get two_companies "company")
  /\ get (create_payload (<[ "id" := VStr (js "C7") ]> ∅) (VStr (js "Amy"))
            (VStr (js "C1700000000000")) (VStr (js "2026-02-05T00:00:00Z")))
         "contact_id"
     = get (<[ "id" := VStr (js "C7") ]> ∅ : Obj) "id".
Proof.
  split.
  - exact (proj2 (proj2 (proj2 (proj2
             (create_row_columns two_companies (VStr (js "Amy"))
                (VStr (js "C1700000000000")) (VStr (js "2026-02-05T00:00:00Z"))))))
             eq_refl eq_refl).
  - exact (proj1 (proj2 (proj2
             (create_row_columns (<[ "id" := VStr (js "C7") ]> ∅) (VStr (js "Amy"))
                (VStr (js "C1700000000000")) (VStr (js "2026-02-05T00:00:00Z")))))
             eq_refl eq_refl).
Defined.

End ContactRows.

(** ** Opportunity details: linked contacts and the job title *)

Section OpportunityDetailsFacts.

Import OpportunityService OpportunityDetails Examples.

(** X26. The linked contacts of [getOpportunityDetails] are sound:
    each of them is an official contact with a [linkId] added, and it
    is there because of a link of the table that is selected for the
    opportunity and whose contact id, as a trimmed string, is the
    contact's. *)
Theorem linked_contacts_come_from_links (allLinks allOfficialContacts : list Obj)
    (opportunityId : Val) (c : Obj) :
  In c (linkedContactsFromCache allLinks allOfficialContacts opportunityId) ->
  exists link contact,
    In link allLinks
    /\ link_selected opportunityId link = true
    /\ In contact allOfficialContacts
    /\ normalizeStr (get contact "contactId")
       = normalizeStr (safeGet link ["contactId"; "id"; "contact_id"])
    /\ c = <[ "linkId" := safeGet link ["linkId"; "id"; "rowId"; "rowIndex"] ]> contact.
Proof.
  unfold linkedContactsFromCache. intros H.
  apply list_elem_of_In, list_elem_of_omap in H as (link & Hlink & Hc).
  apply list_elem_of_In, List.filter_In in Hlink as [Hin Hsel].
  unfold link_contact in Hc.
  destruct (negb (nonempty (normalizeStr (safeGet link ["contactId"; "id"; "contact_id"]))));
    [discriminate|].
  destruct (List.find _ allOfficialContacts) as [contact|] eqn:Hf; [|discriminate].
  injection Hc as <-.
  apply List.find_some in Hf as [Hcin Heq].
  apply bool_decide_eq_true in Heq.
  exists link, contact. repeat split; assumption.
Qed.

(** The scenario of X26: a link without status. *)
Lemma linked_contacts_come_from_links_witness :
  exists link contact,
    In link [link_legacy]
    /\ link_selected (VStr (js "OPP1")) link = true
    /\ In contact [contact_C1]
    /\ normalizeStr (get contact "contactId")
       = normalizeStr (safeGet link ["contactId"; "id"; "contact_id"])
    /\ <[ "linkId" := VUndef ]> contact_C1
       = <[ "linkId" := safeGet link ["linkId"; "id"; "rowId"; "rowIndex"] ]> contact.
Proof.
  refine (linked_contacts_come_from_links [link_legacy] [contact_C1] (VStr (js "OPP1"))
            (<[ "linkId" := VUndef ]> contact_C1) _).
  left. exact eq_refl.
Defined.

Lemma fallback_finds_same_card (n targetName : JsString.t) (all potential : list Obj) :
  nonempty n = true ->
  filter_res (same_company_card n) all = Ok potential ->
  find_res (fallback_card n targetName) all
  = Ok (List.find (name_is targetName) potential).
Proof.
  intros Hn. revert potential.
  induction all as [|x r IH]; intros potential Hf; simpl in Hf.
  - injection Hf as <-. reflexivity.
  - unfold same_company_card at 1 in Hf.
    destruct (CompanyService._normalizeCompanyName (get x "company")) as [nx|e] eqn:Hx;
      [|discriminate].
    destruct (filter_res (same_company_card n) r) as [r'|e]; [|discriminate].
    specialize (IH r' eq_refl).
    injection Hf as <-.
    simpl. unfold fallback_card at 1. rewrite Hx, Hn, andb_true_r.
    destruct (bool_decide (nx = n)) eqn:Hb.
    + apply bool_decide_eq_true in Hb. subst nx. rewrite Hn. simpl.
      destruct (name_is targetName x); [reflexivity | exact IH].
    + rewrite andb_false_r.
      destruct (name_is targetName x); exact IH.
Qed.

Lemma position_of_some (l : list Obj) (targetName : JsString.t) (title : Val) :
  position_of (List.find (name_is targetName) l) = Some title ->
  truthy title = true
  /\ exists c, In c l /\ get c "name" = VStr targetName /\ get c "position" = title.
Proof.
  destruct (List.find (name_is targetName) l) as [c|] eqn:Hf; [|discriminate].
  simpl. destruct (truthy (get c "position")) eqn:Ht; [|discriminate].
  intros H. injection H as <-.
  apply List.find_some in Hf as [Hin Hname].
  split; [exact Ht|]. exists c. split; [exact Hin|]. split; [|reflexivity].
  unfold name_is in Hname. destruct (get c "name"); simpl in Hname;
    try discriminate Hname; apply bool_decide_eq_true in Hname; exact Hname.
Qed.

(** X27. The job title of the main contact.  When the company of the
    opportunity does not normalise to the empty string, the last,
    global search finds the very card the search among the potential
    contacts of the company found, so it adds nothing: the title is
    the truthy [position] of the first linked contact of that name,
    else of the first potential contact of the company of that name,
    else the empty string.  A blank main contact gives the empty
    string. *)
Theorem job_title_comes_from_linked_or_company (opportunityInfo : Obj)
    (linked potential allPotential : list Obj) (n targetName : JsString.t) :
  targetName_of opportunityInfo = Ok targetName ->
  nonempty n = true ->
  filter_res (same_company_card n) allPotential = Ok potential ->
  find_res (fallback_card n targetName) allPotential
  = Ok (List.find (name_is targetName) potential)
  /\ (exists title,
        mainContactJobTitle opportunityInfo linked potential allPotential n = Ok title
        /\ (truthy title = true ->
            exists c, (In c linked \/ In c potential)
                      /\ get c "name" = VStr targetName /\ get c "position" = title)
        /\ (targetName = [] -> title = VStr [])).
Proof.
  intros Ht Hn Hf.
  pose proof (fallback_finds_same_card n targetName allPotential potential Hn Hf) as Hsame.
  split; [exact Hsame|].
  unfold mainContactJobTitle. rewrite Ht.
  destruct targetName as [|u t]; cbn [nonempty].
  { exists (VStr []). split; [reflexivity|]. split; [discriminate | reflexivity]. }
  destruct (position_of (List.find (name_is (u :: t)) linked)) as [title|] eqn:H1.
  - exists title. split; [reflexivity|]. split; [|discriminate].
    intros _. apply position_of_some in H1 as (_ & c & Hin & Hc).
    exists c. split; [left; exact Hin | exact Hc].
  - destruct (position_of (List.find (name_is (u :: t)) potential)) as [title|] eqn:H2.
    + exists title. split; [reflexivity|]. split; [|discriminate].
      intros _. apply position_of_some in H2 as (_ & c & Hin & Hc).
      exists c. split; [right; exact Hin | exact Hc].
    + rewrite Hsame, H2. exists (VStr []).
      split; [reflexivity|]. split; discriminate.
Qed.

(** The scenario of X27: two cards of the name, one of the company. *)
Lemma job_title_comes_from_linked_or_company_witness :
  find_res (fallback_card (js "台灣科技") (js "Amy Lin")) [card_other; card_amy]
  = Ok (List.find (name_is (js "Amy Lin")) [card_amy])
  /\ (exists title,
        mainContactJobTitle opportunity_of_amy [] [card_amy] [card_other; card_amy]
          (js "台灣科技") = Ok title
        /\ (truthy title = true ->
            exists c, (In c [] \/ In c [card_amy])
                      /\ get c "name" = VStr (js "Amy Lin") /\ get c "position" = title)
        /\ (js "Amy Lin" = [] -> title = VStr [])).
Proof.
  refine (job_title_comes_from_linked_or_company opportunity_of_amy []
            [card_amy] [card_other; card_amy] (js "台灣科技") (js "Amy Lin") _ _ _);
    exact eq_refl.
Defined.

End OpportunityDetailsFacts.

(** ** The create handler, the announcement list, the company details *)

Section ControllerFacts.

Import CompanyService Examples.

Lemma handler_trace {S} (env : Env S) (s : S) (body : Obj) (user : Data) :
  truthy (get body "companyName") = true ->
  trace (snd (run (CompanyController.createCompany env body user) s))
  = trace (snd (run (createCompany env (get body "companyName") (Some body) user) s)).
Proof.
  intros Ht. unfold run, CompanyController.createCompany, logged, bind, try_catch, ret.
  rewrite Ht. cbn [negb].
  destruct (createCompany env (get body "companyName") (Some body) user _) as [[r|e] w];
    reflexivity.
Qed.

(** X28. The create handler of the company controller.  It always
    answers.  A request without a truthy [companyName] is answered
    with status 400 before the service or any adapter is called.
    Every row it lets the service write carries the fields of the
    request body as they are, so its name is the truthy name of the
    request. *)
Theorem handler_never_creates_unnamed {S} (env : Env S) (s : S)
    (body : Obj) (user : Data) :
  (exists response,
     fst (run (CompanyController.createCompany env body user) s) = Ok response)
  /\ (truthy (get body "companyName") = false ->
      run (CompanyController.createCompany env body user) s
      = (Ok (CompanyController.Status400 (js "Company name is required")),
         {| store := s; trace := [] |}))
  /\ (forall row modifier,
        In (Write (companySqlWriter_createCompany row modifier))
           (trace (snd (run (CompanyController.createCompany env body user) s))) ->
        (forall k v, body !! k = Some v -> row !! k = Some v)
        /\ get row "companyName" = get body "companyName"
        /\ truthy (get row "companyName") = true).
Proof.
  split; [|split].
  - unfold run, CompanyController.createCompany, logged, bind, try_catch, ret.
    destruct (negb (truthy (get body "companyName"))); [eexists; reflexivity|].
    destruct (createCompany env (get body "companyName") (Some body) user _) as [[r|e] w];
      eexists; reflexivity.
  - intros Ht. unfold run, CompanyController.createCompany, logged, bind, try_catch, ret.
    rewrite Ht. reflexivity.
  - intros row modifier H.
    destruct (truthy (get body "companyName")) eqn:Ht.
    + rewrite handler_trace in H by exact Ht.
      apply createCompany_written_row in H as (s0 & generated & _ & _ & ->).
      change (default ∅ (Some body)) with body.
      assert (Hkeep : forall k v,
                 body !! k = Some v ->
                 (body ∪ <[ "companyId" := val_of generated ]>
                           (<[ "companyName" := get body "companyName" ]> ∅)) !! k
                 = Some v).
      { intros k v Hk. apply lookup_union_Some_l. exact Hk. }
      split; [exact Hkeep|].
      assert (Hname : get (body ∪ <[ "companyId" := val_of generated ]>
                             (<[ "companyName" := get body "companyName" ]> ∅))
                        "companyName" = get body "companyName").
      { unfold get at 1. destruct (body !! "companyName") as [v|] eqn:Hb.
        - rewrite (Hkeep _ _ Hb). unfold get. rewrite Hb. reflexivity.
        - rewrite lookup_union_r by exact Hb.
          rewrite lookup_insert_ne by discriminate. rewrite lookup_insert_eq.
          reflexivity. }
      split; [exact Hname | rewrite Hname; exact Ht].
    + exfalso. revert H.
      unfold run, CompanyController.createCompany, logged, bind, try_catch, ret.
      rewrite Ht. intros [].
Qed.

(** The scenario of X28: a request without name. *)
Lemma handler_never_creates_unnamed_witness :
  run (CompanyController.createCompany (env_of companies_sql) ∅ user_amy) tt
  = (Ok (CompanyController.Status400 (js "Company name is required")),
     {| store := tt; trace := [] |}).
Proof.
  exact (proj1 (proj2 (handler_never_creates_unnamed (env_of companies_sql) tt ∅ user_amy))
           eq_refl).
Defined.

End ControllerFacts.

Section AnnouncementList.

Import AnnouncementService AnnouncementQueries Examples.

(** X29. [getAnnouncements], for any host sort that permutes its
    argument: the result is a permutation of the published records
    of what [_fetchInternal] served, so every record of it is
    published and no published record is missing; the reads are
    those of [_fetchInternal].  What the SQL reader answers is taken
    as it is: an answer that is not an array makes the list fail
    with a [TypeError], the sheet is not read. *)
Theorem announcements_listed_are_published {S} (env : Env S)
    (sortPinnedFirst : list Obj -> list Obj) (s : S) (d : Data) (w : World S) :
  (forall l, Permutation (sortPinnedFirst l) l) ->
  run (_fetchInternal env) s = (Ok d, w) ->
  match d with
  | DList l =>
    exists out,
      run (getAnnouncements env sortPinnedFirst) s = (Ok out, w)
      /\ Permutation out (List.filter published l)
      /\ Forall (fun item => published item = true) out
  | _ => run (getAnnouncements env sortPinnedFirst) s = (Throw TypeError, w)
  end.
Proof.
  intros Hsort Hf.
  unfold run, getAnnouncements, as_array, logged, bind, try_catch, lift, ret, throw in *.
  rewrite Hf. destruct d as [v|o|l]; try reflexivity.
  eexists. split; [reflexivity|]. split; [apply Hsort|].
  eapply Permutation_Forall; [symmetry; apply Hsort|].
  apply List.Forall_forall. intros x Hx.
  apply List.filter_In in Hx as [_ Hx]. exact Hx.
Qed.

(** The scenario of X29: the SQL reader answers [undefined]. *)
Lemma announcements_listed_are_published_witness :
  run (getAnnouncements (env_of companies_sql) (fun l => l)) tt
  = (Throw TypeError, {| store := tt; trace := [sqlAnnouncements] |}).
Proof.
  refine (announcements_listed_are_published (env_of companies_sql) (fun l => l) tt
            (DVal VUndef) {| store := tt; trace := [sqlAnnouncements] |} _ _).
  - intros l. reflexivity.
  - exact eq_refl.
Defined.

End AnnouncementList.

Section CompanyDetailsFacts.

Import CompanyService CompanyDetails Examples.

Lemma filter_res_ext (f g : Obj -> Res bool) (l : list Obj) :
  (forall x, f x = g x) -> filter_res f l = filter_res g l.
Proof.
  intros H. induction l as [|x l IH]; [reflexivity|].
  simpl. rewrite H, IH. reflexivity.
Qed.

Lemma field_matches_opp_of_company (companyName : Val) (target : JsString.t) (o : Obj) :
  _normalizeCompanyName companyName = Ok target ->
  field_matches "customerCompany" target o
  = CompanyService_v7_7.opp_of_company companyName o.
Proof.
  intros H. unfold field_matches, CompanyService_v7_7.opp_of_company. rewrite H.
  destruct (_normalizeCompanyName (get o "customerCompany")); reflexivity.
Qed.

Lemma find_res_none f l :
  Forall (fun x => f x = Ok false) l -> find_res f l = Ok None.
Proof.
  induction 1 as [|x l Hx Hl IH]; simpl; [reflexivity|].
  rewrite Hx. exact IH.
Qed.

(** A read that leaves the store as it is answers in the same store. *)
Lemma read_answer {S} (env : Env S) (r : ReadOp) (s : S) (d : Data) :
  (forall r st, after env (Read r) st = st) ->
  answer env (Read r) s = Ok d ->
  respond env (Read r) s = (Ok d, s).
Proof.
  intros Hreads Hd. specialize (Hreads r s). unfold after, answer in *.
  destruct (respond env (Read r) s) as [x s']. simpl in *. subst. reflexivity.
Qed.

Lemma getAllCompanies_store {S} (env : Env S) (s : S) :
  (forall r st, after env (Read r) st = st) ->
  store (snd (run (_getAllCompanies env) s)) = s.
Proof.
  intros Hreads.
  unfold run, _getAllCompanies, as_array, logged, bind, try_catch, call, ret,
    lift, throw.
  run_eq;
    repeat match goal with
           | Hc : respond env (Read ?r) ?st = (_, ?st') |- _ =>
             let X := fresh in
             pose proof (Hreads r st) as X; unfold after in X;
             rewrite Hc in X; cbn [snd] in X; subst st'; clear Hc
           end; reflexivity.
Qed.

(** X30. [getCompanyDetails] reads and never writes.  A company that
    is not found is no error: when the reads leave the stores as they
    are, the six of them answer and no company of the list has the
    normalised name (the names being plain), the answer is the empty
    details, whatever the five other tables hold.  For a
    company that is found, the opportunities of the details are
    exactly the opportunities that [deleteCompany] counts as related
    on the same answer of the opportunity sheet, so a company whose
    details list an opportunity is one that [deleteCompany] refuses. *)
Theorem company_details_list_blocking_opportunities {S} (env : Env S)
    (sortInteractions sortEventLogs : list Obj -> list Obj) (s : S)
    (companyName : Val) :
  no_write (trace (snd (run (getCompanyDetails env sortInteractions sortEventLogs
                               companyName) s)))
  /\ (forall companies w1 target,
        (forall r st, after env (Read r) st = st) ->
        plain_name companyName = true ->
        Forall (fun c => plain_name (get c "companyName") = true) companies ->
        run (_getAllCompanies env) s = (Ok companies, w1) ->
        (forall r,
           In r [contactReader_getContactList; opportunityReader_getOpportunities;
                 interactionReader_getInteractions; eventReader_getEventLogs;
                 contactReader_getContacts] ->
           exists d, answer env (Read r) s = Ok d) ->
        _normalizeCompanyName companyName = Ok target ->
        Forall (fun c => name_matches target c = Ok false) companies ->
        fst (run (getCompanyDetails env sortInteractions sortEventLogs companyName) s)
        = Ok no_details)
  /\ (forall d w,
        run (getCompanyDetails env sortInteractions sortEventLogs companyName) s
        = (Ok d, w) ->
        (companyInfo d = None -> d = no_details)
        /\ (companyInfo d <> None ->
            exists s0 l,
              In sheetOpps (trace w)
              /\ answer env sheetOpps s0 = Ok (DList l)
              /\ filter_res (CompanyService_v7_7.opp_of_company companyName) l
                 = Ok (opportunities d))).
Proof.
  split; [|split].
  - unfold no_write, run, getCompanyDetails, _getAllCompanies, all2, as_array,
      logged, bind, try_catch, call, ret, lift, throw.
    run_eq; repeat constructor.
  - intros companies w1 target Hreads _ _ Hread Hans Hn Hnone.
    pose proof (getAllCompanies_store env s Hreads) as Hs.
    rewrite Hread in Hs. cbn [snd] in Hs.
    destruct (Hans contactReader_getContactList) as [d2 H2]; [simpl; tauto|].
    destruct (Hans opportunityReader_getOpportunities) as [d3 H3]; [simpl; tauto|].
    destruct (Hans interactionReader_getInteractions) as [d4 H4]; [simpl; tauto|].
    destruct (Hans eventReader_getEventLogs) as [d5 H5]; [simpl; tauto|].
    destruct (Hans contactReader_getContacts) as [d6 H6]; [simpl; tauto|].
    apply (read_answer env _ _ _ Hreads) in H2, H3, H4, H5, H6.
    unfold run in *.
    unfold getCompanyDetails, all2, bind, try_catch, call, ret, lift.
    rewrite Hread. cbn [store trace]. rewrite Hs, H2. cbn [store trace].
    rewrite H3. cbn [store trace]. rewrite H4. cbn [store trace].
    rewrite H5. cbn [store trace]. rewrite H6. cbn [fst snd store trace].
    rewrite Hn, (find_res_none _ _ Hnone). reflexivity.
  - intros d w.
    unfold run, getCompanyDetails, _getAllCompanies, all2, as_array, answer,
      logged, bind, try_catch, call, ret, lift, throw.
    run_eq; intros H; try discriminate H; injection H as <- <-;
      (split; [intros Hn; first [reflexivity | discriminate Hn]|]);
      intros Hn; try (exfalso; apply Hn; reflexivity);
      match goal with
      | Hc : respond env sheetOpps ?s0 = (Ok (DList ?l), _),
        Ht : _normalizeCompanyName companyName = Ok ?t |- _ =>
        exists s0, l; split; [simpl; tauto|]; split; [rewrite Hc; reflexivity|];
        rewrite <- (filter_res_ext _ _ l
                      (fun o => field_matches_opp_of_company companyName t o Ht));
        assumption
      end.
Qed.

(** The scenario of X30: the details of a company with one
    opportunity list it; the details of a company that is not there
    are empty. *)
Lemma company_details_list_blocking_opportunities_witness :
  (exists s0 l,
     In sheetOpps [sqlCompanies; Read contactReader_getContactList; sheetOpps;
                   Read interactionReader_getInteractions; sheetEvents;
                   Read contactReader_getContacts]
     /\ answer (env_of details_tables) sheetOpps s0 = Ok (DList l)
     /\ filter_res (CompanyService_v7_7.opp_of_company (VStr (js "台灣科技(Taiwan)"))) l
        = Ok [opportunity_O1])
  /\ fst (run (getCompanyDetails (env_of details_tables) (fun l => l) (fun l => l)
                 (VStr (js "新創"))) tt)
     = Ok no_details.
Proof.
  split.
  - refine (proj2 (proj2 (proj2 (company_details_list_blocking_opportunities
                     (env_of details_tables) (fun l => l) (fun l => l) tt
                     (VStr (js "台灣科技(Taiwan)"))))
              {| companyInfo := Some (dto company_A); contacts := [];
                 opportunities := [opportunity_O1]; potentialContacts := [];
                 interactions := []; eventLogs := [] |}
              {| store := tt;
                 trace := [sqlCompanies; Read contactReader_getContactList; sheetOpps;
                           Read interactionReader_getInteractions; sheetEvents;
                           Read contactReader_getContacts] |} _) _).
    + exact eq_refl.
    + discriminate.
  - refine (proj1 (proj2 (company_details_list_blocking_opportunities
                     (env_of details_tables) (fun l => l) (fun l => l) tt
                     (VStr (js "新創"))))
              [dto company_A] {| store := tt; trace := [sqlCompanies] |}
              (js "新創") _ eq_refl _ eq_refl _ eq_refl _).
    + intros r []. destruct (after _ _ _). reflexivity.
    + constructor; [exact eq_refl | constructor].
    + intros r H.
      repeat (destruct H as [<-|H]; [eexists; exact eq_refl|]).
      destruct H.
    + constructor; [exact eq_refl | constructor].
Defined.

End CompanyDetailsFacts.
